(** * The entry record of the password database core (src/core/ItemData.cpp)

    A shallow embedding of [CItemData]: the typed field store it inherits
    from [CItem], the entry kinds and the relocation of the entry id between
    the id slots, the legacy placeholder password, the tagged-chunk reader
    and the two writers, the password history update and the numeric and
    time matchers; then the text forms of the notes, the title and the
    integer fields, the expiry tests, the passkey and attachment fields and
    the reader of the plain image.

    Conventions.
    - A character ([TCHAR]) and a byte ([unsigned char]) are both 8-bit code
      units, [ascii]; a [StringX] and a byte buffer are lists of them. The
      conversion between the in-memory text and the text on file, done by
      the os layer, is then the identity on code units.
    - [ASSERT] is the debug-build contract annotation: the functions below
      are the release-build behaviour, and the asserted conditions appear as
      hypotheses of the theorems that need them.
    - Field tags are kept symbolic ([FieldType]): the numeric registry lives
      in a header that is not part of the sources read here. *)

From Stdlib Require Import ZArith NArith Ascii String List Lia Bool.
From stdpp Require Import base decidable option countable list strings gmap.

Import ListNotations.
Local Open Scope Z_scope.

(** ** Characters, strings and byte buffers *)

Abbreviation TCHAR := ascii (only parsing).
Abbreviation StringX := (list ascii) (only parsing).

(** The source's [_T("...")] literal. *)
Definition _T (s : string) : StringX := list_ascii_of_string s.

Definition chr (n : N) : ascii := ascii_of_N n.
Definition ord (c : ascii) : Z := Z.of_N (N_of_ascii c).

(** Modelled from the spec: [putInt] and [getInt] of the utility header,
    which is not among the sources: fixed-width integers, little-endian.
    The bytes of [z] are those of [z] modulo [2 ^ (8 * w)]. *)
Fixpoint le_bytes (w : nat) (z : Z) : list ascii :=
  match w with
  | O => []
  | S w' => chr (Z.to_N (z mod 256)) :: le_bytes w' (z / 256)
  end.

(** Modelled from the spec: the unsigned reading of a little-endian
    buffer. *)
Fixpoint le_unsigned (l : list ascii) : Z :=
  match l with
  | [] => 0
  | c :: l' => ord c + 256 * le_unsigned l'
  end.

(** Modelled from the spec: [getInt<T>] for a signed [T] of [w] bytes, the
    two's complement reading of the first [w] bytes of a buffer. *)
Definition le_signed (w : nat) (l : list ascii) : Z :=
  let u := le_unsigned (take w l) in
  if u <? 2 ^ (8 * Z.of_nat w - 1) then u else u - 2 ^ (8 * Z.of_nat w).

(** Wrap-around of a C cast to a signed [w]-byte integer. *)
Definition wrap_signed (w : nat) (z : Z) : Z :=
  let m := 2 ^ (8 * Z.of_nat w) in
  let u := z mod m in
  if u <? m / 2 then u else u - m.

(** ** Field tags *)

(** The names are those of the [FieldType] enumeration used in the source.
    [GROUPTITLE] reuses the value of the deprecated [NAME]. [ATT_FIELD]
    stands for the tags of attachment records and [OTHER] for every byte
    that the registry does not name. *)
Inductive FieldType : Set :=
  | NAME | UUID | GROUP | TITLE | USER | NOTES | PASSWORD
  | CTIME | PMTIME | ATIME | XTIME | RESERVED | RMTIME
  | URL | AUTOTYPE | PWHIST | POLICY | XTIME_INT | RUNCMD | DCA | EMAIL
  | PROTECTED | SYMBOLS | SHIFTDCA | POLICYNAME | KBSHORTCUT | ATTREF
  | CCNUM | CCEXP | CCVV | CCPIN
  | TWOFACTORKEY | TOTPCONFIG | TOTPSTARTTIME | TOTPTIMESTEP | TOTPLENGTH
  | BASEUUID | ALIASUUID | SHORTCUTUUID
  | DATA_ATT_TITLE | DATA_ATT_MEDIATYPE | DATA_ATT_FILENAME
  | DATA_ATT_MTIME | DATA_ATT_CONTENT
  | PASSKEY_CRED_ID | PASSKEY_RP_ID | PASSKEY_USER_HANDLE
  | PASSKEY_ALGO_ID | PASSKEY_PRIVATE_KEY | PASSKEY_SIGN_COUNT
  | END
  | ENTRYSIZE | PASSWORDLEN | UNKNOWNFIELDS
  | ATT_FIELD (n : N)
  | OTHER (n : N).

Abbreviation GROUPTITLE := NAME (only parsing).

Definition ft_code (ft : FieldType) : N * N :=
  match ft with
  | NAME => (0, 0) | UUID => (1, 0) | GROUP => (2, 0) | TITLE => (3, 0)
  | USER => (4, 0) | NOTES => (5, 0) | PASSWORD => (6, 0) | CTIME => (7, 0)
  | PMTIME => (8, 0) | ATIME => (9, 0) | XTIME => (10, 0)
  | RESERVED => (11, 0) | RMTIME => (12, 0) | URL => (13, 0)
  | AUTOTYPE => (14, 0) | PWHIST => (15, 0) | POLICY => (16, 0)
  | XTIME_INT => (17, 0) | RUNCMD => (18, 0) | DCA => (19, 0)
  | EMAIL => (20, 0) | PROTECTED => (21, 0) | SYMBOLS => (22, 0)
  | SHIFTDCA => (23, 0) | POLICYNAME => (24, 0) | KBSHORTCUT => (25, 0)
  | ATTREF => (26, 0) | CCNUM => (27, 0) | CCEXP => (28, 0)
  | CCVV => (29, 0) | CCPIN => (30, 0) | TWOFACTORKEY => (31, 0)
  | TOTPCONFIG => (32, 0) | TOTPSTARTTIME => (33, 0)
  | TOTPTIMESTEP => (34, 0) | TOTPLENGTH => (35, 0) | BASEUUID => (36, 0)
  | ALIASUUID => (37, 0) | SHORTCUTUUID => (38, 0)
  | DATA_ATT_TITLE => (39, 0) | DATA_ATT_MEDIATYPE => (40, 0)
  | DATA_ATT_FILENAME => (41, 0) | DATA_ATT_MTIME => (42, 0)
  | DATA_ATT_CONTENT => (43, 0) | PASSKEY_CRED_ID => (44, 0)
  | PASSKEY_RP_ID => (45, 0) | PASSKEY_USER_HANDLE => (46, 0)
  | PASSKEY_ALGO_ID => (47, 0) | PASSKEY_PRIVATE_KEY => (48, 0)
  | PASSKEY_SIGN_COUNT => (49, 0) | END => (50, 0) | ENTRYSIZE => (51, 0)
  | PASSWORDLEN => (52, 0) | UNKNOWNFIELDS => (53, 0)
  | ATT_FIELD n => (54, n)
  | OTHER n => (55, n)
  end%N.

Definition named_fields : list FieldType :=
  [ NAME; UUID; GROUP; TITLE; USER; NOTES; PASSWORD; CTIME; PMTIME; ATIME;
    XTIME; RESERVED; RMTIME; URL; AUTOTYPE; PWHIST; POLICY; XTIME_INT;
    RUNCMD; DCA; EMAIL; PROTECTED; SYMBOLS; SHIFTDCA; POLICYNAME;
    KBSHORTCUT; ATTREF; CCNUM; CCEXP; CCVV; CCPIN; TWOFACTORKEY;
    TOTPCONFIG; TOTPSTARTTIME; TOTPTIMESTEP; TOTPLENGTH; BASEUUID;
    ALIASUUID; SHORTCUTUUID; DATA_ATT_TITLE; DATA_ATT_MEDIATYPE;
    DATA_ATT_FILENAME; DATA_ATT_MTIME; DATA_ATT_CONTENT; PASSKEY_CRED_ID;
    PASSKEY_RP_ID; PASSKEY_USER_HANDLE; PASSKEY_ALGO_ID;
    PASSKEY_PRIVATE_KEY; PASSKEY_SIGN_COUNT; END; ENTRYSIZE; PASSWORDLEN;
    UNKNOWNFIELDS ].

Definition ft_decode (p : N * N) : FieldType :=
  let '(i, n) := p in
  if (i =? 54)%N then ATT_FIELD n
  else if (i =? 55)%N then OTHER n
  else nth (N.to_nat i) named_fields NAME.

#[global] Instance FieldType_eq_dec : EqDecision FieldType.
Proof.
  intros x y. destruct (decide (ft_code x = ft_code y)) as [e | n].
  - left. apply (f_equal ft_decode) in e.
    assert (H : forall ft, ft_decode (ft_code ft) = ft)
      by (intros []; reflexivity).
    now rewrite !H in e.
  - right. intros ->. now apply n.
Defined.

#[global] Instance FieldType_countable : Countable FieldType.
Proof.
  refine (inj_countable' ft_code ft_decode _). intros []; reflexivity.
Defined.

(** ** The record *)

(** Modelled from the spec: the entry kinds and the entry status, whose
    enumerations are declared in a header that is not among the sources. *)
Inductive EntryType : Set :=
  | ET_NORMAL | ET_ALIASBASE | ET_ALIAS | ET_SHORTCUTBASE | ET_SHORTCUT.

(** Modelled from the spec: the mutation bookkeeping of the undo layer. *)
Inductive EntryStatus : Set :=
  | ES_CLEAN | ES_ADDED | ES_MODIFIED | ES_DELETED.

#[global] Instance EntryType_eq_dec : EqDecision EntryType.
Proof. solve_decision. Defined.

#[global] Instance EntryStatus_eq_dec : EqDecision EntryStatus.
Proof. solve_decision. Defined.

(** [m_fields] is the map from tag to stored value, [m_URFL] the list of
    unknown record fields in arrival order. *)
Record CItemData : Type := mkItem {
  m_fields : gmap FieldType (list ascii);
  m_URFL : list (FieldType * list ascii);
  m_entrytype : EntryType;
  m_entrystatus : EntryStatus
}.

(** ** The field store inherited from [CItem] *)

(** Modelled from the spec: the field store of [CItem] (Item.cpp is not
    among the sources): a mapping from field tag to field value plus a
    separate bag of unknown fields kept verbatim. A stored value is never
    empty (the writer asserts [!field.IsEmpty()] on every stored field), so
    storing the empty value removes the field. *)
Definition CItem_SetField (ft : FieldType) (value : list ascii)
    (r : CItemData) : CItemData :=
  mkItem (match value with
          | [] => delete ft (m_fields r)
          | _ :: _ => <[ft := value]> (m_fields r)
          end)
         (m_URFL r) (m_entrytype r) (m_entrystatus r).

(** Modelled from the spec: [CItem::GetField], the value stored under a
    tag, empty when the field is not set. *)
Definition CItem_GetField (ft : FieldType) (r : CItemData) : StringX :=
  default [] (m_fields r !! ft).

(** Modelled from the spec: [CItem::IsFieldSet]. *)
Definition IsFieldSet (ft : FieldType) (r : CItemData) : bool :=
  bool_decide (is_Some (m_fields r !! ft)).

(** Modelled from the spec: [CItem::ClearField]. *)
Definition ClearField (ft : FieldType) (r : CItemData) : CItemData :=
  mkItem (delete ft (m_fields r)) (m_URFL r) (m_entrytype r) (m_entrystatus r).

(** Modelled from the spec: [CItem::SetUnknownField] appends the (tag,
    length, bytes) triple to the bag of unknown fields; the length is the
    length of the bytes. *)
Definition SetUnknownField (type : FieldType) (data : list ascii)
    (r : CItemData) : CItemData :=
  mkItem (m_fields r) (m_URFL r ++ [(type, data)])
         (m_entrytype r) (m_entrystatus r).

(** Modelled from the spec: [CItem::Clear] empties the store and the bag. *)
Definition CItem_Clear (r : CItemData) : CItemData :=
  mkItem ∅ [] (m_entrytype r) (m_entrystatus r).

(** Modelled from the spec: [CItem::SetTime]. Times are kept in the store
    in the native 8-byte [time_t]. *)
Definition CItem_SetTime (whichtime : FieldType) (t : Z) (r : CItemData)
    : CItemData :=
  CItem_SetField whichtime (le_bytes 8 t) r.

(** Modelled from the spec: [CItem::GetTime], zero when the field is not
    set. *)
Definition CItem_GetTime (whichtime : FieldType) (r : CItemData) : Z :=
  match m_fields r !! whichtime with
  | Some ((_ :: _) as v) => le_signed 8 v
  | _ => 0
  end.

(** ** Entry kinds *)

Definition CItemData_Clear (r : CItemData) : CItemData :=
  let r := CItem_Clear r in
  mkItem (m_fields r) (m_URFL r) ET_NORMAL ES_CLEAN.

(** Modelled from the spec: the kind tests, inline in a header that is not
    among the sources. *)
Definition IsNormal (r : CItemData) : bool :=
  bool_decide (m_entrytype r = ET_NORMAL).
Definition IsAliasBase (r : CItemData) : bool :=
  bool_decide (m_entrytype r = ET_ALIASBASE).
Definition IsShortcutBase (r : CItemData) : bool :=
  bool_decide (m_entrytype r = ET_SHORTCUTBASE).
Definition IsAlias (r : CItemData) : bool :=
  bool_decide (m_entrytype r = ET_ALIAS).
Definition IsShortcut (r : CItemData) : bool :=
  bool_decide (m_entrytype r = ET_SHORTCUT).
Definition IsBase (r : CItemData) : bool := IsAliasBase r || IsShortcutBase r.
Definition IsDependent (r : CItemData) : bool := IsAlias r || IsShortcut r.

(** ** Identifiers *)

Definition zero_byte : ascii := chr 0.
Definition NullUUID : list ascii := repeat zero_byte 16.

(** [GetUUID(uuid_array, ft)]: [END] means "infer the slot from the entry
    type", any other tag is used as it is. *)
Definition uuid_slot (r : CItemData) (ft : FieldType) : FieldType :=
  match ft with
  | END =>
      match m_entrytype r with
      | ET_NORMAL | ET_ALIASBASE | ET_SHORTCUTBASE => UUID
      | ET_ALIAS => ALIASUUID
      | ET_SHORTCUT => SHORTCUTUUID
      end
  | _ => ft
  end.

Definition GetUUID (r : CItemData) (ft : FieldType) : list ascii :=
  match m_fields r !! uuid_slot r ft with
  | None => NullUUID
  | Some v => v
  end.

Definition SetUUID (uuid : list ascii) (ft : FieldType) (r : CItemData)
    : CItemData :=
  CItem_SetField ft uuid r.

Definition HasUUID (r : CItemData) : bool :=
  ((bool_decide (m_entrytype r = ET_NORMAL)
    || bool_decide (m_entrytype r = ET_ALIASBASE)
    || bool_decide (m_entrytype r = ET_SHORTCUTBASE)) && IsFieldSet UUID r)
  || (bool_decide (m_entrytype r = ET_ALIAS) && IsFieldSet ALIASUUID r)
  || (bool_decide (m_entrytype r = ET_SHORTCUT) && IsFieldSet SHORTCUTUUID r).

Definition erase (ft : FieldType) (r : CItemData) : CItemData := ClearField ft r.

Definition set_entrytype (et : EntryType) (r : CItemData) : CItemData :=
  mkItem (m_fields r) (m_URFL r) et (m_entrystatus r).

(** [SetEntryType]: the two nested tests are those of the source, the
    second outer one included as it is written there. *)
Definition SetEntryType (et : EntryType) (r : CItemData) : CItemData :=
  let cur := m_entrytype r in
  let r1 :=
    if bool_decide (cur = ET_NORMAL) || bool_decide (cur = ET_ALIASBASE)
       || bool_decide (cur = ET_SHORTCUTBASE) then
      if bool_decide (et = ET_ALIAS) || bool_decide (et = ET_SHORTCUT) then
        let uuid := GetUUID r UUID in
        erase UUID
          (SetUUID uuid (if bool_decide (et = ET_ALIAS) then ALIASUUID
                         else SHORTCUTUUID) r)
      else r
    else if bool_decide (et = ET_NORMAL) || bool_decide (cur = ET_ALIASBASE)
            || bool_decide (cur = ET_SHORTCUTBASE) then
      if bool_decide (cur = ET_ALIAS) || bool_decide (cur = ET_SHORTCUT) then
        let slot := if bool_decide (cur = ET_ALIAS) then ALIASUUID
                    else SHORTCUTUUID in
        let uuid := GetUUID r slot in
        erase slot (SetUUID uuid UUID r)
      else r
    else r in
  set_entrytype et r1.

(** ** Effective field values *)

(** The fields an alias takes from its base. *)
Definition base_fields : list FieldType :=
  [PASSWORD; PWHIST; TWOFACTORKEY; TOTPCONFIG; TOTPSTARTTIME; TOTPTIMESTEP;
   TOTPLENGTH].

(** The base entry is passed by pointer: [None] is the null pointer, and
    the result is [None] where the source would dereference it. *)
Definition GetEffectiveFieldValue (r : CItemData) (ft : FieldType)
    (pbci : option CItemData) : option StringX :=
  if IsNormal r || IsBase r then Some (CItem_GetField ft r)
  else if IsAlias r then
    if bool_decide (ft ∈ base_fields) then
      b ← pbci; Some (CItem_GetField ft b)
    else Some (CItem_GetField ft r)
  else if IsShortcut r then
    if bool_decide (ft = GROUP) || bool_decide (ft = TITLE)
       || bool_decide (ft = USER) then Some (CItem_GetField ft r)
    else b ← pbci; Some (CItem_GetField ft b)
  else Some [].

(** ** The legacy placeholder password *)

(** Modelled from the spec: the password accessors, inline in a header
    that is not among the sources. *)
Definition GetPassword (r : CItemData) : StringX := CItem_GetField PASSWORD r.
Definition SetPassword (password : StringX) (r : CItemData) : CItemData :=
  CItem_SetField PASSWORD password r.

Definition substr (s : StringX) (pos n : nat) : StringX := take n (drop pos s).
Definition substr_from (s : StringX) (pos : nat) : StringX := drop pos s.

Definition is_upper (c : ascii) : bool := (65 <=? ord c) && (ord c <=? 90).

(** Modelled from the spec: [ToLower] (StringX.cpp is not among the
    sources), which folds the letters A-Z to lower case and leaves every
    other code unit as it is. *)
Definition ToLower (s : StringX) : StringX :=
  map (fun c => if is_upper c then chr (Z.to_N (ord c + 32)) else c) s.

(** [s.find_first_not_of(chars) == StringX::npos] *)
Definition only_chars_of (chars s : StringX) : bool :=
  forallb (fun c => bool_decide (c ∈ chars)) s.

(** The digits the source tests the payload against. *)
Definition hex_digits : StringX := _T "0123456789abcdef".

Definition hex_digit (n : Z) : ascii :=
  nth (Z.to_nat n) hex_digits zero_byte.

Fixpoint index_of (c : ascii) (l : list ascii) : Z :=
  match l with
  | [] => 0
  | x :: l' => if bool_decide (x = c) then 0 else 1 + index_of c l'
  end.

Definition hex_value (c : ascii) : Z := index_of c hex_digits.

(** Modelled from the spec: the text form of a [CUUID] (the os layer's
    UUID class is not among the sources): the lowercase hex id, two digits a
    byte, and its inverse, the constructor from such a text. *)
Definition CUUID_to_StringX (uuid : list ascii) : StringX :=
  flat_map (fun b => [hex_digit (ord b / 16); hex_digit (ord b mod 16)]) uuid.

Fixpoint CUUID_of_StringX (s : StringX) : list ascii :=
  match s with
  | hi :: lo :: s' =>
      chr (Z.to_N (16 * hex_value hi + hex_value lo)) :: CUUID_of_StringX s'
  | _ => []
  end.

Definition ParseSpecialPasswords (r : CItemData) : CItemData :=
  let csMyPassword := GetPassword r in
  if bool_decide (length csMyPassword = 36%nat) then
    let cs_possibleUUID := ToLower (substr csMyPassword 2 32) in
    if ((bool_decide (substr csMyPassword 0 2 = _T "[[")
         && bool_decide (substr_from csMyPassword (length csMyPassword - 2)
                         = _T "]]"))
        || (bool_decide (substr csMyPassword 0 2 = _T "[~")
            && bool_decide (substr_from csMyPassword (length csMyPassword - 2)
                            = _T "~]")))
       && only_chars_of hex_digits cs_possibleUUID then
      let buuid := CUUID_of_StringX cs_possibleUUID in
      let r1 := SetUUID buuid BASEUUID r in
      let uuid := GetUUID r1 END in
      let ft :=
        if bool_decide (substr csMyPassword 0 2 = _T "[[") then ALIASUUID
        else if bool_decide (substr csMyPassword 0 2 = _T "[~")
             then SHORTCUTUUID
        else UUID in
      SetUUID uuid ft (ClearField UUID r1)
    else r
  else r.

Definition SetSpecialPasswords (r : CItemData) : CItemData :=
  if IsDependent r then
    let base_uuid := GetUUID r BASEUUID in
    let uuid_str :=
      if IsAlias r then _T "[[" ++ CUUID_to_StringX base_uuid ++ _T "]]"
      else if IsShortcut r then
        _T "[~" ++ CUUID_to_StringX base_uuid ++ _T "~]"
      else [] in
    SetPassword uuid_str r
  else r.

(** ** Typed accessors *)

Definition putInt32 (i : Z) : list ascii := le_bytes 4 i.
Definition putInt16 (i : Z) : list ascii := le_bytes 2 i.
Definition getInt32 (data : list ascii) : Z := le_signed 4 data.
Definition getInt16 (data : list ascii) : Z := le_signed 2 data.

Definition GetXTimeInt (r : CItemData) : Z :=
  match m_fields r !! XTIME_INT with
  | Some ((_ :: _) as v) => getInt32 v
  | _ => 0
  end.

Definition GetKBShortcut (r : CItemData) : Z :=
  match m_fields r !! KBSHORTCUT with
  | Some ((_ :: _) as v) => getInt32 v
  | _ => 0
  end.

Definition GetDCA (r : CItemData) (bShift : bool) : Z :=
  match m_fields r !! (if bShift then SHIFTDCA else DCA) with
  | Some ((_ :: _) as v) => getInt16 v
  | _ => -1
  end.

Definition SetXTimeInt (xint : Z) (r : CItemData) : CItemData :=
  CItem_SetField XTIME_INT (putInt32 xint) r.

Definition SetKBShortcut (iKBShortcut : Z) (r : CItemData) : CItemData :=
  CItem_SetField KBSHORTCUT (putInt32 iKBShortcut) r.

Definition SetDCA (iDCA : Z) (bShift : bool) (r : CItemData) : CItemData :=
  CItem_SetField (if bShift then SHIFTDCA else DCA) (putInt16 iDCA) r.

Definition SetProtected (bOnOff : bool) (r : CItemData) : CItemData :=
  if bOnOff then CItem_SetField PROTECTED [chr 1] r else erase PROTECTED r.

Definition pull32 (data : list ascii) : option Z :=
  if bool_decide (length data = 4%nat) then Some (getInt32 data) else None.

Definition pull16 (data : list ascii) : option Z :=
  if bool_decide (length data = 2%nat) then Some (getInt16 data) else None.

Definition pull8 (data : list ascii) : option ascii :=
  match data with
  | [c] => Some c
  | _ => None
  end.

(** ** The tagged-chunk stream *)

(** Modelled from the spec: the reader/writer collaborator
    ([PWSfile], [PWSfileV4]; their sources are not among those read here):
    [ReadField() -> (tag, bytes) | EndOfInput] and
    [WriteField(tag, bytes) -> bytesWritten], over a sequence of chunks
    [(tag: 1 byte, length: 4 bytes, value: length bytes)]. *)
Abbreviation chunk := (FieldType * list ascii)%type.

(** Modelled from the spec: a file is the width of its times and the
    chunks written so far, or still to be read. *)
Record PWSfile : Type := mkFile {
  timeFieldLen : nat;
  fields : list chunk
}.

(** Modelled from the spec: the bytes a chunk takes, tag and length
    included. *)
Definition chunk_size (c : chunk) : Z := 5 + Z.of_nat (length (snd c)).

(** Modelled from the spec: [WriteField] appends a chunk and answers the
    bytes written. *)
Definition WriteField (type : FieldType) (data : list ascii) (out : PWSfile)
    : PWSfile * Z :=
  (mkFile (timeFieldLen out) (fields out ++ [(type, data)]),
   chunk_size (type, data)).

(** Modelled from the spec: [ReadField] hands out the next chunk and the
    bytes read, zero at the end of input. *)
Definition ReadField (inp : PWSfile)
    : option (FieldType * list ascii) * PWSfile * Z :=
  match fields inp with
  | [] => (None, inp, 0)
  | c :: rest => (Some c, mkFile (timeFieldLen inp) rest, chunk_size c)
  end.

(** Modelled from the spec: the status codes [Read] and [Write] use. *)
Inductive PWSfile_status : Set := SUCCESS | FAILURE | END_OF_FILE.

(** What [Read] hands back: one of the file status codes, or the negated
    count of bytes consumed when an attachment tag asks for a rewind. The
    count is a [signed long]; the value returned is its negation cast to
    [int], that is, reduced to 32 bits. *)
Inductive ReadResult : Set :=
  | Status (s : PWSfile_status)
  | Rewind (negated_numread : Z).

(** Modelled from the spec: which tags belong to an entry record and which
    to an attachment record (the predicates are declared in a header that
    is not among the sources): every tag the registry names for entries is
    an item-data tag; attachment tags are a class of their own; [END] and
    the unnamed bytes are neither. *)
Definition IsItemDataField (type : FieldType) : bool :=
  match type with
  | END | ENTRYSIZE | PASSWORDLEN | UNKNOWNFIELDS | ATT_FIELD _ | OTHER _ =>
      false
  | _ => true
  end.

(** Modelled from the spec: the tags of attachment records. *)
Definition IsItemAttField (type : FieldType) : bool :=
  match type with
  | ATT_FIELD _ => true
  | _ => false
  end.

Section Serializer.

(** Constants of headers that are not among the sources:
    [PWStime::TIME_LEN] and the bounds of the double-click action
    enumeration, [PWSprefs::minDCA] and [PWSprefs::maxDCA]. *)
Variable TIME_LEN : nat.
Variables minDCA maxDCA : Z.

(** Modelled from the spec: [PWSUtil::pull_time] and [CItem::SetTimeField]
    (not among the sources): a time on file is a little-endian count of
    seconds in one of the widths a format generation uses, or the native
    one; any other width is a malformed chunk. *)
Definition pull_time (data : list ascii) : option Z :=
  if bool_decide (length data = 4%nat) || bool_decide (length data = TIME_LEN)
     || bool_decide (length data = 8%nat)
  then Some (le_unsigned data) else None.

Definition SetTimeField (ft : FieldType) (data : list ascii) (r : CItemData)
    : option CItemData :=
  t ← pull_time data; Some (CItem_SetTime ft t r).

(** Modelled from the spec: [CItem::SetTextField] (not among the sources)
    converts the text on file to the in-memory text and stores it. *)
Definition SetTextField (ft : FieldType) (data : list ascii) (r : CItemData)
    : option CItemData :=
  Some (CItem_SetField ft data r).

(** [SetField]: [None] is the source's [false]. The keyboard shortcut is
    pulled with [sizeof(int32)] in place of the chunk length, so its length
    is never checked. *)
Definition SetField (ft : FieldType) (data : list ascii) (r : CItemData)
    : option CItemData :=
  match ft with
  | NAME => None
  | UUID | BASEUUID | ALIASUUID | SHORTCUTUUID | ATTREF =>
      if bool_decide (length data < 16)%nat then None
      else Some (SetUUID (take 16 data) ft r)
  | GROUP | TITLE | USER | NOTES | PASSWORD | TWOFACTORKEY | POLICY | URL
  | AUTOTYPE | PWHIST | RUNCMD | EMAIL | SYMBOLS | POLICYNAME
  | DATA_ATT_TITLE | DATA_ATT_MEDIATYPE | DATA_ATT_FILENAME
  | PASSKEY_RP_ID =>
      SetTextField ft data r
  | TOTPCONFIG | TOTPTIMESTEP | TOTPLENGTH | DATA_ATT_CONTENT
  | PASSKEY_CRED_ID | PASSKEY_USER_HANDLE | PASSKEY_ALGO_ID
  | PASSKEY_PRIVATE_KEY | PASSKEY_SIGN_COUNT =>
      Some (CItem_SetField ft data r)
  | CTIME | PMTIME | ATIME | XTIME | RMTIME | TOTPSTARTTIME
  | DATA_ATT_MTIME =>
      SetTimeField ft data r
  | XTIME_INT => i32 ← pull32 data; Some (SetXTimeInt i32 r)
  | DCA => i16 ← pull16 data; Some (SetDCA i16 false r)
  | SHIFTDCA => i16 ← pull16 data; Some (SetDCA i16 true r)
  | PROTECTED =>
      uc ← pull8 data; Some (SetProtected (negb (bool_decide (uc = zero_byte))) r)
  | KBSHORTCUT => Some (SetKBShortcut (getInt32 data) r)
  | END => Some r
  | _ => Some (SetUnknownField ft data r)
  end.

(** *** Read *)

(** What [Read] does after the loop: with bytes read, the placeholder
    password is parsed and the kind is taken from the id slot that is set;
    with none, the end of the file is reported. *)
Definition finish_Read (status : PWSfile_status) (numread : Z)
    (r : CItemData) : ReadResult * CItemData :=
  if 0 <? numread then
    let r1 := ParseSpecialPasswords r in
    let r2 :=
      if IsFieldSet UUID r1 then set_entrytype ET_NORMAL r1
      else if IsFieldSet ALIASUUID r1 then set_entrytype ET_ALIAS r1
      else if IsFieldSet SHORTCUTUUID r1 then set_entrytype ET_SHORTCUT r1
      else r1 in
    (Status status, r2)
  else (Status END_OF_FILE, r).

(** The [do ... while] loop of [Read]. [emergencyExit] is the number of
    iterations still allowed: the source starts the counter at 255 and runs
    the body again only while the decremented counter is positive. The
    result is the status, or the rewind request, with the record and the
    rest of the stream. *)
Fixpoint Read_loop (emergencyExit : nat) (inp : PWSfile) (r : CItemData)
    (numread : Z) : ReadResult * CItemData * PWSfile :=
  match emergencyExit with
  | O => (finish_Read SUCCESS numread r, inp)
  | S emergencyExit' =>
      match ReadField inp with
      | (None, inp', _) => (finish_Read SUCCESS numread r, inp')
      | (Some (type, data), inp', fieldLen) =>
          let numread' := numread + fieldLen in
          if IsItemDataField type then
            match SetField type data r with
            | None => (finish_Read FAILURE numread' r, inp')
            | Some r' =>
                if bool_decide (type = END)
                then (finish_Read SUCCESS numread' r', inp')
                else Read_loop emergencyExit' inp' r' numread'
            end
          else if IsItemAttField type then
            (Rewind (wrap_signed 4 (- numread')), r, inp')
          else if bool_decide (type = END) then
            (finish_Read SUCCESS numread' r, inp')
          else
            Read_loop emergencyExit' inp' (SetUnknownField type data r)
                      numread'
      end
  end.

Definition Read (inp : PWSfile) (r : CItemData)
    : ReadResult * CItemData * PWSfile :=
  Read_loop 255 inp (CItemData_Clear r) 0.

(** *** Write *)

(** [BR1150, BR1167]: a terminating NUL of a text field is not written. *)
Definition discard_terminating_NUL (dst : list ascii) : list ascii :=
  match last dst with
  | Some c => if bool_decide (c = zero_byte) then removelast dst else dst
  | None => dst
  end.

Definition WriteIfSet (ft : FieldType) (isUTF8 : bool) (r : CItemData)
    (out : PWSfile) : PWSfile :=
  match m_fields r !! ft with
  | Some field =>
      fst (WriteField ft
             (if isUTF8 then discard_terminating_NUL field else field) out)
  | None => out
  end.

Definition TextFields : list FieldType :=
  [GROUP; TITLE; USER; PASSWORD; TWOFACTORKEY; NOTES; URL; AUTOTYPE; POLICY;
   PWHIST; RUNCMD; EMAIL; SYMBOLS; POLICYNAME;
   DATA_ATT_TITLE; DATA_ATT_MEDIATYPE; DATA_ATT_FILENAME; PASSKEY_RP_ID].

Definition TimeFields : list FieldType :=
  [ATIME; CTIME; XTIME; PMTIME; RMTIME; TOTPSTARTTIME; DATA_ATT_MTIME].

Definition BinaryFields : list FieldType :=
  [TOTPCONFIG; TOTPTIMESTEP; TOTPLENGTH; DATA_ATT_CONTENT;
   PASSKEY_CRED_ID; PASSKEY_USER_HANDLE; PASSKEY_ALGO_ID;
   PASSKEY_PRIVATE_KEY; PASSKEY_SIGN_COUNT].

Definition WriteTime (ft : FieldType) (r : CItemData) (out : PWSfile)
    : PWSfile :=
  let t := CItem_GetTime ft r in
  if bool_decide (t = 0) then out
  else if bool_decide (timeFieldLen out = 4%nat) then
    fst (WriteField ft (putInt32 t) out)
  else if bool_decide (timeFieldLen out = TIME_LEN) then
    fst (WriteField ft (le_bytes TIME_LEN t) out)
  else out.

Definition WriteBinary (ft : FieldType) (r : CItemData) (out : PWSfile)
    : PWSfile :=
  match m_fields r !! ft with
  | None => out
  | Some field => fst (WriteField ft field out)
  end.

Definition WriteUnknowns (r : CItemData) (out : PWSfile) : PWSfile :=
  foldl (fun o u => fst (WriteField (fst u) (snd u) o)) out (m_URFL r).

Definition WriteCommon (r : CItemData) (out : PWSfile)
    : PWSfile_status * PWSfile :=
  let out := foldl (fun o ft => WriteIfSet ft true r o) out TextFields in
  let out := foldl (fun o ft => WriteTime ft r o) out TimeFields in
  let i32 := GetXTimeInt r in
  let out := if (0 <? i32) && (i32 <=? 3650)
             then fst (WriteField XTIME_INT (putInt32 i32) out) else out in
  let i32 := GetKBShortcut r in
  let out := if negb (i32 =? 0)
             then fst (WriteField KBSHORTCUT (putInt32 i32) out) else out in
  let i16 := GetDCA r false in
  let out := if (minDCA <=? i16) && (i16 <=? maxDCA)
             then fst (WriteField DCA (putInt16 i16) out) else out in
  let i16 := GetDCA r true in
  let out := if (minDCA <=? i16) && (i16 <=? maxDCA)
             then fst (WriteField SHIFTDCA (putInt16 i16) out) else out in
  let out := WriteIfSet PROTECTED false r out in
  let out := foldl (fun o ft => WriteBinary ft r o) out BinaryFields in
  let out := WriteUnknowns r out in
  let '(out, n) := WriteField END [] out in
  (if 0 <? n then SUCCESS else FAILURE, out).

Definition id_slot (r : CItemData) : FieldType :=
  if negb (IsDependent r) then UUID
  else if IsAlias r then ALIASUUID
  else if IsShortcut r then SHORTCUTUUID
  else END.

(** The legacy writer. The record is handed back as well: the source
    casts constness away, overwrites the password and restores it. *)
Definition Write_V3 (r : CItemData) (out : PWSfile)
    : PWSfile_status * PWSfile * CItemData :=
  let item_uuid := GetUUID r (id_slot r) in
  let out := fst (WriteField UUID item_uuid out) in
  let saved_password := GetPassword r in
  let self := SetSpecialPasswords r in
  let '(status, out) := WriteCommon self out in
  (status, out, SetPassword saved_password self).

Definition Write_V4 (r : CItemData) (out : PWSfile)
    : PWSfile_status * PWSfile :=
  let ft := id_slot r in
  let item_uuid := GetUUID r ft in
  let out := fst (WriteField ft item_uuid out) in
  let out := if IsDependent r
             then fst (WriteField BASEUUID (GetUUID r BASEUUID) out)
             else out in
  let out := if IsFieldSet ATTREF r
             then fst (WriteField ATTREF (GetUUID r ATTREF) out)
             else out in
  WriteCommon r out.

End Serializer.

(** ** Password history *)

Definition GetPWHistory (r : CItemData) : StringX :=
  let ret := CItem_GetField PWHIST r in
  if bool_decide (ret = _T "0") || bool_decide (ret = _T "00000") then []
  else ret.

Definition SetPWHistory (PWHistory : StringX) (r : CItemData) : CItemData :=
  let pwh :=
    if bool_decide (PWHistory = _T "0") || bool_decide (PWHistory = _T "00000")
    then [] else PWHistory in
  CItem_SetField PWHIST pwh r.

(** Modelled from the spec: the accessors of single fields, inline in a
    header that is not among the sources. *)
Definition GetPMTime (r : CItemData) : Z := CItem_GetTime PMTIME r.
Definition GetCTime (r : CItemData) : Z := CItem_GetTime CTIME r.
Definition GetXTime (r : CItemData) : Z := CItem_GetTime XTIME r.
Definition SetPMTime (t : Z) (r : CItemData) : CItemData :=
  CItem_SetTime PMTIME t r.
Definition SetXTime (t : Z) (r : CItemData) : CItemData :=
  CItem_SetTime XTIME t r.
Definition SetTitle (title : StringX) (r : CItemData) : CItemData :=
  CItem_SetField TITLE title r.
Definition GetTitle (r : CItemData) : StringX := CItem_GetField TITLE r.

(** Modelled from the spec: the preference collaborator, passed as a
    value: the defaults for history saving and for the history cap. *)
Record PWSprefs : Type := mkPrefs {
  SavePasswordHistory : bool;
  NumPWHistoryDefault : nat
}.

(** Modelled from the spec: a history entry, the previous password with
    the time it carries and the text of that time. *)
Record PWHistEntry : Type := mkEntry {
  changetttdate : Z;
  changedate : StringX;
  password : StringX
}.

(** Modelled from the spec: the history list with its two flags. *)
Record PWHistList : Type := mkHist {
  isSaving : bool;
  getMax : nat;
  entries : list PWHistEntry
}.

(** Modelled from the spec: fixed-width hexadecimal, most significant
    digit first, as the history text uses it. *)
Fixpoint hex_fixed (w : nat) (z : Z) : StringX :=
  match w with
  | O => []
  | S w' => hex_fixed w' (z / 16) ++ [hex_digit (z mod 16)]
  end.

(** Modelled from the spec: the number a hexadecimal text denotes. *)
Definition hex_number (s : StringX) : Z :=
  foldl (fun acc c => 16 * acc + hex_value c) 0 s.

Section History.

(** The date formatter of the utility layer and the localized "unknown"
    string, neither of which is among the sources. *)
Variable ConvertToDateTimeString : Z -> StringX.
Variable IDSC_UNKNOWN : StringX.

(** The text of a time, or the "unknown" string when the formatter gives
    none. *)
Definition display_date (t : Z) : StringX :=
  let d := ConvertToDateTimeString t in
  match d with
  | [] => IDSC_UNKNOWN
  | _ :: _ => d
  end.

(** Modelled from the spec: the history list ([PWHistList], PWHistory.cpp
    is not among the sources). Its text is a compact line: enabled flag,
    maximum and current count as fixed-width hex (1, 2 and 2 digits), then
    for each entry a change-date token (8 hex digits of the time), a
    4-hex-digit password length and the raw password. Adding appends;
    formatting evicts the oldest entries beyond the maximum. *)
Fixpoint parse_entries (n : nat) (s : StringX) : list PWHistEntry :=
  match n with
  | O => []
  | S n' =>
      let t := hex_number (take 8 s) in
      let len := Z.to_nat (hex_number (take 4 (drop 8 s))) in
      mkEntry t (display_date t) (take len (drop 12 s))
      :: parse_entries n' (drop len (drop 12 s))
  end.

(** Modelled from the spec: the constructor of the history list from its
    text; a text shorter than the header is an empty list. *)
Definition PWHistList_parse (pwh_str : StringX) : PWHistList :=
  if bool_decide (length pwh_str < 5)%nat then mkHist false 0 []
  else
    mkHist (negb (hex_number (take 1 pwh_str) =? 0))
           (Z.to_nat (hex_number (take 2 (drop 1 pwh_str))))
           (parse_entries (Z.to_nat (hex_number (take 2 (drop 3 pwh_str))))
                          (drop 5 pwh_str)).

(** Modelled from the spec: the setters of the two flags, and the append. *)
Definition setSaving (b : bool) (h : PWHistList) : PWHistList :=
  mkHist b (getMax h) (entries h).
Definition setMax (n : nat) (h : PWHistList) : PWHistList :=
  mkHist (isSaving h) n (entries h).
Definition addEntry (e : PWHistEntry) (h : PWHistList) : PWHistList :=
  mkHist (isSaving h) (getMax h) (entries h ++ [e]).

(** Modelled from the spec: eviction, oldest first: the entries kept are
    the last [getMax] ones. *)
Definition evict (h : PWHistList) : list PWHistEntry :=
  drop (length (entries h) - getMax h) (entries h).

(** Modelled from the spec: the text of one entry. *)
Definition format_entry (e : PWHistEntry) : StringX :=
  hex_fixed 8 (changetttdate e) ++ hex_fixed 4 (Z.of_nat (length (password e)))
  ++ password e.

(** Modelled from the spec: the header of the history text. *)
Definition MakePWHistoryHeader (status : bool) (pwh_max pwh_num : nat)
    : StringX :=
  hex_fixed 1 (if status then 1 else 0) ++ hex_fixed 2 (Z.of_nat pwh_max)
  ++ hex_fixed 2 (Z.of_nat pwh_num).

(** Modelled from the spec: the conversion of the list to its text, which
    removes the excess first. *)
Definition PWHistList_to_StringX (h : PWHistList) : StringX :=
  let kept := evict h in
  MakePWHistoryHeader (isSaving h) (getMax h) (length kept)
  ++ concat (map format_entry kept).

Definition UpdatePasswordHistory (prefs : PWSprefs) (r : CItemData)
    : CItemData :=
  let pwh_str := GetPWHistory r in
  let pwhistlist := PWHistList_parse pwh_str in
  let pwhistlist :=
    match pwh_str with
    | [] => setMax (NumPWHistoryDefault prefs)
              (setSaving (SavePasswordHistory prefs) pwhistlist)
    | _ :: _ => pwhistlist
    end in
  if negb (isSaving pwhistlist) then r
  else
    let t := GetPMTime r in
    let t := if bool_decide (t = 0) then GetCTime r else t in
    let pwh_ent := mkEntry t (display_date t) (GetPassword r) in
    let pwhistlist := addEntry pwh_ent pwhistlist in
    SetPWHistory (PWHistList_to_StringX pwhistlist) r.

(** [now] is what [time(&t)] returns. The interval is an [int32] and the
    product [xint * 86400] is computed in [int]: it is reduced to 32 bits
    before it is added to the 64-bit time. *)
Definition UpdatePassword (prefs : PWSprefs) (now : Z) (password : StringX)
    (r : CItemData) : CItemData :=
  let r := UpdatePasswordHistory prefs r in
  let r := SetPassword password r in
  let t := now in
  let r := SetPMTime t r in
  let xint := GetXTimeInt r in
  if negb (xint =? 0) then SetXTime (t + wrap_signed 4 (xint * 86400)) r
  else SetXTime 0 r.

End History.

(** ** Matching *)

Definition GetPasswordLength (r : CItemData) : Z :=
  Z.of_nat (length (GetPassword r)).

Section Matcher.

(** The comparison module ([PWSMatch]) is not among the sources: its two
    presence rules and its comparison functions are parameters, and so are
    the store's size computation and the C library's local midnight. *)
Variables MR_PRESENT MR_NOTPRESENT : Z.
Variable Match_bool : bool -> Z -> bool.
Variable Match_int : Z -> Z -> Z -> Z -> bool.
Variable Match_time : Z -> Z -> Z -> Z -> bool.
Variable GetSize : CItemData -> Z.
Variable local_midnight : Z -> Z.

(** The value the numeric matcher selects; [None] is the [default:] arm. *)
Definition numeric_object (iObject : FieldType) (r : CItemData) : option Z :=
  match iObject with
  | XTIME_INT => Some (GetXTimeInt r)
  | ENTRYSIZE => Some (wrap_signed 4 (GetSize r))
  | PASSWORDLEN => Some (wrap_signed 4 (GetPasswordLength r))
  | KBSHORTCUT => Some (GetKBShortcut r)
  | _ => None
  end.

Definition Matches_int (num1 num2 : Z) (iObject : FieldType) (iFunction : Z)
    (r : CItemData) : bool :=
  match numeric_object iObject r with
  | None => false
  | Some iValue =>
      let bValue := negb (iValue =? 0) in
      if (iFunction =? MR_PRESENT) || (iFunction =? MR_NOTPRESENT) then
        Match_bool bValue iFunction
      else if negb bValue then false
      else Match_int num1 num2 iValue iFunction
  end.

Definition time_object (iObject : FieldType) (r : CItemData) : option Z :=
  match iObject with
  | CTIME | PMTIME | ATIME | XTIME | RMTIME => Some (CItem_GetTime iObject r)
  | _ => None
  end.

Definition MatchesTime (time1 time2 : Z) (iObject : FieldType)
    (iFunction : Z) (r : CItemData) : bool :=
  match time_object iObject r with
  | None => false
  | Some tValue =>
      let bValue := negb (tValue =? 0) in
      if (iFunction =? MR_PRESENT) || (iFunction =? MR_NOTPRESENT) then
        Match_bool bValue iFunction
      else if negb bValue then false
      else
        let testtime := if negb (tValue =? 0) then local_midnight tValue
                        else 0 in
        Match_time time1 time2 testtime iFunction
  end.

End Matcher.

(** * Vocabulary of the properties *)

(** Sample records, the chunk-level view of the reader and of the writers,
    and the conditions the statements below are made of. *)

Definition empty_item : CItemData := mkItem ∅ [] ET_NORMAL ES_CLEAN.

Definition sample_uuid (n : N) : list ascii := repeat (chr n) 16.

(** A normal entry with an id, a title and a password. *)
Definition bank_item : CItemData :=
  SetPassword (_T "p1")
    (SetTitle (_T "Bank") (SetUUID (sample_uuid 7) UUID empty_item)).

(** An alias of [bank_item]: its own id in the alias slot, the base id in
    the base slot. *)
Definition alias_item : CItemData :=
  SetUUID (sample_uuid 7) BASEUUID
    (SetTitle (_T "Alias of bank")
       (SetUUID (sample_uuid 9) ALIASUUID
          (mkItem ∅ [] ET_ALIAS ES_CLEAN))).

(** What one iteration of the loop of [Read] does with a chunk when the
    loop goes on after it; [None] when the chunk ends the loop (terminator,
    attachment tag, or a field that cannot be set). *)
Definition accept (TIME_LEN : nat) (c : chunk) (r : CItemData)
    : option CItemData :=
  if bool_decide (c.1 = END) then None
  else if IsItemDataField c.1 then SetField TIME_LEN c.1 c.2 r
  else if IsItemAttField c.1 then None
  else Some (SetUnknownField c.1 c.2 r).

Fixpoint load (TIME_LEN : nat) (cs : list chunk) (r : CItemData)
    : option CItemData :=
  match cs with
  | [] => Some r
  | c :: cs' => r' ← accept TIME_LEN c r; load TIME_LEN cs' r'
  end.

Definition stream_size (cs : list chunk) : Z :=
  foldr (fun c n => chunk_size c + n) 0 cs.

(** A stream with 256 chunks before the terminator: the id and 255
    chunks of an unregistered tag. *)
Definition long_stream : list chunk :=
  (UUID, sample_uuid 7) :: repeat (OTHER 223, _T "x") 255 ++ [(END, [])].

Definition is_lower_hex_digit (c : ascii) : Prop := c ∈ hex_digits.

Definition is_hex_digit (c : ascii) : Prop :=
  c ∈ _T "0123456789abcdefABCDEF".

Definition lower (c : ascii) : ascii :=
  if is_upper c then chr (Z.to_N (ord c + 32)) else c.

(** The byte two hex digits name. *)
Definition hex_pair_byte (hi lo : ascii) : ascii :=
  chr (Z.to_N (16 * hex_value hi + hex_value lo)).

(** The shape of a placeholder password: 36 characters, a matching pair of
    two-character brackets, and 32 payload characters that satisfy [hex].
    The bracket pair names the slot the entry's own id belongs in. *)
Definition enclosed (pw opening closing : StringX) : Prop :=
  substr pw 0 2 = opening /\ substr_from pw 34 = closing.

Definition placeholder_shape (hex : ascii -> Prop) (pw : StringX)
    (slot : FieldType) : Prop :=
  length pw = 36%nat
  /\ Forall hex (substr pw 2 32)
  /\ ((enclosed pw (_T "[[") (_T "]]") /\ slot = ALIASUUID)
      \/ (enclosed pw (_T "[~") (_T "~]") /\ slot = SHORTCUTUUID)).

(** A normal entry whose password is a bracketed payload of capital hex
    digits. *)
Definition capital_hex_item : CItemData :=
  SetPassword (_T "[[0123456789ABCDEF0123456789ABCDEF]]") bank_item.

(** No stored value is empty: the invariant of [CItem]'s store, kept by
    every operation that goes through [CItem_SetField]. *)
Definition wf_store (r : CItemData) : Prop :=
  map_Forall (fun _ v => v <> []) (m_fields r).

(** The chunks of the common part, field class by field class, as a
    function of the record and of the width of a time on file. *)
Definition text_chunk (r : CItemData) (ft : FieldType) : option chunk :=
  (fun v => (ft, discard_terminating_NUL v)) <$> m_fields r !! ft.

Definition raw_chunk (r : CItemData) (ft : FieldType) : option chunk :=
  (fun v => (ft, v)) <$> m_fields r !! ft.

Definition time_chunk (TIME_LEN tfl : nat) (r : CItemData) (ft : FieldType)
    : option chunk :=
  let t := CItem_GetTime ft r in
  if bool_decide (t = 0) then None
  else if bool_decide (tfl = 4%nat) then Some (ft, putInt32 t)
  else if bool_decide (tfl = TIME_LEN) then Some (ft, le_bytes TIME_LEN t)
  else None.

Definition chunk_if (b : bool) (c : chunk) : list chunk :=
  if b then [c] else [].

Definition known_chunks (TIME_LEN : nat) (minDCA maxDCA : Z) (tfl : nat)
    (r : CItemData) : list chunk :=
  omap (text_chunk r) TextFields
  ++ omap (time_chunk TIME_LEN tfl r) TimeFields
  ++ chunk_if ((0 <? GetXTimeInt r) && (GetXTimeInt r <=? 3650))
       (XTIME_INT, putInt32 (GetXTimeInt r))
  ++ chunk_if (negb (GetKBShortcut r =? 0))
       (KBSHORTCUT, putInt32 (GetKBShortcut r))
  ++ chunk_if ((minDCA <=? GetDCA r false) && (GetDCA r false <=? maxDCA))
       (DCA, putInt16 (GetDCA r false))
  ++ chunk_if ((minDCA <=? GetDCA r true) && (GetDCA r true <=? maxDCA))
       (SHIFTDCA, putInt16 (GetDCA r true))
  ++ omap (raw_chunk r) [PROTECTED]
  ++ omap (raw_chunk r) BinaryFields.

Definition emit (cs : list chunk) (out : PWSfile) : PWSfile :=
  mkFile (timeFieldLen out) (fields out ++ cs).

(** The tags [SetField] has a case of its own for; every other tag falls
    to its [default:] arm. *)
Definition recognised (type : FieldType) : bool :=
  match type with
  | NAME | UUID | BASEUUID | ALIASUUID | SHORTCUTUUID | ATTREF
  | GROUP | TITLE | USER | NOTES | PASSWORD | TWOFACTORKEY | POLICY | URL
  | AUTOTYPE | PWHIST | RUNCMD | EMAIL | SYMBOLS | POLICYNAME
  | DATA_ATT_TITLE | DATA_ATT_MEDIATYPE | DATA_ATT_FILENAME | PASSKEY_RP_ID
  | TOTPCONFIG | TOTPTIMESTEP | TOTPLENGTH | DATA_ATT_CONTENT
  | PASSKEY_CRED_ID | PASSKEY_USER_HANDLE | PASSKEY_ALGO_ID
  | PASSKEY_PRIVATE_KEY | PASSKEY_SIGN_COUNT
  | CTIME | PMTIME | ATIME | XTIME | RMTIME | TOTPSTARTTIME | DATA_ATT_MTIME
  | XTIME_INT | DCA | SHIFTDCA | PROTECTED | KBSHORTCUT | END => true
  | _ => false
  end.

(** A change made to a record between reading and writing it, through the
    two primitives every setter of the record is made of. *)
Inductive edit : Type :=
  | EditSet (ft : FieldType) (value : list ascii)
  | EditClear (ft : FieldType).

Definition apply_edit (r : CItemData) (e : edit) : CItemData :=
  match e with
  | EditSet ft value => CItem_SetField ft value r
  | EditClear ft => ClearField ft r
  end.

Definition apply_edits (es : list edit) (r : CItemData) : CItemData :=
  foldl apply_edit r es.

Definition link_chunks (r : CItemData) : list chunk :=
  chunk_if (IsDependent r) (BASEUUID, GetUUID r BASEUUID)
  ++ chunk_if (IsFieldSet ATTREF r) (ATTREF, GetUUID r ATTREF).

(** A stream with an unregistered tag between two known fields. *)
Definition stream_with_unknown : list chunk :=
  [(UUID, sample_uuid 7); (TITLE, _T "Bank"); (OTHER 223, _T "future");
   (PASSWORD, _T "p1"); (END, [])].

Section HistoryCodecVocabulary.

Variable ConvertToDateTimeString : Z -> StringX.
Variable IDSC_UNKNOWN : StringX.

(** An entry the text can carry: a time of 32 bits, a password shorter
    than 65536 characters, and the date text derived from the time. *)
Definition entry_ok (e : PWHistEntry) : Prop :=
  0 <= changetttdate e < 2 ^ 32
  /\ Z.of_nat (length (password e)) < 65536
  /\ changedate e
     = display_date ConvertToDateTimeString IDSC_UNKNOWN (changetttdate e).

Definition history_ok (h : PWHistList) : Prop :=
  (getMax h < 256)%nat /\ Forall entry_ok (entries h).

End HistoryCodecVocabulary.

(** The history [UpdatePasswordHistory] works on: the one the record
    carries, or, when the record carries none, an empty one with the
    preference values. *)
Definition consulted_history (ConvertToDateTimeString : Z -> StringX)
    (IDSC_UNKNOWN : StringX) (prefs : PWSprefs) (r : CItemData) : PWHistList :=
  match GetPWHistory r with
  | [] => mkHist (SavePasswordHistory prefs) (NumPWHistoryDefault prefs) []
  | _ :: _ =>
      PWHistList_parse ConvertToDateTimeString IDSC_UNKNOWN (GetPWHistory r)
  end.

(** The time [UpdatePasswordHistory] stamps the old password with: when
    that password was set, or else when the entry was created. *)
Definition old_password_time (r : CItemData) : Z :=
  if bool_decide (GetPMTime r = 0) then GetCTime r else GetPMTime r.

(** The log as pairs of previous password and time, oldest first. *)
Definition history_log (ConvertToDateTimeString : Z -> StringX)
    (IDSC_UNKNOWN : StringX) (r : CItemData) : list (StringX * Z) :=
  map (fun e => (password e, changetttdate e))
      (entries (PWHistList_parse ConvertToDateTimeString IDSC_UNKNOWN
                  (GetPWHistory r))).

(** The scenario: the entry "Bank" with password "p1" and no times, history
    saving on by preference with room for three entries, updated to "p2"
    at time 1700000000. *)
Definition scenario_prefs : PWSprefs := mkPrefs true 3.

Definition scenario_time : Z := 1700000000.

Definition scenario_after : CItemData :=
  UpdatePassword (fun _ => []) (_T "Unknown") scenario_prefs scenario_time
    (_T "p2") bank_item.

(** A chunk [c] restores the value [v] of its field: whatever the record,
    the loop of [Read] accepts it and stores [v] under the chunk's tag. *)
Definition restores (TIME_LEN : nat) (c : chunk) (v : list ascii) : Prop :=
  v <> [] /\ forall r, accept TIME_LEN c r = Some (CItem_SetField c.1 v r).

Definition small_int_fields : list FieldType :=
  [XTIME_INT; KBSHORTCUT; DCA; SHIFTDCA; PROTECTED].

Definition known_keys : list FieldType :=
  TextFields ++ TimeFields ++ small_int_fields ++ BinaryFields.

Definition id_keys : list FieldType :=
  [UUID; ALIASUUID; SHORTCUTUUID; BASEUUID; ATTREF].

Section KnownFieldsVocabulary.

Variable TIME_LEN : nat.
Variables minDCA maxDCA : Z.

(** The stored form of the fields the common part writes, for a file whose
    times are [tfl] bytes wide: every field passes the presence filter of
    its class and holds the very bytes that reading its chunk stores. *)
Record persistable (tfl : nat) (r : CItemData) : Prop := mk_persistable {
  p_text : forall ft v, ft ∈ TextFields -> m_fields r !! ft = Some v ->
      v <> [] /\ last v <> Some zero_byte;
  p_time : forall ft v, ft ∈ TimeFields -> m_fields r !! ft = Some v ->
      exists t, v = le_bytes 8 t /\ 0 < t < 2 ^ (8 * Z.of_nat tfl)
                /\ t < 2 ^ 63;
  p_xint : forall v, m_fields r !! XTIME_INT = Some v ->
      length v = 4%nat /\ 0 < getInt32 v <= 3650;
  p_kbs : forall v, m_fields r !! KBSHORTCUT = Some v ->
      length v = 4%nat /\ getInt32 v <> 0;
  p_dca : forall ft v, ft = DCA \/ ft = SHIFTDCA -> m_fields r !! ft = Some v ->
      length v = 2%nat /\ minDCA <= getInt16 v <= maxDCA;
  p_prot : forall v, m_fields r !! PROTECTED = Some v -> v = [chr 1];
  p_bin : forall ft v, ft ∈ BinaryFields -> m_fields r !! ft = Some v ->
      v <> [];
  p_dom : forall ft, is_Some (m_fields r !! ft) -> ft ∈ id_keys ++ known_keys;
  p_urfl : m_URFL r = []
}.

(** What a chunk of the common part must do to be read back. *)
Definition reads_back (r : CItemData) (c : chunk) : Prop :=
  c.1 ∈ known_keys
  /\ exists v, m_fields r !! c.1 = Some v /\ restores TIME_LEN c v.

End KnownFieldsVocabulary.

Definition unset (r : CItemData) (ft : FieldType) : Prop :=
  m_fields r !! ft = None.

Definition holds_id (r : CItemData) (ft : FieldType) : Prop :=
  exists id, m_fields r !! ft = Some id /\ length id = 16%nat.

(** The kind is one that is persisted, the entry's id is in the slot of
    its kind and in no other, and the base id is there exactly for the
    dependent kinds. *)
Definition linked (r : CItemData) : Prop :=
  match m_entrytype r with
  | ET_NORMAL =>
      holds_id r UUID /\ unset r ALIASUUID /\ unset r SHORTCUTUUID
      /\ unset r BASEUUID
  | ET_ALIAS =>
      holds_id r ALIASUUID /\ holds_id r BASEUUID /\ unset r UUID
      /\ unset r SHORTCUTUUID
  | ET_SHORTCUT =>
      holds_id r SHORTCUTUUID /\ holds_id r BASEUUID /\ unset r UUID
      /\ unset r ALIASUUID
  | ET_ALIASBASE | ET_SHORTCUTBASE => False
  end.

Definition no_placeholder (r : CItemData) : Prop :=
  forall slot, ~ placeholder_shape is_hex_digit (GetPassword r) slot.

(** [Read] starts from a cleared record: the status read back is clean. *)
Definition reset_status (r : CItemData) : CItemData :=
  mkItem (m_fields r) (m_URFL r) (m_entrytype r) ES_CLEAN.

(** The placeholder text of a base id, as [SetSpecialPasswords] builds it. *)
Definition placeholder_text (alias : bool) (b : list ascii) : StringX :=
  (if alias then _T "[[" else _T "[~") ++ CUUID_to_StringX b
  ++ (if alias then _T "]]" else _T "~]").

Inductive Format : Set := V3 | V4.

Section FormatGenerationsVocabulary.

Variable TIME_LEN : nat.
Variables minDCA maxDCA : Z.

(** The width of a time on file. *)
Definition time_width (fmt : Format) : nat :=
  match fmt with
  | V3 => 4%nat
  | V4 => TIME_LEN
  end.

(** Writing a record to an empty file of a format generation. *)
Definition Write (fmt : Format) (r : CItemData) : PWSfile :=
  match fmt with
  | V3 => (Write_V3 TIME_LEN minDCA maxDCA r (mkFile 4 [])).1.2
  | V4 => (Write_V4 TIME_LEN minDCA maxDCA r (mkFile TIME_LEN [])).2
  end.

(** The record a format generation carries: the legacy one carries the
    placeholder in place of the password of a dependent entry. *)
Definition carried (fmt : Format) (r : CItemData) : CItemData :=
  match fmt with
  | V3 => SetSpecialPasswords r
  | V4 => r
  end.

(** The record as a file holds it. The base kinds are not persisted: the
    writers treat a base entry as the normal entry it is apart from its
    kind, and [Read] gives back the kinds it can tell from the id slots. *)
Definition as_persisted (r : CItemData) : CItemData :=
  if IsBase r then set_entrytype ET_NORMAL r else r.

(** The records that survive a write followed by a read: a persisted kind
    with its id slots, every stored field in persistable form and of a
    known tag, no unknown fields, and a password that does not look like a
    placeholder. The legacy format has no attachment reference, and it
    replaces the password of a dependent entry. *)
Definition round_trips (fmt : Format) (r : CItemData) : Prop :=
  linked r
  /\ persistable minDCA maxDCA (time_width fmt) r
  /\ match fmt with
     | V3 => unset r ATTREF /\ (m_entrytype r = ET_NORMAL -> no_placeholder r)
     | V4 => (forall a, m_fields r !! ATTREF = Some a -> length a = 16%nat)
             /\ no_placeholder r
     end.

End FormatGenerationsVocabulary.

(** The condition of [persistable] on one stored field, in a form that can
    be decided. *)
Definition field_ok (minDCA maxDCA : Z) (tfl : nat) (k : FieldType)
    (v : list ascii) : Prop :=
  (k ∈ TextFields -> v <> [] /\ last v <> Some zero_byte)
  /\ (k ∈ TimeFields ->
      length v = 8%nat /\ 0 < le_unsigned v < 2 ^ (8 * Z.of_nat tfl)
      /\ le_unsigned v < 2 ^ 63)
  /\ (k = XTIME_INT -> length v = 4%nat /\ 0 < getInt32 v <= 3650)
  /\ (k = KBSHORTCUT -> length v = 4%nat /\ getInt32 v <> 0)
  /\ (k = DCA \/ k = SHIFTDCA ->
      length v = 2%nat /\ minDCA <= getInt16 v <= maxDCA)
  /\ (k = PROTECTED -> v = [chr 1])
  /\ (k ∈ BinaryFields -> v <> [])
  /\ k ∈ id_keys ++ known_keys.

#[global] Instance field_ok_dec minDCA maxDCA tfl k v :
  Decision (field_ok minDCA maxDCA tfl k v).
Proof. unfold field_ok. apply _. Defined.

(** An entry with fields of every class. *)
Definition full_item : CItemData :=
  CItem_SetField TOTPCONFIG [chr 1]
    (SetProtected true
       (SetDCA 2 false
          (SetKBShortcut 65601
             (SetXTimeInt 30
                (CItem_SetTime CTIME 1600000000
                   (CItem_SetField PWHIST (_T "10301000000000002p0")
                      bank_item)))))).

(** A base entry: [bank_item] once an alias refers to it. *)
Definition base_item : CItemData := set_entrytype ET_ALIASBASE bank_item.

(** An alias that still carries a password of its own. *)
Definition alias_with_password : CItemData :=
  SetPassword (_T "own") alias_item.

(** * Further functions of the record *)

(** The accessors, setters, matchers and the plain-image reader that the
    properties of the last part are about, with the conditions those
    properties are made of. *)

(** ** Expiry *)

Section Expiry.

(** The C library's calendar, which is not part of the sources:
    [mktime_plus_days now numdays] is what [mktime] gives for the local time
    of [now] with [numdays] added to the day of the month, and [None] when
    [localtime_s] reports an error. *)
Variable mktime_plus_days : Z -> Z -> option Z.

(** [now] is what [time(&now)] returns. *)
Definition IsExpired (now : Z) (r : CItemData) : bool :=
  let XTime := GetXTime r in
  negb (XTime =? 0) && (XTime <? now).

Definition WillExpire (now : Z) (numdays : Z) (r : CItemData) : bool :=
  let XTime := GetXTime r in
  if XTime =? 0 then false
  else if XTime <=? now then false
  else
    let exptime := default (-1) (mktime_plus_days now numdays) in
    let exptime := if exptime =? -1 then now else exptime in
    XTime <? exptime.

End Expiry.

(** ** The protected flag and the double-click action *)

(** [GetProtected(ucprotected)]: the stored byte, 0 without the field. *)
Definition GetProtected (r : CItemData) : ascii :=
  match m_fields r !! PROTECTED with
  | Some (c :: _) => c
  | _ => zero_byte
  end.

Definition IsProtected (r : CItemData) : bool :=
  negb (bool_decide (GetProtected r = zero_byte)).

(** [GetProtected()], the flag as text. *)
Definition GetProtected_text (r : CItemData) : StringX :=
  if IsProtected r then _T "1" else [].

Definition IsDCASet (bShift : bool) (r : CItemData) : bool :=
  bool_decide (is_Some (m_fields r !! (if bShift then SHIFTDCA else DCA))).

(** ** Notes and titles on one line *)

Definition CR : TCHAR := chr 13.
Definition LF : TCHAR := chr 10.
Definition CRLF : StringX := [CR; LF].

(** [CleanNotes]: with a delimiter, carriage returns are dropped and line
    feeds become the delimiter. *)
Definition CleanNotes (s : StringX) (delimiter : TCHAR) : StringX :=
  if negb (bool_decide (delimiter = zero_byte)) then
    foldl (fun r2 c =>
             if bool_decide (c = CR) then r2
             else if bool_decide (c = LF) then r2 ++ [delimiter]
             else r2 ++ [c]) [] s
  else s.

Definition GetNotes (delimiter : TCHAR) (r : CItemData) : StringX :=
  CleanNotes (CItem_GetField NOTES r) delimiter.

(** [s.find(c)]: the position of the first [c], [None] for [npos]. *)
Fixpoint StringX_find (c : TCHAR) (s : StringX) : option nat :=
  match s with
  | [] => None
  | x :: s' => if bool_decide (x = c) then Some O else S <$> StringX_find c s'
  end.

(** The [do ... while] loop [SetNotes] and [SetTitle] share: the text up to
    each delimiter is appended to the result with [sep] in its place, and
    the loop ends when no delimiter is left. [fuel] bounds the number of
    iterations; each one shortens the text, so its length plus one is
    enough. The result is the text built and the text left. *)
Fixpoint replace_delimiters (fuel : nat) (delimiter : TCHAR) (sep : StringX)
    (built newstringT : StringX) : StringX * StringX :=
  match fuel with
  | O => (built, newstringT)
  | S fuel' =>
      match StringX_find delimiter newstringT with
      | Some pos =>
          replace_delimiters fuel' delimiter sep
            (built ++ substr newstringT 0 pos ++ sep)
            (substr_from newstringT (pos + 1))
      | None => (built, newstringT)
      end
  end.

Definition SetNotes (notes : StringX) (delimiter : TCHAR) (r : CItemData)
    : CItemData :=
  if bool_decide (delimiter = zero_byte) then CItem_SetField NOTES notes r
  else
    let '(multiline_notes, newstringT) :=
      replace_delimiters (S (length notes)) delimiter CRLF [] notes in
    let multiline_notes :=
      match newstringT with
      | [] => multiline_notes
      | _ :: _ => multiline_notes ++ newstringT
      end in
    CItem_SetField NOTES multiline_notes r.

(** [SetTitle(title, delimiter)]; with the delimiter 0 it is [SetTitle]. *)
Definition SetTitle_delimited (title : StringX) (delimiter : TCHAR)
    (r : CItemData) : CItemData :=
  if bool_decide (delimiter = zero_byte) then CItem_SetField TITLE title r
  else
    let '(new_title, newstringT) :=
      replace_delimiters (S (length title)) delimiter (_T ".") [] title in
    let new_title :=
      match newstringT with
      | [] => new_title
      | _ :: _ => new_title ++ newstringT
      end in
    CItem_SetField TITLE new_title r.

(** Each occurrence of [c] replaced by [sep]. *)
Definition replaced (c : TCHAR) (sep : StringX) (s : StringX) : StringX :=
  flat_map (fun x => if bool_decide (x = c) then sep else [x]) s.

(** A text whose line ends are all CR LF pairs and that holds no [d]. *)
Inductive crlf_text (d : TCHAR) : StringX -> Prop :=
  | crlf_nil : crlf_text d []
  | crlf_char c s :
      c <> d -> c <> CR -> c <> LF -> crlf_text d s -> crlf_text d (c :: s)
  | crlf_break s : crlf_text d s -> crlf_text d (CR :: LF :: s).

(** ** Integer fields given as text *)

Definition decimal_digits : StringX := _T "0123456789".

(** The number a text of decimal digits denotes. *)
Definition decimal_number (s : StringX) : Z :=
  foldl (fun acc c => 10 * acc + index_of c decimal_digits) 0 s.

(** [is >> i] of the standard library for a signed integer of [w] bytes,
    on a non-empty text of decimal digits: the number the digits denote,
    and a failure ([None]) when it does not fit. *)
Definition extract_signed (w : nat) (s : StringX) : option Z :=
  let v := decimal_number s in
  if v <? 2 ^ (8 * Z.of_nat w - 1) then Some v else None.

(** [os << i] of the standard library: the decimal digits of [i], most
    significant first, after a minus sign when [i] is negative. [fuel]
    bounds the number of digits. *)
Fixpoint decimal_digits_of (fuel : nat) (n : Z) (acc : StringX) : StringX :=
  match fuel with
  | O => acc
  | S fuel' =>
      let acc' := nth (Z.to_nat (n mod 10)) decimal_digits zero_byte :: acc in
      if n / 10 =? 0 then acc' else decimal_digits_of fuel' (n / 10) acc'
  end.

Definition decimal_text (i : Z) : StringX :=
  if i <? 0 then "-"%char :: decimal_digits_of 20 (- i) []
  else decimal_digits_of 20 i [].

(** [GetXTimeInt()], the interval as text: empty for 0. *)
Definition GetXTimeInt_text (r : CItemData) : StringX :=
  let xint := GetXTimeInt r in
  if xint =? 0 then [] else decimal_text xint.

(** [GetDCA(bShift)], the action as text. *)
Definition GetDCA_text (bShift : bool) (r : CItemData) : StringX :=
  decimal_text (GetDCA r bShift).

(** [SetXTimeInt(xint_str)]: the result is the source's [bool] and the
    record. *)
Definition SetXTimeInt_text (xint_str : StringX) (r : CItemData)
    : bool * CItemData :=
  match xint_str with
  | [] => (true, SetXTimeInt 0 r)
  | _ :: _ =>
      if only_chars_of decimal_digits xint_str then
        match extract_signed 4 xint_str with
        | None => (false, r)
        | Some xint =>
            if (0 <=? xint) && (xint <=? 3650)
            then (true, SetXTimeInt xint r) else (false, r)
        end
      else (false, r)
  end.

Section TextSetters.

Variable TIME_LEN : nat.
Variables minDCA maxDCA : Z.

Definition SetDCA_text (cs_DCA : StringX) (bShift : bool) (r : CItemData)
    : bool * CItemData :=
  match cs_DCA with
  | [] => (true, SetDCA (-1) bShift r)
  | _ :: _ =>
      if only_chars_of decimal_digits cs_DCA then
        match extract_signed 2 cs_DCA with
        | None => (false, r)
        | Some iDCA =>
            if (iDCA =? -1) || ((minDCA <=? iDCA) && (iDCA <=? maxDCA))
            then (true, SetDCA iDCA bShift r) else (false, r)
        end
      else (false, r)
  end.

(** [SetFieldAsByte]: the byte is handed to [SetField], whose result is
    not looked at. *)
Definition SetFieldAsByte (type : FieldType) (byte_str : StringX)
    (strict : bool) (r : CItemData) : bool * CItemData :=
  match byte_str with
  | [] => (true, default r (SetField TIME_LEN type [zero_byte] r))
  | _ :: _ =>
      if negb (only_chars_of decimal_digits byte_str) then (false, r)
      else
        match extract_signed 4 byte_str with
        | None => (false, r)
        | Some v =>
            if strict && ((v <? 0) || (255 <? v)) then (false, r)
            else
              let byte_value := chr (Z.to_N (v mod 256)) in
              (true, default r (SetField TIME_LEN type [byte_value] r))
        end
  end.

End TextSetters.

(** A text of decimal digits. *)
Definition all_decimal (s : StringX) : Prop :=
  Forall (fun c => c ∈ decimal_digits) s.

(** ** Attachment and passkey fields *)

Definition GetAttContentLength (r : CItemData) : nat :=
  match m_fields r !! DATA_ATT_CONTENT with
  | Some v => length v
  | None => O
  end.

Definition ClearAttachment (r : CItemData) : CItemData :=
  let r := ClearField DATA_ATT_TITLE r in
  let r := ClearField DATA_ATT_MEDIATYPE r in
  let r := ClearField DATA_ATT_FILENAME r in
  let r := ClearField DATA_ATT_MTIME r in
  ClearField DATA_ATT_CONTENT r.

(** The stored bytes are read as an integer only when there are exactly
    four of them. *)
Definition GetPasskeyAlgorithmID (r : CItemData) : Z :=
  let v := CItem_GetField PASSKEY_ALGO_ID r in
  if bool_decide (length v = 4%nat) then getInt32 v else 0.

(** The result is an unsigned 32-bit integer. *)
Definition GetPasskeySignCount (r : CItemData) : Z :=
  let v := CItem_GetField PASSKEY_SIGN_COUNT r in
  if bool_decide (length v = 4%nat) then getInt32 v mod 2 ^ 32 else 0.

Definition SetPasskeyAlgorithmID (algo_id : Z) (r : CItemData) : CItemData :=
  CItem_SetField PASSKEY_ALGO_ID (putInt32 algo_id) r.

Definition SetPasskeySignCount (sign_count : Z) (r : CItemData)
    : CItemData :=
  CItem_SetField PASSKEY_SIGN_COUNT (putInt32 sign_count) r.

Definition passkey_fields : list FieldType :=
  [PASSKEY_CRED_ID; PASSKEY_RP_ID; PASSKEY_USER_HANDLE; PASSKEY_ALGO_ID;
   PASSKEY_PRIVATE_KEY; PASSKEY_SIGN_COUNT].

Definition HasIncompletePasskey (r : CItemData) : bool :=
  let numSet :=
    foldl (fun n ft => (n + if IsFieldSet ft r then 1 else 0)%nat) O
          passkey_fields in
  negb (bool_decide (numSet = O)
        || bool_decide (numSet = length passkey_fields)).

Definition ClearPasskey (r : CItemData) : CItemData :=
  let r := ClearField PASSKEY_CRED_ID r in
  let r := ClearField PASSKEY_RP_ID r in
  let r := ClearField PASSKEY_USER_HANDLE r in
  let r := ClearField PASSKEY_ALGO_ID r in
  let r := ClearField PASSKEY_PRIVATE_KEY r in
  ClearField PASSKEY_SIGN_COUNT r.

Definition attachment_fields : list FieldType :=
  [DATA_ATT_TITLE; DATA_ATT_MEDIATYPE; DATA_ATT_FILENAME; DATA_ATT_MTIME;
   DATA_ATT_CONTENT].

(** ** The plain image of a record *)

Section PlainText.

Variable TIME_LEN : nat.

(** [static_cast<FieldType>(type)]: the numeric registry of the tags is in
    a header that is not among the sources. *)
Variable FieldType_of_byte : ascii -> FieldType.

(** The loop of [DeSerializePlainText] over what is left of the vector.
    [emergencyExit] is the counter on entry to an iteration. The result is
    the source's [bool] with the record; [None] stands for what the source
    does not guard against, a read or a move of the iterator past the end
    of the vector. The host is little-endian (the branch compiled without
    [PWS_BIG_ENDIAN]). The steps of an iteration, in the order of the
    source:
    - the type byte is taken; the test on the distance to the end, written
      with its arguments in the order [(v.end(), iter)] and cast to an
      unsigned 32-bit integer, holds when the negated count of the bytes
      left is below 4 modulo 2^32;
    - the terminator sets the kind from the id slots and ends the loop;
    - the length is read from the next four bytes, little-endian;
    - the counter is decremented and the loop left when it reaches 0;
    - [SetField] is called on the bytes at the iterator. It refuses on the
      tag and the length alone, before any byte is read; otherwise it reads
      [len] bytes (four for the keyboard shortcut, whatever [len] is);
    - the iterator moves [len] bytes on. *)
Fixpoint DeSerializePlainText_loop (emergencyExit : nat) (v : list ascii)
    (r : CItemData) : option (bool * CItemData) :=
  match v with
  | [] => Some (false, r)
  | type :: rest =>
      if (- Z.of_nat (length rest)) mod 2 ^ 32 <? 4 then Some (false, r)
      else if bool_decide (FieldType_of_byte type = END) then
        Some (true,
              if IsFieldSet UUID r then set_entrytype ET_NORMAL r
              else if IsFieldSet ALIASUUID r then set_entrytype ET_ALIAS r
              else if IsFieldSet SHORTCUTUUID r
                   then set_entrytype ET_SHORTCUT r
              else r)
      else if bool_decide (length rest < 4)%nat then None
      else
        let len := Z.to_nat (le_unsigned (take 4 rest)) in
        let rest := drop 4 rest in
        match emergencyExit with
        | O => Some (false, r)
        | S emergencyExit' =>
            match emergencyExit' with
            | O => Some (false, r)
            | S _ =>
                let ft := FieldType_of_byte type in
                match SetField TIME_LEN ft
                        (take len (rest ++ repeat zero_byte len)) r with
                | None => Some (false, r)
                | Some _ =>
                    if bool_decide (length rest < len)%nat
                       || (bool_decide (ft = KBSHORTCUT)
                           && bool_decide (length rest < 4)%nat)
                    then None
                    else
                      let data := if bool_decide (ft = KBSHORTCUT)
                                  then take 4 rest else take len rest in
                      match SetField TIME_LEN ft data r with
                      | None => Some (false, r)
                      | Some r' =>
                          DeSerializePlainText_loop emergencyExit'
                            (drop len rest) r'
                      end
                end
            end
        end
  end.

Definition DeSerializePlainText (v : list ascii) (r : CItemData)
    : option (bool * CItemData) :=
  DeSerializePlainText_loop 255 v r.

(** The bytes of one field in a plain image: the type byte, the length in
    four bytes, the data. *)
Definition plain_field (c : ascii * list ascii) : list ascii :=
  c.1 :: le_bytes 4 (Z.of_nat (length c.2)) ++ c.2.

(** A plain image: the fields, then a terminator with the length 0. *)
Definition plain_image (cs : list (ascii * list ascii)) (end_byte : ascii)
    : list ascii :=
  flat_map plain_field cs ++ end_byte :: le_bytes 4 0.

(** [SetField] on each field in turn. *)
Fixpoint set_fields (cs : list (ascii * list ascii)) (r : CItemData)
    : option CItemData :=
  match cs with
  | [] => Some r
  | c :: cs' =>
      r' ← SetField TIME_LEN (FieldType_of_byte c.1) c.2 r; set_fields cs' r'
  end.

(** A field a plain image can hold: its tag is not the terminator, and a
    keyboard shortcut has its four bytes. *)
Definition plain_field_ok (c : ascii * list ascii) : Prop :=
  FieldType_of_byte c.1 <> END
  /\ (FieldType_of_byte c.1 = KBSHORTCUT -> (4 <= length c.2)%nat).

End PlainText.

(** The kind the id slots stand for. *)
Definition kind_of_id_slots (r : CItemData) : CItemData :=
  if IsFieldSet UUID r then set_entrytype ET_NORMAL r
  else if IsFieldSet ALIASUUID r then set_entrytype ET_ALIAS r
  else if IsFieldSet SHORTCUTUUID r then set_entrytype ET_SHORTCUT r
  else r.

(** ** Matching on the double-click action *)

Section DCAMatcher.

(** The rules of the comparison module and the two preferences, none of
    which is among the sources. The rules are the labels of a [switch], so
    they are distinct. *)
Variables MR_IS MR_ISNOT MR_PRESENT MR_NOTPRESENT : Z.
Variables DoubleClickAction ShiftDoubleClickAction : Z.

Definition Matches_dca (dca : Z) (iFunction : Z) (bShift : bool)
    (r : CItemData) : bool :=
  let iDCA := GetDCA r bShift in
  let iDCA :=
    if iDCA <? 0
    then wrap_signed 2 (if bShift then ShiftDoubleClickAction
                        else DoubleClickAction)
    else iDCA in
  if iFunction =? MR_IS then iDCA =? dca
  else if iFunction =? MR_ISNOT then negb (iDCA =? dca)
  else if iFunction =? MR_PRESENT then IsDCASet bShift r
  else if iFunction =? MR_NOTPRESENT then negb (IsDCASet bShift r)
  else false.

End DCAMatcher.

(** ** The times of a duplicate *)

(** Modelled from the spec: the accessors of the record-modification and
    creation times, inline in a header that is not among the sources. *)
Definition GetRMTime (r : CItemData) : Z := CItem_GetTime RMTIME r.
Definition SetRMTime (t : Z) (r : CItemData) : CItemData :=
  CItem_SetTime RMTIME t r.
Definition SetCTime (t : Z) (r : CItemData) : CItemData :=
  CItem_SetTime CTIME t r.

(** [SetDuplicateTimes(src)] on a record other than [src]; [now] is what
    [time(&t)] returns in [SetCTime()]. *)
Definition SetDuplicateTimes (now : Z) (src r : CItemData) : CItemData :=
  let r := SetCTime now r in
  let original_creation_time := GetCTime src in
  let r :=
    if negb (IsShortcut src) then
      let t := GetPMTime src in
      SetPMTime (if t =? 0 then original_creation_time else t) r
    else r in
  let t := GetRMTime src in
  SetRMTime (if t =? 0 then original_creation_time else t) r.

(** ** The keyboard shortcut as text *)

Section HotKey.

(** The modifier flags, whose values are in a header that is not among the
    sources, and [iss >> hex >> w] of the standard library for a 16-bit
    unsigned [w]. *)
Variables PWS_HOTKEYF_ALT PWS_HOTKEYF_CONTROL PWS_HOTKEYF_SHIFT
  PWS_HOTKEYF_EXT PWS_HOTKEYF_META PWS_HOTKEYF_WIN PWS_HOTKEYF_CMD : Z.
Variable extract_hex_word : StringX -> Z.

(** [GetKBShortcut()], the shortcut as text: the letters of the modifiers,
    a colon and the key code in four hex digits; empty for 0. *)
Definition GetKBShortcut_text (r : CItemData) : StringX :=
  let iKBShortcut := GetKBShortcut r in
  if negb (iKBShortcut =? 0) then
    let kbs : StringX := [] in
    let wVirtualKeyCode := Z.land iKBShortcut 255 in
    let wPWSModifiers := Z.shiftr iKBShortcut 16 mod 2 ^ 16 in
    let kbs := if negb (Z.land wPWSModifiers PWS_HOTKEYF_ALT =? 0)
               then kbs ++ _T "A" else kbs in
    let kbs := if negb (Z.land wPWSModifiers PWS_HOTKEYF_CONTROL =? 0)
               then kbs ++ _T "C" else kbs in
    let kbs := if negb (Z.land wPWSModifiers PWS_HOTKEYF_SHIFT =? 0)
               then kbs ++ _T "S" else kbs in
    let kbs := if negb (Z.land wPWSModifiers PWS_HOTKEYF_EXT =? 0)
               then kbs ++ _T "E" else kbs in
    let kbs := if negb (Z.land wPWSModifiers PWS_HOTKEYF_META =? 0)
               then kbs ++ _T "M" else kbs in
    let kbs := if negb (Z.land wPWSModifiers PWS_HOTKEYF_WIN =? 0)
               then kbs ++ _T "W" else kbs in
    let kbs := if negb (Z.land wPWSModifiers PWS_HOTKEYF_CMD =? 0)
               then kbs ++ _T "D" else kbs in
    kbs ++ _T ":" ++ hex_fixed 4 wVirtualKeyCode
  else [].

(** [w |= flag] on a 16-bit unsigned [w]. *)
Definition or_word (w flag : Z) : Z := Z.lor w flag mod 2 ^ 16.

(** The loop of [SetKBShortcut(sx_KBShortcut)] over the text from the
    current position on: the modifiers gathered, and the key code read
    after the colon (0 without a colon). *)
Fixpoint scan_shortcut (s : StringX) (wPWSModifiers : Z) : Z * Z :=
  match s with
  | [] => (wPWSModifiers, 0)
  | c :: s' =>
      if bool_decide (c = ":"%char)
      then (wPWSModifiers, extract_hex_word (substr s' 0 4))
      else
        let w := wPWSModifiers in
        let w := if bool_decide (c = "A"%char)
                 then or_word w PWS_HOTKEYF_ALT else w in
        let w := if bool_decide (c = "C"%char)
                 then or_word w PWS_HOTKEYF_CONTROL else w in
        let w := if bool_decide (c = "S"%char)
                 then or_word w PWS_HOTKEYF_SHIFT else w in
        let w := if bool_decide (c = "E"%char)
                 then or_word w PWS_HOTKEYF_EXT else w in
        let w := if bool_decide (c = "M"%char)
                 then or_word w PWS_HOTKEYF_META else w in
        let w := if bool_decide (c = "W"%char)
                 then or_word w PWS_HOTKEYF_WIN else w in
        let w := if bool_decide (c = "D"%char)
                 then or_word w PWS_HOTKEYF_CMD else w in
        scan_shortcut s' w
  end.

(** The shortcut is the modifiers shifted by 16 plus the key code, in
    32-bit arithmetic, and 0 unless both are present. *)
Definition SetKBShortcut_text (sx_KBShortcut : StringX) (r : CItemData)
    : CItemData :=
  let '(wPWSModifiers, wVirtualKeyCode) := scan_shortcut sx_KBShortcut 0 in
  let iKBShortcut :=
    if negb (wPWSModifiers =? 0) && negb (wVirtualKeyCode =? 0)
    then wrap_signed 4 (Z.shiftl wPWSModifiers 16 + wVirtualKeyCode)
    else 0 in
  SetKBShortcut iKBShortcut r.

(** The modifiers the text of [w] names: the union of the flags [w]
    meets. *)
Definition named_modifiers (w : Z) : Z :=
  let m := 0 in
  let m := if negb (Z.land w PWS_HOTKEYF_ALT =? 0)
           then or_word m PWS_HOTKEYF_ALT else m in
  let m := if negb (Z.land w PWS_HOTKEYF_CONTROL =? 0)
           then or_word m PWS_HOTKEYF_CONTROL else m in
  let m := if negb (Z.land w PWS_HOTKEYF_SHIFT =? 0)
           then or_word m PWS_HOTKEYF_SHIFT else m in
  let m := if negb (Z.land w PWS_HOTKEYF_EXT =? 0)
           then or_word m PWS_HOTKEYF_EXT else m in
  let m := if negb (Z.land w PWS_HOTKEYF_META =? 0)
           then or_word m PWS_HOTKEYF_META else m in
  let m := if negb (Z.land w PWS_HOTKEYF_WIN =? 0)
           then or_word m PWS_HOTKEYF_WIN else m in
  if negb (Z.land w PWS_HOTKEYF_CMD =? 0)
  then or_word m PWS_HOTKEYF_CMD else m.

End HotKey.

(** * Properties *)

(** ** Identifiers *)

Lemma uuid_slot_explicit r ft : ft <> END -> uuid_slot r ft = ft.
Proof. destruct ft; intros H; try reflexivity. now destruct H. Qed.

Lemma NullUUID_zero : length NullUUID = 16%nat /\ Forall (fun c => ord c = 0) NullUUID.
Proof. split; [reflexivity | repeat constructor]. Qed.

(** C9. [GetUUID] on an id slot that is not populated, whether the slot is
    named by the caller or selected by the entry kind ([END]), yields the
    all-zero 16-byte id. The accessor is a [const] method: it is a function
    of the record and hands back only the id, so the record is the same
    afterwards. *)
Theorem GetUUID_unpopulated_is_null (r : CItemData) (ft : FieldType) :
  m_fields r !! uuid_slot r ft = None ->
  GetUUID r ft = repeat zero_byte 16
  /\ length (GetUUID r ft) = 16%nat
  /\ Forall (fun c => ord c = 0) (GetUUID r ft).
Proof.
  intros Hnone. unfold GetUUID. rewrite Hnone.
  split; [reflexivity | apply NullUUID_zero].
Qed.

Lemma GetUUID_unpopulated_is_null_witness :
  GetUUID bank_item ALIASUUID = repeat zero_byte 16
  /\ length (GetUUID bank_item ALIASUUID) = 16%nat
  /\ Forall (fun c => ord c = 0) (GetUUID bank_item ALIASUUID).
Proof. apply (GetUUID_unpopulated_is_null bank_item ALIASUUID). reflexivity. Defined.

(** ** Effective values *)

Lemma entrytype_cases r :
  (IsNormal r || IsBase r = true /\ IsDependent r = false)
  \/ (m_entrytype r = ET_ALIAS) \/ (m_entrytype r = ET_SHORTCUT).
Proof.
  unfold IsNormal, IsBase, IsAliasBase, IsShortcutBase, IsDependent, IsAlias,
    IsShortcut.
  destruct (m_entrytype r); auto.
Qed.

(** C2. The effective value of a field. A normal or base entry answers
    with its own value for every field. An alias answers with the base
    entry's value exactly for the password, the password history, the
    two-factor key and the four TOTP parameters, and with its own value for
    every other field. A shortcut answers with its own value exactly for
    group, title and user and with the base entry's value for every other
    field. The base entry must be given whenever the entry is an alias or a
    shortcut. *)
Theorem GetEffectiveFieldValue_table (r b : CItemData) (ft : FieldType)
    (pbci : option CItemData) :
  (IsDependent r = true -> pbci = Some b) ->
  let own := Some (CItem_GetField ft r) in
  let based := Some (CItem_GetField ft b) in
  let v := GetEffectiveFieldValue r ft pbci in
  (m_entrytype r = ET_NORMAL \/ m_entrytype r = ET_ALIASBASE
   \/ m_entrytype r = ET_SHORTCUTBASE -> v = own)
  /\ (m_entrytype r = ET_ALIAS ->
      (ft = PASSWORD \/ ft = PWHIST \/ ft = TWOFACTORKEY \/ ft = TOTPCONFIG
       \/ ft = TOTPSTARTTIME \/ ft = TOTPTIMESTEP \/ ft = TOTPLENGTH ->
       v = based)
      /\ (ft <> PASSWORD -> ft <> PWHIST -> ft <> TWOFACTORKEY ->
          ft <> TOTPCONFIG -> ft <> TOTPSTARTTIME -> ft <> TOTPTIMESTEP ->
          ft <> TOTPLENGTH -> v = own))
  /\ (m_entrytype r = ET_SHORTCUT ->
      (ft = GROUP \/ ft = TITLE \/ ft = USER -> v = own)
      /\ (ft <> GROUP -> ft <> TITLE -> ft <> USER -> v = based)).
Proof.
  intros Hb own based v. subst own based v.
  unfold GetEffectiveFieldValue, IsNormal, IsBase, IsAliasBase,
    IsShortcutBase, IsAlias, IsShortcut.
  unfold IsDependent, IsAlias, IsShortcut in Hb.
  split; [| split].
  - intros [-> | [-> | ->]]; reflexivity.
  - intros Hk. rewrite Hk in *. simpl. rewrite (Hb eq_refl). split.
    + intros Hft. rewrite bool_decide_eq_true_2; [reflexivity |].
      unfold base_fields. rewrite !elem_of_cons. tauto.
    + intros. rewrite bool_decide_eq_false_2; [reflexivity |].
      unfold base_fields. rewrite !elem_of_cons, elem_of_nil. tauto.
  - intros Hk. rewrite Hk in *. simpl. rewrite (Hb eq_refl). split.
    + intros [-> | [-> | ->]]; reflexivity.
    + intros. rewrite !bool_decide_eq_false_2 by assumption. reflexivity.
Qed.

Lemma GetEffectiveFieldValue_table_witness :
  GetEffectiveFieldValue alias_item PASSWORD (Some bank_item) = Some (_T "p1")
  /\ GetEffectiveFieldValue alias_item TITLE (Some bank_item)
     = Some (_T "Alias of bank").
Proof.
  split.
  - destruct (GetEffectiveFieldValue_table alias_item bank_item PASSWORD
                (Some bank_item) (fun _ => eq_refl)) as [_ [H _]].
    destruct (H eq_refl) as [H1 _]. apply H1. left. reflexivity.
  - destruct (GetEffectiveFieldValue_table alias_item bank_item TITLE
                (Some bank_item) (fun _ => eq_refl)) as [_ [H _]].
    destruct (H eq_refl) as [_ H2]. apply H2; discriminate.
Defined.

(** ** Kind changes *)

Lemma SetEntryType_kind et r : m_entrytype (SetEntryType et r) = et.
Proof. reflexivity. Qed.

(** Leaving the base side for a dependent kind relocates the id: the new
    slot receives what [GetUUID] reads from [UUID], and [UUID] is erased. *)
Lemma SetEntryType_base_to_dependent et r :
  m_entrytype r = ET_NORMAL \/ m_entrytype r = ET_ALIASBASE
  \/ m_entrytype r = ET_SHORTCUTBASE ->
  et = ET_ALIAS \/ et = ET_SHORTCUT ->
  let slot := if bool_decide (et = ET_ALIAS) then ALIASUUID else SHORTCUTUUID in
  m_fields (SetEntryType et r)
  = delete UUID (m_fields (SetUUID (GetUUID r UUID) slot r)).
Proof.
  intros Hcur Het. unfold SetEntryType.
  destruct Hcur as [-> | [-> | ->]], Het as [-> | ->]; reflexivity.
Qed.

(** Returning to [ET_NORMAL] relocates the id back. *)
Lemma SetEntryType_dependent_to_normal r :
  m_entrytype r = ET_ALIAS \/ m_entrytype r = ET_SHORTCUT ->
  let slot := if bool_decide (m_entrytype r = ET_ALIAS) then ALIASUUID
              else SHORTCUTUUID in
  m_fields (SetEntryType ET_NORMAL r)
  = delete slot (m_fields (SetUUID (GetUUID r slot) UUID r)).
Proof.
  intros Hcur. unfold SetEntryType.
  destruct Hcur as [Hk | Hk]; rewrite Hk; reflexivity.
Qed.

(** A change that stays on one side of the boundary leaves the store as it
    is. *)
Lemma SetEntryType_same_side et r :
  (IsDependent r = true <-> (et = ET_ALIAS \/ et = ET_SHORTCUT)) ->
  m_fields (SetEntryType et r) = m_fields r.
Proof.
  unfold IsDependent, IsAlias, IsShortcut, SetEntryType.
  intros [H1 H2]. destruct (m_entrytype r) eqn:Hk, et; simpl in *;
    try reflexivity;
    try (exfalso; (destruct (H1 eq_refl) as [? | ?]; discriminate)
                  || (assert (false = true) by (apply H2; auto); discriminate)).
Qed.

(** The scenario of the kind invariant: a normal entry with a populated
    [UUID] slot becomes an alias. *)
Lemma SetEntryType_normal_to_alias r id :
  m_entrytype r = ET_NORMAL -> m_fields r !! UUID = Some id -> id <> [] ->
  let r' := SetEntryType ET_ALIAS r in
  m_fields r' !! UUID = None /\ m_fields r' !! ALIASUUID = Some id
  /\ HasUUID r = true /\ HasUUID r' = true.
Proof.
  intros Hk Hid Hne r'. subst r'. unfold SetEntryType, HasUUID, IsFieldSet.
  rewrite Hk. simpl. unfold GetUUID. simpl. rewrite Hid.
  destruct id as [| c id]; [contradiction |]. simpl.
  rewrite lookup_delete_eq, lookup_delete_ne, lookup_insert_eq by discriminate.
  rewrite !bool_decide_eq_true_2 by eauto. auto.
Qed.

(** C6, what the code does on the transitions from a dependent kind to a
    base kind. The alias [alias_item] satisfies [HasUUID]; after
    [SetEntryType(ET_ALIASBASE)] its kind is [ET_ALIASBASE], yet the id is
    still in the [ALIASUUID] slot and the [UUID] slot is still empty, so
    [HasUUID] no longer holds: the id was not relocated although the
    transition crosses the boundary. The same happens towards
    [ET_SHORTCUTBASE]. *)
Theorem SetEntryType_alias_to_base_not_relocated :
  HasUUID alias_item = true
  /\ m_entrytype (SetEntryType ET_ALIASBASE alias_item) = ET_ALIASBASE
  /\ m_fields (SetEntryType ET_ALIASBASE alias_item) = m_fields alias_item
  /\ m_fields (SetEntryType ET_ALIASBASE alias_item) !! UUID = None
  /\ m_fields (SetEntryType ET_ALIASBASE alias_item) !! ALIASUUID
     = Some (sample_uuid 9)
  /\ HasUUID (SetEntryType ET_ALIASBASE alias_item) = false
  /\ HasUUID (SetEntryType ET_SHORTCUTBASE alias_item) = false.
Proof. repeat split; reflexivity. Qed.

(** ** Matching on an unset value *)

Section MatcherProperties.

Variables MR_PRESENT MR_NOTPRESENT : Z.
Variable Match_bool : bool -> Z -> bool.
Variable Match_int : Z -> Z -> Z -> Z -> bool.
Variable Match_time : Z -> Z -> Z -> Z -> bool.
Variable GetSize : CItemData -> Z.
Variable local_midnight : Z -> Z.

(** An object outside the four numeric ones is never matched. *)
Lemma Matches_int_unsupported num1 num2 iObject iFunction r :
  numeric_object GetSize iObject r = None ->
  Matches_int MR_PRESENT MR_NOTPRESENT Match_bool Match_int GetSize
    num1 num2 iObject iFunction r = false.
Proof. unfold Matches_int. now intros ->. Qed.

(** Each of the four numeric objects and of the five time objects selects a
    value. *)
Lemma numeric_object_supported iObject r :
  iObject = XTIME_INT \/ iObject = ENTRYSIZE \/ iObject = PASSWORDLEN
  \/ iObject = KBSHORTCUT ->
  is_Some (numeric_object GetSize iObject r).
Proof. intros [-> | [-> | [-> | ->]]]; simpl; eauto. Qed.

Lemma time_object_supported iObject r :
  iObject = CTIME \/ iObject = PMTIME \/ iObject = ATIME \/ iObject = XTIME
  \/ iObject = RMTIME ->
  time_object iObject r = Some (CItem_GetTime iObject r).
Proof. intros [-> | [-> | [-> | [-> | ->]]]]; reflexivity. Qed.

(** C10. With a comparison function that is neither "present" nor "not
    present", the numeric matcher (expiry interval, entry size, password
    length, keyboard shortcut) and the time matcher answer [false] whenever
    the value they select is zero, whatever the bounds. *)
Theorem Matches_zero_value_is_false (r : CItemData) (iFunction : Z)
    (num1 num2 time1 time2 : Z) (iObject tObject : FieldType) :
  iFunction <> MR_PRESENT -> iFunction <> MR_NOTPRESENT ->
  (numeric_object GetSize iObject r = Some 0 ->
   Matches_int MR_PRESENT MR_NOTPRESENT Match_bool Match_int GetSize
     num1 num2 iObject iFunction r = false)
  /\ (time_object tObject r = Some 0 ->
      MatchesTime MR_PRESENT MR_NOTPRESENT Match_bool Match_time
        local_midnight time1 time2 tObject iFunction r = false).
Proof.
  intros Hp Hn.
  assert (Hsel : (iFunction =? MR_PRESENT) || (iFunction =? MR_NOTPRESENT)
                 = false).
  { apply orb_false_intro; apply Z.eqb_neq; assumption. }
  split; intros Hv.
  - unfold Matches_int. rewrite Hv. simpl. now rewrite Hsel.
  - unfold MatchesTime. rewrite Hv. simpl. now rewrite Hsel.
Qed.

End MatcherProperties.

(** An entry without expiry interval and without creation time, matched
    with rule 3 where the presence rules are 13 and 14 and every comparison
    of the absent module answers [true]. *)
Lemma Matches_zero_value_is_false_witness :
  Matches_int 13 14 (fun _ _ => true) (fun _ _ _ _ => true)
    (fun _ => 100) 1 3650 XTIME_INT 3 bank_item = false
  /\ MatchesTime 13 14 (fun _ _ => true) (fun _ _ _ _ => true)
       (fun t => t) 1 2000000000 CTIME 3 bank_item = false.
Proof.
  destruct (Matches_zero_value_is_false 13 14 (fun _ _ => true)
              (fun _ _ _ _ => true) (fun _ _ _ _ => true) (fun _ => 100)
              (fun t => t) bank_item 3 1 3650 1 2000000000 XTIME_INT CTIME)
    as [H1 H2]; [lia | lia |].
  split; [apply H1 | apply H2]; reflexivity.
Defined.

(** ** Reading a stream of chunks *)

Section SerializerProperties.

Variable TIME_LEN : nat.
Variables minDCA maxDCA : Z.

Lemma chunk_size_pos c : 0 < chunk_size c.
Proof. unfold chunk_size. lia. Qed.

Lemma stream_size_nonneg cs : 0 <= stream_size cs.
Proof.
  induction cs as [| c cs IH]; simpl; [lia |].
  pose proof (chunk_size_pos c). lia.
Qed.

Lemma stream_size_pos c cs : 0 < stream_size (c :: cs).
Proof.
  simpl. pose proof (chunk_size_pos c). pose proof (stream_size_nonneg cs). lia.
Qed.

Lemma Read_loop_accept n tfl c rest r r' numread :
  accept TIME_LEN c r = Some r' ->
  Read_loop TIME_LEN (S n) (mkFile tfl (c :: rest)) r numread
  = Read_loop TIME_LEN n (mkFile tfl rest) r' (numread + chunk_size c).
Proof.
  destruct c as [type data]. unfold accept. simpl.
  case_bool_decide as Hend; [discriminate |].
  destruct (IsItemDataField type).
  - intros ->. reflexivity.
  - destruct (IsItemAttField type); [discriminate |].
    intros [= <-]. reflexivity.
Qed.

(** The loop consumes a prefix of accepted chunks, one iteration each. *)
Lemma Read_loop_prefix pre : forall n tfl rest r r' numread,
  load TIME_LEN pre r = Some r' ->
  (length pre <= n)%nat ->
  Read_loop TIME_LEN n (mkFile tfl (pre ++ rest)) r numread
  = Read_loop TIME_LEN (n - length pre) (mkFile tfl rest) r'
      (numread + stream_size pre).
Proof.
  induction pre as [| c pre IH]; intros n tfl rest r r' numread Hload Hlen.
  - simpl in *. injection Hload as <-.
    now rewrite Nat.sub_0_r, Z.add_0_r.
  - simpl in Hload. destruct (accept TIME_LEN c r) as [r1 |] eqn:Hacc;
      [| discriminate].
    simpl in Hload, Hlen. destruct n as [| n]; [lia |].
    rewrite <- app_comm_cons, (Read_loop_accept _ _ _ _ _ _ _ Hacc).
    rewrite (IH n tfl rest r1 r' _ Hload) by lia.
    simpl. f_equal. lia.
Qed.

(** When 255 chunks have been accepted the counter is exhausted and the
    loop ends with the status still [SUCCESS]: whatever follows in the
    stream is left unread. *)
Lemma Read_exhausted pre rest tfl r r' :
  load TIME_LEN pre (CItemData_Clear r) = Some r' ->
  length pre = 255%nat ->
  Read TIME_LEN (mkFile tfl (pre ++ rest)) r
  = (finish_Read SUCCESS (stream_size pre) r', mkFile tfl rest)
  /\ (finish_Read SUCCESS (stream_size pre) r').1 = Status SUCCESS.
Proof.
  intros Hload Hlen. unfold Read.
  rewrite (Read_loop_prefix pre 255 tfl rest _ r' 0 Hload) by lia.
  rewrite Hlen. simpl. split; [reflexivity |].
  unfold finish_Read.
  destruct pre as [| c pre]; [discriminate |].
  pose proof (stream_size_pos c pre) as Hpos.
  apply Z.ltb_lt in Hpos. now rewrite Hpos.
Qed.

End SerializerProperties.

(** C5, what the code does when a record has more than 255 chunks: [Read]
    stops after the 255th chunk and reports [SUCCESS]. The record holds the
    id and the first 254 of the 255 unknown fields; the last one and the
    terminator are still in the stream. *)
Theorem Read_stops_after_255_chunks_with_success :
  let '(result, r, rest) := Read 5 (mkFile 5 long_stream) empty_item in
  result = Status SUCCESS
  /\ m_fields r !! UUID = Some (sample_uuid 7)
  /\ m_URFL r = repeat (OTHER 223, _T "x") 254
  /\ fields rest = [(OTHER 223, _T "x"); (END, [])].
Proof. vm_compute. repeat split; reflexivity. Qed.

(** ** The placeholder codec *)

Lemma pair_induction {A} (P : list A -> Prop) :
  P [] -> (forall a, P [a]) -> (forall a b l, P l -> P (a :: b :: l)) ->
  forall l, P l.
Proof.
  intros H0 H1 H2 l.
  cut (P l /\ forall a, P (a :: l)); [tauto |].
  induction l as [| x l [IH1 IH2]]; split; auto.
Qed.

Lemma ToLower_map s : ToLower s = map lower s.
Proof. reflexivity. Qed.

Lemma length_ToLower s : length (ToLower s) = length s.
Proof. apply length_map. Qed.

(** Folding to lower case first makes the test accept the capital digits
    A-F as well, and nothing else. *)
Lemma lower_hex_iff c : is_lower_hex_digit (lower c) <-> is_hex_digit c.
Proof.
  unfold is_lower_hex_digit, is_hex_digit.
  assert (bool_decide (lower c ∈ hex_digits)
          = bool_decide (c ∈ _T "0123456789abcdefABCDEF")) as Hb.
  { destruct c as [[] [] [] [] [] [] [] []]; vm_compute; reflexivity. }
  split; intros H.
  - apply (bool_decide_eq_true_2 _) in H. rewrite Hb in H.
    exact (bool_decide_eq_true_1 _ H).
  - apply (bool_decide_eq_true_2 _) in H. rewrite <- Hb in H.
    exact (bool_decide_eq_true_1 _ H).
Qed.

Lemma only_chars_of_Forall chars s :
  only_chars_of chars s = true <-> Forall (fun c => c ∈ chars) s.
Proof.
  unfold only_chars_of. rewrite forallb_forall, Forall_forall.
  split; intros H c Hc.
  - apply list_elem_of_In in Hc. apply H in Hc.
    now apply bool_decide_eq_true in Hc.
  - apply bool_decide_eq_true. apply H. now apply list_elem_of_In.
Qed.

Lemma hex_check_iff mid :
  only_chars_of hex_digits (ToLower mid) = true <-> Forall is_hex_digit mid.
Proof.
  rewrite only_chars_of_Forall, ToLower_map, Forall_map.
  apply Forall_iff. intros c. apply lower_hex_iff.
Qed.

Lemma Forall_lower_hex_ToLower mid :
  Forall is_hex_digit mid -> Forall is_lower_hex_digit (ToLower mid).
Proof.
  intros H. rewrite ToLower_map, Forall_map.
  eapply Forall_impl; [exact H |]. intros c. apply lower_hex_iff.
Qed.

(** Two lowercase hex digits name one byte, and the byte names them back. *)
Lemma hex_pair_roundtrip hi lo :
  is_lower_hex_digit hi -> is_lower_hex_digit lo ->
  hex_digit (ord (hex_pair_byte hi lo) / 16) = hi
  /\ hex_digit (ord (hex_pair_byte hi lo) mod 16) = lo.
Proof.
  assert (Hall : Forall (fun hi => Forall (fun lo =>
            hex_digit (ord (hex_pair_byte hi lo) / 16) = hi
            /\ hex_digit (ord (hex_pair_byte hi lo) mod 16) = lo)
            hex_digits) hex_digits).
  { apply (bool_decide_eq_true_1 _). vm_compute. reflexivity. }
  intros Hhi Hlo. rewrite Forall_forall in Hall.
  specialize (Hall hi Hhi). rewrite Forall_forall in Hall.
  exact (Hall lo Hlo).
Qed.

Lemma byte_hex_roundtrip b :
  chr (Z.to_N (16 * hex_value (hex_digit (ord b / 16))
               + hex_value (hex_digit (ord b mod 16)))) = b.
Proof. destruct b as [[] [] [] [] [] [] [] []]; vm_compute; reflexivity. Qed.

Lemma byte_hex_is_lower b :
  is_lower_hex_digit (hex_digit (ord b / 16))
  /\ is_lower_hex_digit (hex_digit (ord b mod 16)).
Proof.
  unfold is_lower_hex_digit.
  assert (bool_decide (hex_digit (ord b / 16) ∈ hex_digits)
          && bool_decide (hex_digit (ord b mod 16) ∈ hex_digits) = true) as Hb.
  { destruct b as [[] [] [] [] [] [] [] []]; vm_compute; reflexivity. }
  apply andb_true_iff in Hb as [H1 H2].
  split; eapply bool_decide_eq_true_1; eassumption.
Qed.

Lemma CUUID_of_to_StringX uuid :
  CUUID_of_StringX (CUUID_to_StringX uuid) = uuid.
Proof.
  induction uuid as [| b uuid IH]; [reflexivity |].
  change (CUUID_to_StringX (b :: uuid))
    with (hex_digit (ord b / 16) :: hex_digit (ord b mod 16)
          :: CUUID_to_StringX uuid).
  cbn [CUUID_of_StringX]. now rewrite byte_hex_roundtrip, IH.
Qed.

Lemma CUUID_to_of_StringX s :
  Forall is_lower_hex_digit s -> Nat.Even (length s) ->
  CUUID_to_StringX (CUUID_of_StringX s) = s.
Proof.
  induction s as [| a | hi lo s IH] using pair_induction; intros Hhex Hev.
  - reflexivity.
  - destruct Hev as [k Hk]. simpl in Hk. lia.
  - apply Forall_cons in Hhex as [Hhi Hhex].
    apply Forall_cons in Hhex as [Hlo Hhex].
    cbn [CUUID_of_StringX].
    change (CUUID_to_StringX (?b :: ?u))
      with (hex_digit (ord b / 16) :: hex_digit (ord b mod 16)
            :: CUUID_to_StringX u).
    destruct (hex_pair_roundtrip hi lo Hhi Hlo) as [H1 H2].
    unfold hex_pair_byte in H1, H2. rewrite H1, H2.
    rewrite IH; [reflexivity | assumption |].
    destruct Hev as [k Hk]. exists (k - 1)%nat. simpl in Hk. lia.
Qed.

Lemma length_CUUID_of_StringX s :
  length s = (2 * length (CUUID_of_StringX s) + length s mod 2)%nat.
Proof.
  induction s as [| a | hi lo s IH] using pair_induction.
  - reflexivity.
  - reflexivity.
  - cbn [CUUID_of_StringX length].
    replace (S (S (length s))) with (length s + 1 * 2)%nat by lia.
    rewrite Nat.Div0.mod_add. lia.
Qed.

Lemma length_CUUID_to_StringX uuid :
  length (CUUID_to_StringX uuid) = (2 * length uuid)%nat.
Proof. induction uuid as [| b uuid IH]; simpl in *; lia. Qed.

Lemma CUUID_to_StringX_lower uuid :
  Forall is_lower_hex_digit (CUUID_to_StringX uuid).
Proof.
  induction uuid as [| b uuid IH]; [constructor |].
  destruct (byte_hex_is_lower b) as [H1 H2].
  change (CUUID_to_StringX (b :: uuid))
    with (hex_digit (ord b / 16) :: hex_digit (ord b mod 16)
          :: CUUID_to_StringX uuid).
  constructor; [exact H1 |]. constructor; [exact H2 | exact IH].
Qed.

Lemma placeholder_shape_text hex pw slot :
  placeholder_shape hex pw slot ->
  pw = substr pw 0 2 ++ substr pw 2 32 ++ substr_from pw 34.
Proof.
  intros _. unfold substr, substr_from. rewrite drop_0.
  rewrite <- (take_drop 2 pw) at 1. f_equal.
  rewrite <- (take_drop 32 (drop 2 pw)) at 1. f_equal.
  now rewrite drop_drop.
Qed.

Lemma GetUUID_after_base b r :
  b <> [] -> GetUUID (SetUUID b BASEUUID r) END = GetUUID r END.
Proof.
  intros Hb. destruct b as [| c b]; [contradiction |].
  unfold GetUUID, SetUUID, CItem_SetField. simpl.
  rewrite lookup_insert_ne; [reflexivity |].
  destruct (m_entrytype r); discriminate.
Qed.

Lemma length_16_nonempty (b : list ascii) : length b = 16%nat -> b <> [].
Proof. now destruct b. Qed.

(** The two cases of [ParseSpecialPasswords]: the password has the
    placeholder shape with hex digits of either case and the link is
    installed, or it has not and the record is returned as it is. *)
Lemma ParseSpecialPasswords_cases (r : CItemData) :
  let pw := GetPassword r in
  let r' := ParseSpecialPasswords r in
  (exists slot b,
      placeholder_shape is_hex_digit pw slot
      /\ length b = 16%nat
      /\ CUUID_to_StringX b = ToLower (substr pw 2 32)
      /\ r' = SetUUID (GetUUID r END) slot
                (ClearField UUID (SetUUID b BASEUUID r))
      /\ m_fields r' !! BASEUUID = Some b
      /\ m_fields r' !! UUID = None
      /\ (GetUUID r END <> [] -> m_fields r' !! slot = Some (GetUUID r END))
      /\ (forall ft, ft <> BASEUUID -> ft <> UUID -> ft <> slot ->
                     m_fields r' !! ft = m_fields r !! ft)
      /\ m_URFL r' = m_URFL r
      /\ m_entrytype r' = m_entrytype r
      /\ m_entrystatus r' = m_entrystatus r)
  \/ ((forall slot, ~ placeholder_shape is_hex_digit pw slot) /\ r' = r).
Proof.
  intros pw r'. subst r'. unfold ParseSpecialPasswords. fold pw.
  case_bool_decide as Hlen; cycle 1.
  { right. split; [| reflexivity]. intros slot (Hl & _). contradiction. }
  rewrite Hlen. change (36 - 2)%nat with 34%nat.
  destruct (only_chars_of hex_digits (ToLower (substr pw 2 32))) eqn:Hhex;
    cycle 1.
  { rewrite andb_false_r. right. split; [| reflexivity].
    intros slot (_ & Hh & _). apply hex_check_iff in Hh. congruence. }
  rewrite andb_true_r.
  pose proof (proj1 (hex_check_iff _) Hhex) as Hmid.
  assert (Hmidlen : length (substr pw 2 32) = 32%nat).
  { unfold substr. rewrite length_take, length_drop. lia. }
  set (b := CUUID_of_StringX (ToLower (substr pw 2 32))).
  assert (Hb16 : length b = 16%nat).
  { pose proof (length_CUUID_of_StringX (ToLower (substr pw 2 32))) as H.
    rewrite length_ToLower, Hmidlen in H. simpl in H. subst b. lia. }
  assert (Hbtxt : CUUID_to_StringX b = ToLower (substr pw 2 32)).
  { apply CUUID_to_of_StringX; [now apply Forall_lower_hex_ToLower |].
    rewrite length_ToLower, Hmidlen. now exists 16%nat. }
  pose proof (length_16_nonempty b Hb16) as Hbne.
  assert (Hinstall : forall slot,
    slot = ALIASUUID \/ slot = SHORTCUTUUID ->
    let r' := SetUUID (GetUUID (SetUUID b BASEUUID r) END) slot
                (ClearField UUID (SetUUID b BASEUUID r)) in
    r' = SetUUID (GetUUID r END) slot (ClearField UUID (SetUUID b BASEUUID r))
    /\ m_fields r' !! BASEUUID = Some b
    /\ m_fields r' !! UUID = None
    /\ (GetUUID r END <> [] -> m_fields r' !! slot = Some (GetUUID r END))
    /\ (forall ft, ft <> BASEUUID -> ft <> UUID -> ft <> slot ->
                   m_fields r' !! ft = m_fields r !! ft)
    /\ m_URFL r' = m_URFL r
    /\ m_entrytype r' = m_entrytype r
    /\ m_entrystatus r' = m_entrystatus r).
  { intros slot Hslot r'. subst r'. rewrite (GetUUID_after_base b r Hbne).
    assert (slot <> BASEUUID /\ slot <> UUID) as [Hs1 Hs2]
      by (destruct Hslot as [-> | ->]; split; discriminate).
    unfold SetUUID, ClearField, CItem_SetField. simpl.
    destruct b as [| c0 b0]; [contradiction |].
    destruct (GetUUID r END) as [| u0 u] eqn:Hu; simpl.
    - repeat split; try reflexivity.
      + rewrite lookup_delete_ne, lookup_delete_ne, lookup_insert_eq;
          [reflexivity | discriminate | auto].
      + rewrite lookup_delete_ne, lookup_delete_eq; auto.
      + intros Hne. now destruct Hne.
      + intros ft H1 H2 H3.
        rewrite !lookup_delete_ne, lookup_insert_ne by auto. reflexivity.
    - repeat split; try reflexivity.
      + rewrite lookup_insert_ne, lookup_delete_ne, lookup_insert_eq;
          [reflexivity | discriminate | auto].
      + rewrite lookup_insert_ne, lookup_delete_eq; auto.
      + intros _. now rewrite lookup_insert_eq.
      + intros ft H1 H2 H3.
        rewrite lookup_insert_ne, lookup_delete_ne, lookup_insert_ne by auto.
        reflexivity. }
  destruct (bool_decide (substr pw 0 2 = _T "[[")) eqn:Ha.
  - apply bool_decide_eq_true in Ha.
    destruct (bool_decide (substr_from pw 34 = _T "]]")) eqn:Hc.
    + apply bool_decide_eq_true in Hc. cbn [andb orb]. left. exists ALIASUUID, b.
      split; [| split; [exact Hb16 | split; [exact Hbtxt |]]].
      * split; [exact Hlen | split; [exact Hmid |]]. left. now repeat split.
      * apply Hinstall. now left.
    + apply bool_decide_eq_false in Hc. cbn [andb orb].
      rewrite Ha. cbn [andb orb]. right. split; [| reflexivity].
      intros slot (_ & _ & [[[_ H] _] | [[H _] _]]); [contradiction |].
      rewrite Ha in H. discriminate.
  - apply bool_decide_eq_false in Ha. cbn [andb orb].
    destruct (bool_decide (substr pw 0 2 = _T "[~")) eqn:Hs.
    + apply bool_decide_eq_true in Hs.
      destruct (bool_decide (substr_from pw 34 = _T "~]")) eqn:Hc.
      * apply bool_decide_eq_true in Hc. cbn [andb orb]. left. exists SHORTCUTUUID, b.
        split; [| split; [exact Hb16 | split; [exact Hbtxt |]]].
        -- split; [exact Hlen | split; [exact Hmid |]]. right. now repeat split.
        -- apply Hinstall. now right.
      * apply bool_decide_eq_false in Hc. cbn [andb orb]. right.
        split; [| reflexivity].
        intros slot (_ & _ & [[[H _] _] | [[_ H] _]]); contradiction.
    + apply bool_decide_eq_false in Hs. cbn [andb orb]. right. split; [| reflexivity].
      intros slot (_ & _ & [[[H _] _] | [[H _] _]]); contradiction.
Qed.

(** C3, as the code has it. [ParseSpecialPasswords] installs a dependency
    link exactly when the password has length 36, is enclosed in [[[ ]]]
    (alias) or [[~ ~]] (shortcut) and its middle 32 characters are hex
    digits of either case: the payload is folded to lower case before it is
    tested. In that case [BASEUUID] receives the id the payload names, the
    entry's own id moves to the slot of the bracket kind, and the [UUID]
    slot is cleared; every other field, the unknown fields, the kind and the
    status stay. For every other password the record is returned as it
    was. *)
Theorem ParseSpecialPasswords_exact (r : CItemData) :
  let pw := GetPassword r in
  let r' := ParseSpecialPasswords r in
  (exists slot b,
      placeholder_shape is_hex_digit pw slot
      /\ length b = 16%nat
      /\ CUUID_to_StringX b = ToLower (substr pw 2 32)
      /\ r' = SetUUID (GetUUID r END) slot
                (ClearField UUID (SetUUID b BASEUUID r))
      /\ m_fields r' !! BASEUUID = Some b
      /\ m_fields r' !! UUID = None
      /\ (GetUUID r END <> [] -> m_fields r' !! slot = Some (GetUUID r END))
      /\ (forall ft, ft <> BASEUUID -> ft <> UUID -> ft <> slot ->
                     m_fields r' !! ft = m_fields r !! ft)
      /\ m_URFL r' = m_URFL r
      /\ m_entrytype r' = m_entrytype r
      /\ m_entrystatus r' = m_entrystatus r)
  \/ ((forall slot, ~ placeholder_shape is_hex_digit pw slot) /\ r' = r).
Proof. apply ParseSpecialPasswords_cases. Qed.

(** The claim as worded asks for lowercase hex digits; the password of
    [capital_hex_item] is not of that shape, and still the record is
    changed: the link is installed. *)
Lemma ParseSpecialPasswords_accepts_capital_hex :
  ~ (exists slot,
       placeholder_shape is_lower_hex_digit (GetPassword capital_hex_item) slot)
  /\ ParseSpecialPasswords capital_hex_item <> capital_hex_item
  /\ m_fields (ParseSpecialPasswords capital_hex_item) !! BASEUUID
     = Some (CUUID_of_StringX (_T "0123456789abcdef0123456789abcdef")).
Proof.
  split; [| split].
  - intros (slot & _ & Hhex & _).
    revert Hhex. apply (bool_decide_eq_false_1 _). vm_compute. reflexivity.
  - intros H.
    apply (f_equal (fun x => bool_decide (is_Some (m_fields x !! BASEUUID)))) in H.
    vm_compute in H. discriminate.
  - vm_compute. reflexivity.
Qed.
(** ** The store invariant *)

Lemma wf_store_lookup r ft v : wf_store r -> m_fields r !! ft = Some v -> v <> [].
Proof. intros Hwf Hv. exact (Hwf ft v Hv). Qed.

Lemma wf_store_SetField ft v r : wf_store r -> wf_store (CItem_SetField ft v r).
Proof.
  intros Hwf. unfold wf_store, CItem_SetField. simpl. destruct v as [| c v].
  - now apply map_Forall_delete.
  - apply map_Forall_insert_2; [discriminate | exact Hwf].
Qed.

Lemma wf_store_ClearField ft r : wf_store r -> wf_store (ClearField ft r).
Proof. intros Hwf. now apply map_Forall_delete. Qed.

Lemma wf_store_Clear r : wf_store (CItemData_Clear r).
Proof. apply map_Forall_empty. Qed.

Lemma GetField_SetField ft v r : CItem_GetField ft (CItem_SetField ft v r) = v.
Proof.
  unfold CItem_GetField, CItem_SetField. simpl. destruct v.
  - now rewrite lookup_delete_eq.
  - now rewrite lookup_insert_eq.
Qed.

Lemma GetField_SetField_ne ft ft' v r :
  ft <> ft' -> CItem_GetField ft' (CItem_SetField ft v r) = CItem_GetField ft' r.
Proof.
  intros Hne. unfold CItem_GetField, CItem_SetField. simpl. destruct v.
  - now rewrite lookup_delete_ne.
  - now rewrite lookup_insert_ne.
Qed.

Lemma lookup_SetField_ne ft ft' v r :
  ft <> ft' -> m_fields (CItem_SetField ft v r) !! ft' = m_fields r !! ft'.
Proof.
  intros Hne. unfold CItem_SetField. simpl. destruct v.
  - now rewrite lookup_delete_ne.
  - now rewrite lookup_insert_ne.
Qed.

(** Storing back what [GetField] read leaves a well-formed store as it
    was. *)
Lemma SetField_GetField_id ft v r :
  wf_store r ->
  CItem_SetField ft (CItem_GetField ft r) (CItem_SetField ft v r) = r.
Proof.
  intros Hwf. destruct r as [m u k s]. unfold CItem_SetField, CItem_GetField.
  simpl. f_equal.
  destruct (m !! ft) as [w |] eqn:Hw; simpl.
  - pose proof (Hwf ft w Hw) as Hne. simpl in Hne.
    destruct w as [| c w]; [contradiction |].
    destruct v; [rewrite insert_delete_eq | rewrite insert_insert_eq];
      now apply insert_id.
  - destruct v; [rewrite delete_delete_eq | rewrite delete_insert_eq];
      now apply delete_id.
Qed.

Lemma SetField_GetField_same ft r :
  wf_store r -> CItem_SetField ft (CItem_GetField ft r) r = r.
Proof.
  intros Hwf. destruct r as [m u k s]. unfold CItem_SetField, CItem_GetField.
  simpl. f_equal.
  destruct (m !! ft) as [w |] eqn:Hw; simpl.
  - pose proof (Hwf ft w Hw) as Hne. simpl in Hne.
    destruct w as [| c w]; [contradiction |]. now apply insert_id.
  - now apply delete_id.
Qed.

(** ** The placeholder codec is an inverse pair *)

Lemma lower_hex_fixed c : is_lower_hex_digit c -> lower c = c.
Proof.
  assert (Hall : Forall (fun c => lower c = c) hex_digits).
  { apply (bool_decide_eq_true_1 _). vm_compute. reflexivity. }
  rewrite Forall_forall in Hall. apply Hall.
Qed.

Lemma ToLower_lower_hex s : Forall is_lower_hex_digit s -> ToLower s = s.
Proof.
  intros H. rewrite ToLower_map. induction H as [| c s Hc _ IH]; [reflexivity |].
  simpl. now rewrite lower_hex_fixed, IH.
Qed.

Lemma lower_hex_is_hex c : is_lower_hex_digit c -> is_hex_digit c.
Proof. intros H. apply lower_hex_iff. now rewrite lower_hex_fixed. Qed.

(** The text [SetSpecialPasswords] builds has the placeholder shape. *)
Lemma bracketed_shape (o1 o2 c1 c2 : ascii) (mid : StringX) :
  length mid = 32%nat ->
  let pw := [o1; o2] ++ mid ++ [c1; c2] in
  length pw = 36%nat /\ substr pw 0 2 = [o1; o2] /\ substr pw 2 32 = mid
  /\ substr_from pw 34 = [c1; c2].
Proof.
  intros Hlen pw. subst pw. unfold substr, substr_from. repeat split.
  - rewrite !length_app, Hlen. reflexivity.
  - change (drop 2 ([o1; o2] ++ mid ++ [c1; c2])) with (mid ++ [c1; c2]).
    now apply take_app_length'.
  - change (drop 34 ([o1; o2] ++ mid ++ [c1; c2]))
      with (drop 32 (mid ++ [c1; c2])).
    now apply drop_app_length'.
Qed.

Section PlaceholderProperties.

Variable TIME_LEN : nat.
Variables minDCA maxDCA : Z.

Lemma Write_V3_record r out :
  (Write_V3 TIME_LEN minDCA maxDCA r out).2
  = SetPassword (GetPassword r) (SetSpecialPasswords r).
Proof.
  unfold Write_V3.
  destruct (WriteCommon TIME_LEN minDCA maxDCA (SetSpecialPasswords r) _).
  reflexivity.
Qed.

(** The legacy writer hands the record back as it received it. *)
Lemma Write_V3_restores r out :
  wf_store r -> (Write_V3 TIME_LEN minDCA maxDCA r out).2 = r.
Proof.
  intros Hwf. rewrite Write_V3_record. unfold SetSpecialPasswords, SetPassword,
    GetPassword.
  destruct (IsDependent r).
  - now apply SetField_GetField_id.
  - now apply SetField_GetField_same.
Qed.


End PlaceholderProperties.

Lemma wf_store_alias_item : wf_store alias_item.
Proof. repeat apply wf_store_SetField. apply map_Forall_empty. Qed.

(** ** What the writers emit *)

Lemma emit_nil out : emit [] out = out.
Proof. destruct out. unfold emit. simpl. now rewrite app_nil_r. Qed.

Lemma emit_emit cs cs' out : emit cs' (emit cs out) = emit (cs ++ cs') out.
Proof. unfold emit. simpl. now rewrite app_assoc. Qed.

Lemma WriteField_emit type data out :
  (WriteField type data out).1 = emit [(type, data)] out.
Proof. reflexivity. Qed.

Lemma foldl_emit {A} (f : A -> option chunk) (step : PWSfile -> A -> PWSfile)
    (tfl : nat) (l : list A) :
  (forall out a, timeFieldLen out = tfl ->
                 step out a = emit (option_list (f a)) out) ->
  forall out, timeFieldLen out = tfl -> foldl step out l = emit (omap f l) out.
Proof.
  intros Hstep. induction l as [| a l IH]; intros out Hout; simpl.
  - now rewrite emit_nil.
  - rewrite Hstep by exact Hout. rewrite IH by exact Hout.
    rewrite emit_emit. destruct (f a); reflexivity.
Qed.

Section WriterProperties.

Variable TIME_LEN : nat.
Variables minDCA maxDCA : Z.

Lemma WriteIfSet_text r ft out :
  WriteIfSet ft true r out = emit (option_list (text_chunk r ft)) out.
Proof.
  unfold WriteIfSet, text_chunk. destruct (m_fields r !! ft); simpl.
  - reflexivity.
  - now rewrite emit_nil.
Qed.

Lemma WriteIfSet_raw r ft out :
  WriteIfSet ft false r out = emit (option_list (raw_chunk r ft)) out.
Proof.
  unfold WriteIfSet, raw_chunk. destruct (m_fields r !! ft); simpl.
  - reflexivity.
  - now rewrite emit_nil.
Qed.

Lemma WriteBinary_raw r ft out :
  WriteBinary ft r out = emit (option_list (raw_chunk r ft)) out.
Proof.
  unfold WriteBinary, raw_chunk. destruct (m_fields r !! ft); simpl.
  - reflexivity.
  - now rewrite emit_nil.
Qed.

Lemma WriteTime_chunk r ft out :
  WriteTime TIME_LEN ft r out
  = emit (option_list (time_chunk TIME_LEN (timeFieldLen out) r ft)) out.
Proof.
  unfold WriteTime, time_chunk.
  repeat case_bool_decide; simpl; try reflexivity; now rewrite emit_nil.
Qed.

Lemma emit_chunk_if (b : bool) type data out :
  (if b then (WriteField type data out).1 else out)
  = emit (chunk_if b (type, data)) out.
Proof. destruct b; simpl; [reflexivity | now rewrite emit_nil]. Qed.

Lemma WriteUnknowns_emit r out : WriteUnknowns r out = emit (m_URFL r) out.
Proof.
  unfold WriteUnknowns. generalize (m_URFL r). intros l. revert out.
  induction l as [| [t d] l IH]; intros out; simpl.
  - now rewrite emit_nil.
  - rewrite IH. unfold emit. simpl. now rewrite <- app_assoc.
Qed.

(** The common part: the known fields that pass their presence filters,
    then every unknown field as it was stored, then the terminator. *)
Lemma WriteCommon_emits r out :
  WriteCommon TIME_LEN minDCA maxDCA r out
  = (SUCCESS,
     emit (known_chunks TIME_LEN minDCA maxDCA (timeFieldLen out) r
           ++ m_URFL r ++ [(END, [])]) out).
Proof.
  unfold WriteCommon. set (tfl := timeFieldLen out).
  rewrite (foldl_emit (text_chunk r) (fun o ft => WriteIfSet ft true r o)
             tfl TextFields)
    by (reflexivity || (intros; apply WriteIfSet_text)).
  rewrite (foldl_emit (time_chunk TIME_LEN tfl r)
             (fun o ft => WriteTime TIME_LEN ft r o) tfl TimeFields)
    by (reflexivity || (intros o a <-; apply WriteTime_chunk)).
  rewrite !emit_chunk_if, WriteIfSet_raw.
  rewrite (foldl_emit (raw_chunk r) (fun o ft => WriteBinary ft r o)
             tfl BinaryFields)
    by (reflexivity || (intros; apply WriteBinary_raw)).
  rewrite WriteUnknowns_emit.
  rewrite !emit_emit.
  match goal with
  | |- context [WriteField END [] ?o] =>
      change (WriteField END [] o) with (emit [(END, [])] o, 5)
  end.
  cbv beta iota. change (0 <? 5) with true. cbv iota.
  rewrite emit_emit. f_equal. f_equal.
  unfold known_chunks. rewrite <- !app_assoc.
  replace (omap (raw_chunk r) [PROTECTED])
    with (option_list (raw_chunk r PROTECTED))
    by (simpl; destruct (raw_chunk r PROTECTED); reflexivity).
  reflexivity.
Qed.

End WriterProperties.

(** ** Unknown fields *)

Lemma apply_edits_URFL es r : m_URFL (apply_edits es r) = m_URFL r.
Proof.
  unfold apply_edits. revert r.
  induction es as [| e es IH]; intros r; [reflexivity |].
  simpl. rewrite IH. destruct e; reflexivity.
Qed.

Lemma ParseSpecialPasswords_URFL r :
  m_URFL (ParseSpecialPasswords r) = m_URFL r.
Proof.
  destruct (ParseSpecialPasswords_cases r) as
    [(slot & b & _ & _ & _ & _ & _ & _ & _ & _ & H & _) | [_ H]].
  - exact H.
  - now rewrite H.
Qed.

Lemma finish_Read_URFL status numread r :
  m_URFL (finish_Read status numread r).2 = m_URFL r.
Proof.
  unfold finish_Read. destruct (0 <? numread); [| reflexivity].
  cbn [snd].
  repeat match goal with
         | |- context [if ?b then _ else _] => destruct b
         end; cbn [set_entrytype m_URFL]; apply ParseSpecialPasswords_URFL.
Qed.

Section UnknownFieldProperties.

Variable TIME_LEN : nat.
Variables minDCA maxDCA : Z.

Lemma SetField_unrecognised type data r :
  recognised type = false ->
  SetField TIME_LEN type data r = Some (SetUnknownField type data r).
Proof. destruct type; intros H; try discriminate H; reflexivity. Qed.

Lemma accept_unknown type data r :
  recognised type = false -> IsItemAttField type = false ->
  accept TIME_LEN (type, data) r = Some (SetUnknownField type data r).
Proof.
  intros Hrec Hatt. unfold accept. cbn [fst snd].
  rewrite bool_decide_eq_false_2 by (intros ->; discriminate).
  rewrite Hatt. destruct (IsItemDataField type); [| reflexivity].
  now apply SetField_unrecognised.
Qed.

(** Setting a field never removes an unknown field. *)
Lemma SetField_URFL ft data r r' :
  SetField TIME_LEN ft data r = Some r' ->
  exists extra, m_URFL r' = m_URFL r ++ extra.
Proof.
  intros H.
  assert (Hcases : m_URFL r' = m_URFL r
                   \/ m_URFL r' = m_URFL r ++ [(ft, data)]).
  { destruct ft; cbn [SetField] in H;
      unfold SetTextField, SetTimeField in H; try discriminate H;
      repeat (match type of H with
              | (if ?b then _ else _) = _ => destruct b
              | mbind _ ?o = _ => destruct o; cbn [mbind option_bind] in H
              end; try discriminate H);
      injection H as <-;
      try (left; reflexivity); try (right; reflexivity).
    all: left; unfold SetProtected;
      match goal with
      | |- context [if ?b then _ else _] => destruct b
      end; reflexivity. }
  destruct Hcases as [-> | ->]; [exists [] | eexists]; try reflexivity.
  now rewrite app_nil_r.
Qed.

Lemma Read_loop_URFL n : forall inp r numread,
  exists extra,
    m_URFL (Read_loop TIME_LEN n inp r numread).1.2 = m_URFL r ++ extra.
Proof.
  induction n as [| n IH]; intros inp r numread.
  - exists []. cbn [Read_loop fst]. rewrite finish_Read_URFL.
    now rewrite app_nil_r.
  - cbn [Read_loop]. unfold ReadField.
    destruct (fields inp) as [| [type data] rest].
    { exists []. cbn [fst]. rewrite finish_Read_URFL. now rewrite app_nil_r. }
    destruct (IsItemDataField type).
    + destruct (SetField TIME_LEN type data r) as [r1 |] eqn:Hset.
      * destruct (SetField_URFL _ _ _ _ Hset) as [e1 He1].
        case_bool_decide.
        -- exists e1. cbn [fst]. now rewrite finish_Read_URFL.
        -- destruct (IH (mkFile (timeFieldLen inp) rest) r1
                       (numread + chunk_size (type, data))) as [e2 He2].
           exists (e1 ++ e2). now rewrite He2, He1, app_assoc.
      * exists []. cbn [fst]. rewrite finish_Read_URFL. now rewrite app_nil_r.
    + destruct (IsItemAttField type).
      { exists []. cbn [fst snd]. now rewrite app_nil_r. }
      case_bool_decide.
      * exists []. cbn [fst]. rewrite finish_Read_URFL. now rewrite app_nil_r.
      * destruct (IH (mkFile (timeFieldLen inp) rest)
                     (SetUnknownField type data r)
                     (numread + chunk_size (type, data))) as [e2 He2].
        exists ([(type, data)] ++ e2). rewrite He2. cbn [SetUnknownField m_URFL].
        now rewrite <- app_assoc.
Qed.

Lemma load_URFL pre : forall r r',
  load TIME_LEN pre r = Some r' -> exists extra, m_URFL r' = m_URFL r ++ extra.
Proof.
  induction pre as [| c pre IH]; intros r r' H.
  - injection H as <-. exists []. now rewrite app_nil_r.
  - cbn [load] in H.
    destruct (accept TIME_LEN c r) as [r1 |] eqn:Hacc; [| discriminate H].
    cbn [mbind option_bind] in H.
    destruct (IH _ _ H) as [e2 He2].
    assert (exists e1, m_URFL r1 = m_URFL r ++ e1) as [e1 He1].
    { unfold accept in Hacc.
      repeat match type of Hacc with
             | (if ?b then _ else _) = _ => destruct b; try discriminate Hacc
             end.
      - eapply SetField_URFL; eassumption.
      - injection Hacc as <-. eexists. reflexivity. }
    exists (e1 ++ e2). now rewrite He2, He1, app_assoc.
Qed.

Lemma Write_V3_unfold r out :
  Write_V3 TIME_LEN minDCA maxDCA r out
  = (SUCCESS,
     emit ((UUID, GetUUID r (id_slot r))
           :: known_chunks TIME_LEN minDCA maxDCA (timeFieldLen out)
                (SetSpecialPasswords r)
           ++ m_URFL r ++ [(END, [])]) out,
     SetPassword (GetPassword r) (SetSpecialPasswords r)).
Proof.
  unfold Write_V3. cbv zeta.
  rewrite (WriteCommon_emits TIME_LEN minDCA maxDCA (SetSpecialPasswords r)
             (WriteField UUID (GetUUID r (id_slot r)) out).1).
  rewrite WriteField_emit, emit_emit.
  replace (m_URFL (SetSpecialPasswords r)) with (m_URFL r)
    by (unfold SetSpecialPasswords; destruct (IsDependent r); reflexivity).
  reflexivity.
Qed.

Lemma Write_V4_unfold r out :
  Write_V4 TIME_LEN minDCA maxDCA r out
  = (SUCCESS,
     emit ((id_slot r, GetUUID r (id_slot r))
           :: link_chunks r
           ++ known_chunks TIME_LEN minDCA maxDCA (timeFieldLen out) r
           ++ m_URFL r ++ [(END, [])]) out).
Proof.
  unfold Write_V4. cbv zeta.
  rewrite (emit_chunk_if (IsDependent r)).
  rewrite (emit_chunk_if (IsFieldSet ATTREF r)).
  rewrite WriteCommon_emits, WriteField_emit, !emit_emit.
  unfold link_chunks. cbn [app timeFieldLen emit]. rewrite <- !app_assoc.
  reflexivity.
Qed.

Lemma Write_V3_emits r out :
  exists known,
    fields (Write_V3 TIME_LEN minDCA maxDCA r out).1.2
    = fields out ++ known ++ m_URFL r ++ [(END, [])].
Proof.
  exists ((UUID, GetUUID r (id_slot r))
          :: known_chunks TIME_LEN minDCA maxDCA (timeFieldLen out)
               (SetSpecialPasswords r)).
  rewrite Write_V3_unfold. reflexivity.
Qed.

Lemma Write_V4_emits r out :
  exists known,
    fields (Write_V4 TIME_LEN minDCA maxDCA r out).2
    = fields out ++ known ++ m_URFL r ++ [(END, [])].
Proof.
  exists ((id_slot r, GetUUID r (id_slot r))
          :: link_chunks r
          ++ known_chunks TIME_LEN minDCA maxDCA (timeFieldLen out) r).
  rewrite Write_V4_unfold. cbn [fst snd emit fields].
  f_equal. cbn [app]. f_equal. now rewrite <- app_assoc.
Qed.

(** C8. A chunk that [Read] reaches and whose tag is not one [SetField]
    knows, not the terminator and not an attachment tag, is stored among
    the unknown fields with its tag and its bytes; no change made to the
    record through its setters touches the unknown fields; and both writers
    emit every stored unknown field, tag and bytes as stored and in the
    stored order, right before the terminator. So the chunk is in what
    either writer emits after any such changes. *)
Theorem unknown_field_preserved (inp : PWSfile) (r : CItemData)
    (pre post : list chunk) (type : FieldType) (data : list ascii)
    (edits : list edit) (out3 out4 : PWSfile) :
  fields inp = pre ++ (type, data) :: post ->
  (length pre < 255)%nat ->
  is_Some (load TIME_LEN pre (CItemData_Clear r)) ->
  recognised type = false -> IsItemAttField type = false ->
  let r1 := (Read TIME_LEN inp r).1.2 in
  let r2 := apply_edits edits r1 in
  (type, data) ∈ m_URFL r1
  /\ m_URFL r2 = m_URFL r1
  /\ (exists known,
        fields (Write_V3 TIME_LEN minDCA maxDCA r2 out3).1.2
        = fields out3 ++ known ++ m_URFL r2 ++ [(END, [])])
  /\ (exists known,
        fields (Write_V4 TIME_LEN minDCA maxDCA r2 out4).2
        = fields out4 ++ known ++ m_URFL r2 ++ [(END, [])])
  /\ (type, data) ∈ fields (Write_V3 TIME_LEN minDCA maxDCA r2 out3).1.2
  /\ (type, data) ∈ fields (Write_V4 TIME_LEN minDCA maxDCA r2 out4).2.
Proof.
  intros Hinp Hlen [r0 Hload] Hrec Hatt r1 r2.
  assert (H1 : (type, data) ∈ m_URFL r1).
  { subst r1. unfold Read. destruct inp as [tfl cs]. cbn [fields] in Hinp.
    subst cs.
    rewrite (Read_loop_prefix TIME_LEN pre 255 tfl _ _ r0 0 Hload) by lia.
    destruct (255 - length pre)%nat as [| k] eqn:Hk; [lia |].
    rewrite (Read_loop_accept TIME_LEN k tfl (type, data) post r0 _ _
               (accept_unknown type data r0 Hrec Hatt)).
    destruct (Read_loop_URFL k (mkFile tfl post) (SetUnknownField type data r0)
                (0 + stream_size pre + chunk_size (type, data))) as [e He].
    rewrite He. cbn [SetUnknownField m_URFL].
    rewrite !elem_of_app, list_elem_of_singleton. auto. }
  assert (H2 : m_URFL r2 = m_URFL r1) by apply apply_edits_URFL.
  destruct (Write_V3_emits r2 out3) as [k3 Hk3].
  destruct (Write_V4_emits r2 out4) as [k4 Hk4].
  split; [exact H1 |]. split; [exact H2 |].
  split; [eauto |]. split; [eauto |].
  rewrite Hk3, Hk4, H2, !elem_of_app. auto.
Qed.

End UnknownFieldProperties.

Lemma unknown_field_preserved_witness :
  let r1 := (Read 5 (mkFile 5 stream_with_unknown) empty_item).1.2 in
  let r2 := apply_edits [EditSet NOTES (_T "changed")] r1 in
  (OTHER 223, _T "future") ∈ m_URFL r1
  /\ m_URFL r2 = m_URFL r1
  /\ (exists known,
        fields (Write_V3 5 0 9 r2 (mkFile 4 [])).1.2
        = fields (mkFile 4 []) ++ known ++ m_URFL r2 ++ [(END, [])])
  /\ (exists known,
        fields (Write_V4 5 0 9 r2 (mkFile 5 [])).2
        = fields (mkFile 5 []) ++ known ++ m_URFL r2 ++ [(END, [])])
  /\ (OTHER 223, _T "future") ∈ fields (Write_V3 5 0 9 r2 (mkFile 4 [])).1.2
  /\ (OTHER 223, _T "future") ∈ fields (Write_V4 5 0 9 r2 (mkFile 5 [])).2.
Proof.
  apply (unknown_field_preserved 5 0 9 (mkFile 5 stream_with_unknown)
           empty_item [(UUID, sample_uuid 7); (TITLE, _T "Bank")]
           [(PASSWORD, _T "p1"); (END, [])] (OTHER 223) (_T "future")).
  - reflexivity.
  - simpl. lia.
  - vm_compute. eexists. reflexivity.
  - reflexivity.
  - reflexivity.
Defined.
(** ** Fixed-width integers *)

Lemma ord_chr n : (n < 256)%N -> ord (chr n) = Z.of_N n.
Proof. intros H. unfold ord, chr. now rewrite N_ascii_embedding. Qed.

Lemma chr_ord c : chr (Z.to_N (ord c)) = c.
Proof. unfold ord, chr. now rewrite N2Z.id, ascii_N_embedding. Qed.

Lemma ord_range c : 0 <= ord c < 256.
Proof. unfold ord. pose proof (N_ascii_bounded c). lia. Qed.

Lemma length_le_bytes w : forall z, length (le_bytes w z) = w.
Proof. induction w as [| w IH]; intros z; simpl; [reflexivity | now rewrite IH]. Qed.

Lemma pow256_succ w : 2 ^ (8 * Z.of_nat (S w)) = 256 * 2 ^ (8 * Z.of_nat w).
Proof.
  replace (8 * Z.of_nat (S w)) with (8 + 8 * Z.of_nat w) by lia.
  rewrite Z.pow_add_r by lia. reflexivity.
Qed.

Lemma pow256_pos w : 0 < 2 ^ (8 * Z.of_nat w).
Proof. apply Z.pow_pos_nonneg; lia. Qed.

Lemma le_unsigned_le_bytes w : forall z,
  le_unsigned (le_bytes w z) = z mod 2 ^ (8 * Z.of_nat w).
Proof.
  induction w as [| w IH]; intros z.
  - simpl. now rewrite Z.mod_1_r.
  - cbn [le_bytes le_unsigned]. rewrite IH, pow256_succ.
    rewrite ord_chr by (pose proof (Z.mod_pos_bound z 256); lia).
    rewrite Z2N.id by (pose proof (Z.mod_pos_bound z 256); lia).
    pose proof (pow256_pos w).
    rewrite (Z.rem_mul_r z 256) by lia. reflexivity.
Qed.

Lemma le_unsigned_range l : 0 <= le_unsigned l < 2 ^ (8 * Z.of_nat (length l)).
Proof.
  induction l as [| c l IH].
  - simpl. lia.
  - cbn [le_unsigned length]. rewrite pow256_succ.
    pose proof (ord_range c). lia.
Qed.

Lemma le_bytes_le_unsigned l : le_bytes (length l) (le_unsigned l) = l.
Proof.
  induction l as [| c l IH]; [reflexivity |].
  cbn [le_unsigned length le_bytes]. pose proof (ord_range c).
  f_equal.
  - replace ((ord c + 256 * le_unsigned l) mod 256) with (ord c).
    + apply chr_ord.
    + replace (ord c + 256 * le_unsigned l)
        with (ord c + le_unsigned l * 256) by lia.
      rewrite Z.mod_add by lia. now rewrite Z.mod_small.
  - replace ((ord c + 256 * le_unsigned l) / 256) with (le_unsigned l);
      [exact IH |].
    replace (ord c + 256 * le_unsigned l)
      with (ord c + le_unsigned l * 256) by lia.
    rewrite Z.div_add by lia. rewrite (Z.div_small (ord c)) by lia. lia.
Qed.

Lemma le_bytes_mod w : forall z,
  le_bytes w (z mod 2 ^ (8 * Z.of_nat w)) = le_bytes w z.
Proof.
  intros z. rewrite <- le_unsigned_le_bytes.
  rewrite <- (length_le_bytes w z) at 1. apply le_bytes_le_unsigned.
Qed.

Lemma le_bytes_shift w z k :
  le_bytes w (z + k * 2 ^ (8 * Z.of_nat w)) = le_bytes w z.
Proof.
  rewrite <- (le_bytes_mod w (z + _)), Z.mod_add by (pose proof (pow256_pos w); lia).
  apply le_bytes_mod.
Qed.

Lemma le_signed_le_bytes w z :
  (0 < w)%nat ->
  - 2 ^ (8 * Z.of_nat w - 1) <= z < 2 ^ (8 * Z.of_nat w - 1) ->
  le_signed w (le_bytes w z) = z.
Proof.
  intros Hw Hz. unfold le_signed.
  rewrite firstn_all2 by (rewrite length_le_bytes; lia).
  rewrite le_unsigned_le_bytes.
  assert (Hp : 2 ^ (8 * Z.of_nat w) = 2 * 2 ^ (8 * Z.of_nat w - 1)).
  { rewrite <- Z.pow_succ_r by lia. f_equal. lia. }
  destruct (Z_lt_ge_dec z 0) as [Hneg | Hpos].
  - replace (z mod 2 ^ (8 * Z.of_nat w)) with (z + 2 ^ (8 * Z.of_nat w)).
    + destruct (Z.ltb_spec (z + 2 ^ (8 * Z.of_nat w)) (2 ^ (8 * Z.of_nat w - 1)));
        lia.
    + apply Z.mod_unique with (q := -1); lia.
  - rewrite Z.mod_small by lia.
    destruct (Z.ltb_spec z (2 ^ (8 * Z.of_nat w - 1))); lia.
Qed.

Lemma le_bytes_le_signed w l :
  length l = w -> le_bytes w (le_signed w l) = l.
Proof.
  intros Hl. unfold le_signed.
  rewrite firstn_all2 by lia.
  destruct (le_unsigned l <? 2 ^ (8 * Z.of_nat w - 1)).
  - subst w. apply le_bytes_le_unsigned.
  - replace (le_unsigned l - 2 ^ (8 * Z.of_nat w))
      with (le_unsigned l + (-1) * 2 ^ (8 * Z.of_nat w)) by lia.
    rewrite le_bytes_shift. subst w. apply le_bytes_le_unsigned.
Qed.

Lemma le_unsigned_le_bytes_small w z :
  0 <= z < 2 ^ (8 * Z.of_nat w) -> le_unsigned (le_bytes w z) = z.
Proof. intros H. rewrite le_unsigned_le_bytes. now apply Z.mod_small. Qed.

Lemma le_bytes_nonempty w z : (0 < w)%nat -> le_bytes w z <> [].
Proof. destruct w; [lia | discriminate]. Qed.
(** ** The text of the password history *)

Lemma hex_value_digit d : 0 <= d < 16 -> hex_value (hex_digit d) = d.
Proof.
  intros H. rewrite <- (Z2Nat.id d) at 2 by lia. unfold hex_digit.
  assert (Z.to_nat d < 16)%nat as Hn by lia.
  remember (Z.to_nat d) as n eqn:Heqn. clear Heqn H.
  do 16 (destruct n as [| n]; [reflexivity |]). lia.
Qed.

Lemma hex_number_snoc s c :
  hex_number (s ++ [c]) = 16 * hex_number s + hex_value c.
Proof. unfold hex_number. now rewrite foldl_app. Qed.

Lemma length_hex_fixed w : forall z, length (hex_fixed w z) = w.
Proof.
  induction w as [| w IH]; intros z; [reflexivity |].
  cbn [hex_fixed]. rewrite length_app, IH. simpl. lia.
Qed.

Lemma hex_number_fixed w : forall z,
  0 <= z < 16 ^ Z.of_nat w -> hex_number (hex_fixed w z) = z.
Proof.
  induction w as [| w IH]; intros z Hz.
  - simpl in Hz. assert (z = 0) as -> by lia. reflexivity.
  - cbn [hex_fixed]. rewrite hex_number_snoc.
    rewrite Nat2Z.inj_succ, Z.pow_succ_r in Hz by lia.
    rewrite IH.
    + rewrite hex_value_digit by (apply Z.mod_pos_bound; lia).
      pose proof (Z.div_mod z 16). lia.
    + split; [apply Z.div_pos; lia |].
      apply Z.div_lt_upper_bound; lia.
Qed.

Lemma hex_fixed_head_one : hex_fixed 1 1 = _T "1".
Proof. reflexivity. Qed.

Lemma split_fields (a b c : StringX) (n m : nat) :
  length a = n -> length b = m ->
  take n (a ++ b ++ c) = a /\ take m (drop n (a ++ b ++ c)) = b
  /\ drop (n + m) (a ++ b ++ c) = c.
Proof.
  intros <- <-. repeat split.
  - apply take_app_length.
  - rewrite drop_app_length. apply take_app_length.
  - rewrite <- drop_drop, drop_app_length.
    apply drop_app_length.
Qed.

Section HistoryCodec.

Variable ConvertToDateTimeString : Z -> StringX.
Variable IDSC_UNKNOWN : StringX.

Local Abbreviation display_date :=
  (display_date ConvertToDateTimeString IDSC_UNKNOWN).
Local Abbreviation parse_entries :=
  (parse_entries ConvertToDateTimeString IDSC_UNKNOWN).
Local Abbreviation PWHistList_parse :=
  (PWHistList_parse ConvertToDateTimeString IDSC_UNKNOWN).
Local Abbreviation entry_ok := (entry_ok ConvertToDateTimeString IDSC_UNKNOWN).
Local Abbreviation history_ok :=
  (history_ok ConvertToDateTimeString IDSC_UNKNOWN).

Lemma parse_format_entries es : forall rest,
  Forall entry_ok es ->
  parse_entries (length es) (concat (map format_entry es) ++ rest) = es.
Proof.
  induction es as [| e es IH]; intros rest Hok; [reflexivity |].
  apply Forall_cons in Hok as [(Ht & Hl & Hd) Hok].
  cbn [length map concat]. unfold format_entry at 1.
  rewrite <- !app_assoc.
  set (tail := concat (map format_entry es) ++ rest).
  destruct (split_fields (hex_fixed 8 (changetttdate e))
              (hex_fixed 4 (Z.of_nat (length (password e))))
              (password e ++ tail) 8 4)
    as (H1 & H2 & H3); try apply length_hex_fixed.
  cbn [parse_entries]. change (8 + 4)%nat with 12%nat in H3.
  rewrite H1, H2, H3.
  rewrite !hex_number_fixed by (simpl; lia).
  rewrite Nat2Z.id, take_app_length, drop_app_length.
  subst tail. rewrite IH by exact Hok.
  destruct e as [t d p]. simpl in *. now rewrite Hd.
Qed.

Lemma evict_length h : (length (evict h) <= getMax h)%nat.
Proof. unfold evict. rewrite length_drop. lia. Qed.

Lemma evict_ok h : Forall entry_ok (entries h) -> Forall entry_ok (evict h).
Proof. intros H. unfold evict. now apply Forall_drop. Qed.

(** Formatting and parsing again gives the list after eviction. *)
Lemma parse_format_history h :
  history_ok h ->
  PWHistList_parse (PWHistList_to_StringX h)
  = mkHist (isSaving h) (getMax h) (evict h).
Proof.
  intros [Hmax Hes]. unfold PWHistList_parse, PWHistList_to_StringX,
    MakePWHistoryHeader.
  pose proof (evict_length h) as Hlen.
  set (kept := evict h) in *.
  set (flag := if isSaving h then 1 else 0).
  rewrite bool_decide_eq_false_2; cycle 1.
  { rewrite !length_app, !length_hex_fixed. lia. }
  rewrite <- !app_assoc.
  destruct (split_fields (hex_fixed 1 flag) (hex_fixed 2 (Z.of_nat (getMax h)))
              (hex_fixed 2 (Z.of_nat (length kept))
               ++ concat (map format_entry kept)) 1 2)
    as (H1 & H2 & H3); try apply length_hex_fixed.
  change (1 + 2)%nat with 3%nat in H3.
  rewrite H1, H2, H3.
  change 5%nat with (3 + 2)%nat. rewrite <- drop_drop, H3.
  rewrite take_app_length', drop_app_length' by now rewrite length_hex_fixed.
  rewrite !hex_number_fixed
    by (try (subst flag; destruct (isSaving h)); simpl; lia).
  rewrite !Nat2Z.id.
  rewrite <- (app_nil_r (concat _)), parse_format_entries
    by (subst kept; now apply evict_ok).
  f_equal. subst flag. now destruct (isSaving h).
Qed.

End HistoryCodec.
(** ** Updating the password *)

Section HistoryProperties.

Variable ConvertToDateTimeString : Z -> StringX.
Variable IDSC_UNKNOWN : StringX.

Local Abbreviation display_date :=
  (display_date ConvertToDateTimeString IDSC_UNKNOWN).
Local Abbreviation PWHistList_parse :=
  (PWHistList_parse ConvertToDateTimeString IDSC_UNKNOWN).
Local Abbreviation UpdatePasswordHistory :=
  (UpdatePasswordHistory ConvertToDateTimeString IDSC_UNKNOWN).
Local Abbreviation UpdatePassword :=
  (UpdatePassword ConvertToDateTimeString IDSC_UNKNOWN).
Local Abbreviation consulted_history :=
  (consulted_history ConvertToDateTimeString IDSC_UNKNOWN).
Local Abbreviation history_log :=
  (history_log ConvertToDateTimeString IDSC_UNKNOWN).
Local Abbreviation entry_ok := (entry_ok ConvertToDateTimeString IDSC_UNKNOWN).
Local Abbreviation history_ok :=
  (history_ok ConvertToDateTimeString IDSC_UNKNOWN).

Lemma UpdatePasswordHistory_cases prefs r :
  let h := consulted_history prefs r in
  let t0 := old_password_time r in
  UpdatePasswordHistory prefs r
  = if isSaving h then
      SetPWHistory
        (PWHistList_to_StringX
           (addEntry (mkEntry t0 (display_date t0) (GetPassword r)) h)) r
    else r.
Proof.
  unfold UpdatePasswordHistory, consulted_history,
    old_password_time.
  destruct (GetPWHistory r) as [| c s] eqn:Hs.
  - cbn [setMax setSaving isSaving getMax entries PWHistList_parse].
    destruct (SavePasswordHistory prefs); reflexivity.
  - cbv zeta. destruct (isSaving _); reflexivity.
Qed.

Lemma to_StringX_saving h :
  isSaving h = true ->
  exists s, PWHistList_to_StringX h = "1"%char :: s.
Proof.
  intros Hs. unfold PWHistList_to_StringX, MakePWHistoryHeader. rewrite Hs.
  rewrite <- !app_assoc. eexists. reflexivity.
Qed.

Lemma SetPWHistory_saving s r :
  SetPWHistory ("1"%char :: s) r = CItem_SetField PWHIST ("1"%char :: s) r.
Proof.
  unfold SetPWHistory.
  rewrite !bool_decide_eq_false_2 by discriminate. reflexivity.
Qed.

Lemma GetPWHistory_saving s r :
  m_fields r !! PWHIST = Some ("1"%char :: s) ->
  GetPWHistory r = "1"%char :: s.
Proof.
  intros H. unfold GetPWHistory, CItem_GetField. rewrite H. cbn [default].
  rewrite !bool_decide_eq_false_2 by discriminate. reflexivity.
Qed.

(** What follows the history update touches the password and the two
    times only. *)
Lemma UpdatePassword_other_fields prefs now pw r ft :
  ft <> PASSWORD -> ft <> PMTIME -> ft <> XTIME ->
  m_fields (UpdatePassword prefs now pw r) !! ft
  = m_fields (UpdatePasswordHistory prefs r) !! ft.
Proof.
  intros H1 H2 H3. unfold UpdatePassword. cbv zeta.
  destruct (negb _); unfold SetXTime, SetPMTime, SetPassword, CItem_SetTime;
    rewrite !lookup_SetField_ne by congruence; reflexivity.
Qed.

Lemma UpdatePassword_password prefs now pw r :
  GetPassword (UpdatePassword prefs now pw r) = pw.
Proof.
  unfold UpdatePassword. cbv zeta.
  destruct (negb _); unfold SetXTime, SetPMTime, GetPassword, CItem_SetTime;
    rewrite !GetField_SetField_ne by discriminate; apply GetField_SetField.
Qed.

Lemma GetTime_SetTime ft t r :
  - 2 ^ 63 <= t < 2 ^ 63 -> CItem_GetTime ft (CItem_SetTime ft t r) = t.
Proof.
  intros Ht. unfold CItem_GetTime, CItem_SetTime, CItem_SetField.
  cbn [m_fields le_bytes]. rewrite lookup_insert_eq.
  change (chr _ :: _) with (le_bytes 8 t).
  apply le_signed_le_bytes; [lia | exact Ht].
Qed.

Lemma UpdatePassword_PMTime prefs now pw r :
  - 2 ^ 63 <= now < 2 ^ 63 -> GetPMTime (UpdatePassword prefs now pw r) = now.
Proof.
  intros Hnow. unfold UpdatePassword. cbv zeta.
  match goal with
  | |- GetPMTime (if _ then SetXTime ?a ?x else SetXTime ?b ?x) = _ =>
      assert (forall t, GetPMTime (SetXTime t x) = now) as Hx
  end.
  { intros t. unfold GetPMTime, SetXTime, CItem_GetTime, CItem_SetTime.
    rewrite lookup_SetField_ne by discriminate.
    apply (GetTime_SetTime PMTIME now _ Hnow). }
  destruct (negb _); apply Hx.
Qed.

(** The history field after the update: as it was when saving is off, the
    formatted list with the old password appended when it is on. *)
Lemma PWHistory_after_UpdatePassword prefs now newpw r :
  let h := consulted_history prefs r in
  let t0 := old_password_time r in
  let old := mkEntry t0 (display_date t0) (GetPassword r) in
  let r' := UpdatePassword prefs now newpw r in
  (isSaving h = false -> m_fields r' !! PWHIST = m_fields r !! PWHIST)
  /\ (isSaving h = true ->
      GetPWHistory r' = PWHistList_to_StringX (addEntry old h)
      /\ (history_ok h -> entry_ok old ->
          PWHistList_parse (GetPWHistory r')
          = mkHist true (getMax h)
              (drop (length (entries h) + 1 - getMax h)
                    (entries h ++ [old])))).
Proof.
  intros h t0 old r'.
  assert (Hf : m_fields r' !! PWHIST
               = m_fields (UpdatePasswordHistory prefs r) !! PWHIST).
  { apply UpdatePassword_other_fields; discriminate. }
  rewrite UpdatePasswordHistory_cases in Hf. fold h t0 old in Hf.
  split; intros Hs; rewrite Hs in Hf; [exact Hf |].
  assert (Hs' : isSaving (addEntry old h) = true) by exact Hs.
  destruct (to_StringX_saving _ Hs') as [s Htxt].
  rewrite Htxt, SetPWHistory_saving in Hf.
  unfold CItem_SetField in Hf. cbn [m_fields] in Hf.
  rewrite lookup_insert_eq in Hf.
  assert (Hget : GetPWHistory r' = PWHistList_to_StringX (addEntry old h)).
  { rewrite Htxt. now apply GetPWHistory_saving. }
  split; [exact Hget |].
  intros [Hmax Hes] Hold.
  rewrite Hget, parse_format_history.
  - unfold evict. cbn [addEntry isSaving getMax entries]. rewrite Hs.
    rewrite length_app. reflexivity.
  - split; [exact Hmax |]. cbn [addEntry entries].
    apply Forall_app. split; [exact Hes | now constructor].
Qed.

(** The first entry of a history: a record that holds no history, updated
    with saving on by preference and a default maximum of 1 to 255, ends
    with the single entry of its old password, stamped with the time that
    password was set. *)
Lemma UpdatePassword_first_entry prefs now newpw r :
  GetPWHistory r = [] ->
  SavePasswordHistory prefs = true ->
  (0 < NumPWHistoryDefault prefs < 256)%nat ->
  0 <= old_password_time r < 2 ^ 32 ->
  Z.of_nat (length (GetPassword r)) < 65536 ->
  history_log (UpdatePassword prefs now newpw r)
  = [(GetPassword r, old_password_time r)].
Proof.
  intros Hempty Hsave Hmax Ht0 Hpw.
  assert (Hh : consulted_history prefs r
               = mkHist true (NumPWHistoryDefault prefs) []).
  { unfold consulted_history. now rewrite Hempty, Hsave. }
  destruct (PWHistory_after_UpdatePassword prefs now newpw r) as [_ Hon].
  cbv zeta in Hon. rewrite Hh in Hon. cbn [isSaving getMax entries] in Hon.
  destruct (Hon eq_refl) as [_ Hparse].
  unfold history_log. fold PWHistList_parse. rewrite Hparse.
  - cbn [entries length app].
    replace (0 + 1 - NumPWHistoryDefault prefs)%nat with 0%nat by lia.
    reflexivity.
  - split; [cbn [getMax]; lia | constructor].
  - split; [exact Ht0 | split; [exact Hpw | reflexivity]].
Qed.

(** C7, as the code has it. Updating the password stores the new password
    and stamps the password-modified time with the time of the call. When
    history saving is off (by the record's own history, or by preference
    when the record holds no history) the history field is left as it was.
    When it is on, the history becomes the formatted list with one entry
    appended: the old password, stamped not with the time of the call but
    with the time the old password was set (the former password-modified
    time, or the creation time when that is unset); formatting keeps the
    newest entries up to the maximum, evicting the oldest first. When the
    history that was there is well formed (a maximum below 256, times of 32
    bits, passwords shorter than 65536 characters) and the old password
    and its time are within the same bounds, the history read back is the
    old entries with the new one appended, less the oldest in excess of
    the maximum. A record without history, updated with saving on by
    preference and a default maximum of 1 to 255, ends with the single
    entry (old password, its time); in the scenario, the entry "Bank"
    with the password "p1" and no times ends with the single entry
    ("p1", 0), whatever the time of the call. *)
Theorem UpdatePassword_history (prefs : PWSprefs) (now : Z) (newpw : StringX)
    (r : CItemData) :
  let h := consulted_history prefs r in
  let t0 := old_password_time r in
  let old := mkEntry t0 (display_date t0) (GetPassword r) in
  let r' := UpdatePassword prefs now newpw r in
  let saving_by_preference :=
    SavePasswordHistory prefs = true
    /\ (0 < NumPWHistoryDefault prefs < 256)%nat in
  GetPassword r' = newpw
  /\ (- 2 ^ 63 <= now < 2 ^ 63 -> GetPMTime r' = now)
  /\ (isSaving h = false -> m_fields r' !! PWHIST = m_fields r !! PWHIST)
  /\ (isSaving h = true ->
      GetPWHistory r' = PWHistList_to_StringX (addEntry old h)
      /\ (history_ok h -> entry_ok old ->
          PWHistList_parse (GetPWHistory r')
          = mkHist true (getMax h)
              (drop (length (entries h) + 1 - getMax h)
                    (entries h ++ [old]))))
  /\ (GetPWHistory r = [] -> saving_by_preference ->
      0 <= t0 < 2 ^ 32 -> Z.of_nat (length (GetPassword r)) < 65536 ->
      history_log r' = [(GetPassword r, t0)])
  /\ (saving_by_preference -> - 2 ^ 63 <= now < 2 ^ 63 ->
      let bank' := UpdatePassword prefs now newpw bank_item in
      GetTitle bank_item = _T "Bank" /\ GetPassword bank_item = _T "p1"
      /\ history_log bank' = [(_T "p1", 0)]
      /\ GetPassword bank' = newpw
      /\ GetPMTime bank' = now).
Proof.
  intros h t0 old r' saving_by_preference.
  split; [apply UpdatePassword_password |].
  split; [apply UpdatePassword_PMTime |].
  destruct (PWHistory_after_UpdatePassword prefs now newpw r) as [Hoff Hon].
  split; [exact Hoff |]. split; [exact Hon |].
  split.
  - intros Hempty [Hsave Hmax] Ht0 Hpw.
    now apply UpdatePassword_first_entry.
  - intros [Hsave Hmax] Hnow bank'.
    split; [reflexivity |]. split; [reflexivity |].
    split; [| split].
    + apply (UpdatePassword_first_entry prefs now newpw bank_item);
        [reflexivity | exact Hsave | exact Hmax
        | vm_compute; split; [discriminate | reflexivity]
        | vm_compute; reflexivity].
    + apply UpdatePassword_password.
    + now apply UpdatePassword_PMTime.
Qed.

End HistoryProperties.

(** The claim has the single history entry stamped with the time of the
    call. The password and the password-modified time are as claimed, but
    the entry carries the time the old password was set, here 0. *)
Lemma UpdatePassword_entry_not_stamped_with_call_time :
  GetTitle bank_item = _T "Bank" /\ GetPassword bank_item = _T "p1"
  /\ GetPassword scenario_after = _T "p2"
  /\ GetPMTime scenario_after = scenario_time
  /\ history_log (fun _ => []) (_T "Unknown") scenario_after = [(_T "p1", 0)]
  /\ history_log (fun _ => []) (_T "Unknown") scenario_after
     <> [(_T "p1", scenario_time)].
Proof.
  assert (H : history_log (fun _ => []) (_T "Unknown") scenario_after
              = [(_T "p1", 0)]) by (vm_compute; reflexivity).
  repeat split; try (vm_compute; reflexivity); try exact H.
  rewrite H. discriminate.
Qed.
(** ** Writing and reading back *)

Section Loading.

Variable TIME_LEN : nat.

(** Loading chunks that each restore the value a target map [M] holds
    under their tag fills the store with a part of [M] that covers the tags
    of the chunks. *)
Lemma load_restores (M : gmap FieldType (list ascii)) cs : forall r0,
  Forall (fun c => exists v, M !! c.1 = Some v /\ restores TIME_LEN c v) cs ->
  (forall k v, m_fields r0 !! k = Some v -> M !! k = Some v) ->
  exists r1,
    load TIME_LEN cs r0 = Some r1
    /\ (forall k v, m_fields r1 !! k = Some v -> M !! k = Some v)
    /\ (forall k, k ∈ cs.*1 -> is_Some (m_fields r1 !! k))
    /\ (forall k, is_Some (m_fields r0 !! k) -> is_Some (m_fields r1 !! k))
    /\ m_URFL r1 = m_URFL r0
    /\ m_entrytype r1 = m_entrytype r0
    /\ m_entrystatus r1 = m_entrystatus r0.
Proof.
  induction cs as [| c cs IH]; intros r0 Hcs Hsub.
  - exists r0. repeat split; auto. intros k Hk. inversion Hk.
  - apply Forall_cons in Hcs as [(v & HM & Hne & Hacc) Hcs].
    destruct v as [| a v]; [contradiction |].
    set (r0' := CItem_SetField c.1 (a :: v) r0).
    assert (Hsub' : forall k w, m_fields r0' !! k = Some w -> M !! k = Some w).
    { intros k w. subst r0'. unfold CItem_SetField. cbn [m_fields].
      destruct (decide (c.1 = k)) as [<- | Hk].
      - rewrite lookup_insert_eq. now intros [= <-].
      - rewrite lookup_insert_ne by exact Hk. apply Hsub. }
    destruct (IH r0' Hcs Hsub') as (r1 & Hl & H1 & H2 & H3 & H4 & H5 & H6).
    exists r1. cbn [load]. rewrite Hacc. cbn [mbind option_bind].
    fold r0'. split; [exact Hl |]. split; [exact H1 |].
    assert (Hkeep : forall k, is_Some (m_fields r0 !! k) ->
                              is_Some (m_fields r0' !! k)).
    { intros k Hk. subst r0'. unfold CItem_SetField. cbn [m_fields].
      destruct (decide (c.1 = k)) as [<- | Hne'].
      - rewrite lookup_insert_eq. eauto.
      - now rewrite lookup_insert_ne. }
    repeat split; auto.
    intros k Hk. rewrite fmap_cons in Hk. apply elem_of_cons in Hk as [-> | Hk].
    + apply H3. subst r0'. unfold CItem_SetField. cbn [m_fields].
      rewrite lookup_insert_eq. eauto.
    + now apply H2.
Qed.

(** If moreover every key of [M] is the tag of a chunk, the store is [M]. *)
Lemma load_restores_all (M : gmap FieldType (list ascii)) cs r0 :
  Forall (fun c => exists v, M !! c.1 = Some v /\ restores TIME_LEN c v) cs ->
  m_fields r0 = ∅ ->
  (forall k, is_Some (M !! k) -> k ∈ cs.*1) ->
  load TIME_LEN cs r0
  = Some (mkItem M (m_URFL r0) (m_entrytype r0) (m_entrystatus r0)).
Proof.
  intros Hcs Hempty Hall.
  destruct (load_restores M cs r0 Hcs) as (r1 & Hl & H1 & H2 & _ & H4 & H5 & H6).
  { intros k v. rewrite Hempty, lookup_empty. discriminate. }
  rewrite Hl. f_equal. destruct r1 as [m u k s]. cbn in *. subst.
  f_equal. apply map_eq. intros i.
  destruct (M !! i) as [v |] eqn:HM.
  - destruct (H2 i (Hall i (ex_intro _ v HM))) as [w Hw].
    rewrite Hw. apply H1 in Hw. congruence.
  - destruct (m !! i) as [w |] eqn:Hw; [| reflexivity].
    apply H1 in Hw. congruence.
Qed.

(** A stream of fewer than 255 accepted chunks followed by the terminator
    is read to its end. *)
Lemma Read_terminated cs tfl r r1 :
  load TIME_LEN cs (CItemData_Clear r) = Some r1 ->
  (length cs < 255)%nat ->
  Read TIME_LEN (mkFile tfl (cs ++ [(END, [])])) r
  = (finish_Read SUCCESS (stream_size cs + 5) r1, mkFile tfl []).
Proof.
  intros Hload Hlen. unfold Read.
  rewrite (Read_loop_prefix TIME_LEN cs 255 tfl _ _ r1 0 Hload) by lia.
  destruct (255 - length cs)%nat as [| n] eqn:Hn; [lia |].
  cbn [Read_loop ReadField fields IsItemDataField IsItemAttField].
  rewrite bool_decide_eq_true_2 by reflexivity.
  reflexivity.
Qed.

End Loading.
(** *** The known fields *)

Section KnownFields.

Variable TIME_LEN : nat.
Variables minDCA maxDCA : Z.

Local Abbreviation persistable := (persistable minDCA maxDCA).
Local Abbreviation reads_back := (reads_back TIME_LEN).

Ltac accept_known :=
  unfold accept; cbn [fst snd];
  rewrite bool_decide_eq_false_2 by discriminate;
  cbn [IsItemDataField SetField].

Lemma accept_text ft v r :
  ft ∈ TextFields ->
  accept TIME_LEN (ft, v) r = Some (CItem_SetField ft v r).
Proof.
  unfold TextFields. rewrite !elem_of_cons, elem_of_nil.
  intros H; repeat (destruct H as [-> | H]; [accept_known; reflexivity |]).
  destruct H.
Qed.

Lemma accept_binary ft v r :
  ft ∈ BinaryFields ->
  accept TIME_LEN (ft, v) r = Some (CItem_SetField ft v r).
Proof.
  unfold BinaryFields. rewrite !elem_of_cons, elem_of_nil.
  intros H; repeat (destruct H as [-> | H]; [accept_known; reflexivity |]).
  destruct H.
Qed.

Lemma accept_time ft wire r :
  ft ∈ TimeFields ->
  accept TIME_LEN (ft, wire) r = SetTimeField TIME_LEN ft wire r.
Proof.
  unfold TimeFields. rewrite !elem_of_cons, elem_of_nil.
  intros H; repeat (destruct H as [-> | H]; [accept_known; reflexivity |]).
  destruct H.
Qed.

Lemma discard_terminating_NUL_id v :
  last v <> Some zero_byte -> discard_terminating_NUL v = v.
Proof.
  intros H. unfold discard_terminating_NUL. destruct (last v) as [c |];
    [| reflexivity].
  rewrite bool_decide_eq_false_2; [reflexivity |]. congruence.
Qed.

Lemma GetTime_stored r ft t :
  m_fields r !! ft = Some (le_bytes 8 t) -> 0 < t < 2 ^ 63 ->
  CItem_GetTime ft r = t.
Proof.
  intros Hv Ht. unfold CItem_GetTime. rewrite Hv.
  change (le_bytes 8 t) with (chr (Z.to_N (t mod 256)) :: le_bytes 7 (t / 256)).
  cbv iota beta.
  change (chr (Z.to_N (t mod 256)) :: le_bytes 7 (t / 256)) with (le_bytes 8 t).
  apply le_signed_le_bytes; lia.
Qed.

Lemma GetTime_unset r ft : m_fields r !! ft = None -> CItem_GetTime ft r = 0.
Proof. intros Hv. unfold CItem_GetTime. now rewrite Hv. Qed.

Lemma nonempty_of_length (v : list ascii) n :
  length v = S n -> exists c w, v = c :: w.
Proof. destruct v; [discriminate | eauto]. Qed.

Lemma GetXTimeInt_stored r v :
  m_fields r !! XTIME_INT = Some v -> length v = 4%nat ->
  GetXTimeInt r = getInt32 v.
Proof.
  intros Hv Hl. unfold GetXTimeInt. rewrite Hv.
  destruct (nonempty_of_length v 3 Hl) as (c & w & ->). reflexivity.
Qed.

Lemma GetKBShortcut_stored r v :
  m_fields r !! KBSHORTCUT = Some v -> length v = 4%nat ->
  GetKBShortcut r = getInt32 v.
Proof.
  intros Hv Hl. unfold GetKBShortcut. rewrite Hv.
  destruct (nonempty_of_length v 3 Hl) as (c & w & ->). reflexivity.
Qed.

Lemma GetDCA_stored r (bShift : bool) v :
  m_fields r !! (if bShift then SHIFTDCA else DCA) = Some v ->
  length v = 2%nat -> GetDCA r bShift = getInt16 v.
Proof.
  intros Hv Hl. unfold GetDCA. rewrite Hv.
  destruct (nonempty_of_length v 1 Hl) as (c & w & ->). reflexivity.
Qed.

Lemma GetDCA_unset r (bShift : bool) :
  m_fields r !! (if bShift then SHIFTDCA else DCA) = None ->
  GetDCA r bShift = -1.
Proof. intros Hv. unfold GetDCA. now rewrite Hv. Qed.

Lemma Forall_omap {A B} (f : A -> option B) (P : B -> Prop) (l : list A) :
  (forall a b, a ∈ l -> f a = Some b -> P b) -> Forall P (omap f l).
Proof.
  intros H. apply Forall_forall. intros b Hb.
  apply list_elem_of_omap in Hb as (a & Ha & Hf). eauto.
Qed.

Lemma Forall_chunk_if (P : chunk -> Prop) (b : bool) c :
  (b = true -> P c) -> Forall P (chunk_if b c).
Proof. destruct b; intros H; [repeat constructor; auto | constructor]. Qed.

Lemma tag_in_omap (f : FieldType -> option chunk) (l : list FieldType) ft c :
  ft ∈ l -> f ft = Some c -> c.1 = ft -> ft ∈ (omap f l).*1.
Proof.
  intros Hft Hf <-. apply list_elem_of_fmap. exists c. split; [reflexivity |].
  apply list_elem_of_omap. eauto.
Qed.

Lemma in_known_text ft : ft ∈ TextFields -> ft ∈ known_keys.
Proof. unfold known_keys. rewrite !elem_of_app. auto. Qed.
Lemma in_known_time ft : ft ∈ TimeFields -> ft ∈ known_keys.
Proof. unfold known_keys. rewrite !elem_of_app. auto. Qed.
Lemma in_known_small ft : ft ∈ small_int_fields -> ft ∈ known_keys.
Proof. unfold known_keys. rewrite !elem_of_app. auto. Qed.
Lemma in_known_binary ft : ft ∈ BinaryFields -> ft ∈ known_keys.
Proof. unfold known_keys. rewrite !elem_of_app. auto. Qed.

Lemma text_chunks_read_back tfl r :
  persistable tfl r ->
  Forall (reads_back r) (omap (text_chunk r) TextFields).
Proof.
  intros Hp. apply Forall_omap. intros ft c Hft Hc.
  unfold text_chunk in Hc. destruct (m_fields r !! ft) as [v |] eqn:Hv;
    [| discriminate]. injection Hc as <-.
  destruct (p_text _ _ _ _ Hp ft v Hft Hv) as [Hne Hlast].
  rewrite discard_terminating_NUL_id by exact Hlast.
  split; [now apply in_known_text |].
  exists v. split; [exact Hv |]. split; [exact Hne |].
  intros r'. now apply accept_text.
Qed.

Lemma binary_chunks_read_back tfl r :
  persistable tfl r ->
  Forall (reads_back r) (omap (raw_chunk r) BinaryFields).
Proof.
  intros Hp. apply Forall_omap. intros ft c Hft Hc.
  unfold raw_chunk in Hc. destruct (m_fields r !! ft) as [v |] eqn:Hv;
    [| discriminate]. injection Hc as <-.
  split; [now apply in_known_binary |].
  exists v. split; [exact Hv |]. split; [exact (p_bin _ _ _ _ Hp ft v Hft Hv) |].
  intros r'. now apply accept_binary.
Qed.

Lemma time_chunks_read_back tfl r :
  persistable tfl r ->
  Forall (reads_back r) (omap (time_chunk TIME_LEN tfl r) TimeFields).
Proof.
  intros Hp. apply Forall_omap. intros ft c Hft Hc.
  unfold time_chunk in Hc.
  destruct (m_fields r !! ft) as [v |] eqn:Hv; cycle 1.
  { rewrite (GetTime_unset r ft Hv) in Hc.
    rewrite (bool_decide_eq_true_2 (0 = 0)) in Hc by reflexivity.
    discriminate. }
  destruct (p_time _ _ _ _ Hp ft v Hft Hv) as (t & -> & Ht & Ht63).
  rewrite (GetTime_stored r ft t Hv) in Hc by lia.
  rewrite (bool_decide_eq_false_2 (t = 0)) in Hc by lia.
  assert (Hwire : c = (ft, le_bytes tfl t)
                  /\ (tfl = 4%nat \/ tfl = TIME_LEN)).
  { repeat case_bool_decide; try discriminate; injection Hc as <-; subst;
      auto. }
  destruct Hwire as [-> Htfl].
  split; [now apply in_known_time |].
  exists (le_bytes 8 t). split; [exact Hv |].
  split; [apply le_bytes_nonempty; lia |].
  intros r'. rewrite accept_time by exact Hft.
  unfold SetTimeField, pull_time. rewrite length_le_bytes.
  replace (bool_decide (tfl = 4%nat) || bool_decide (tfl = TIME_LEN)
           || bool_decide (tfl = 8%nat)) with true; cycle 1.
  { destruct Htfl as [-> | ->].
    - reflexivity.
    - rewrite (bool_decide_eq_true_2 (TIME_LEN = TIME_LEN)) by reflexivity.
      now rewrite orb_true_r. }
  cbn [mbind option_bind]. rewrite le_unsigned_le_bytes_small by lia.
  reflexivity.
Qed.

Lemma small_chunks_read_back tfl r :
  persistable tfl r -> 0 <= minDCA ->
  Forall (reads_back r)
    (chunk_if ((0 <? GetXTimeInt r) && (GetXTimeInt r <=? 3650))
       (XTIME_INT, putInt32 (GetXTimeInt r))
     ++ chunk_if (negb (GetKBShortcut r =? 0))
          (KBSHORTCUT, putInt32 (GetKBShortcut r))
     ++ chunk_if ((minDCA <=? GetDCA r false) && (GetDCA r false <=? maxDCA))
          (DCA, putInt16 (GetDCA r false))
     ++ chunk_if ((minDCA <=? GetDCA r true) && (GetDCA r true <=? maxDCA))
          (SHIFTDCA, putInt16 (GetDCA r true))
     ++ omap (raw_chunk r) [PROTECTED]).
Proof.
  intros Hp Hmin.
  assert (Hsmall : forall ft, ft ∈ small_int_fields -> ft ∈ known_keys)
    by exact in_known_small.
  repeat (apply Forall_app; split).
  - apply Forall_chunk_if. intros Hb.
    destruct (m_fields r !! XTIME_INT) as [v |] eqn:Hv; cycle 1.
    { unfold GetXTimeInt in Hb. rewrite Hv in Hb. discriminate. }
    destruct (p_xint _ _ _ _ Hp v Hv) as [Hl _].
    rewrite (GetXTimeInt_stored r v Hv Hl).
    unfold putInt32, getInt32. rewrite le_bytes_le_signed by exact Hl.
    split; [apply Hsmall; unfold small_int_fields; rewrite !elem_of_cons; auto |].
    exists v. split; [exact Hv |]. split; [now destruct v |].
    intros r'. accept_known. unfold pull32.
    rewrite bool_decide_eq_true_2 by exact Hl. cbn [mbind option_bind].
    unfold SetXTimeInt, putInt32, getInt32.
    now rewrite le_bytes_le_signed by exact Hl.
  - apply Forall_chunk_if. intros Hb.
    destruct (m_fields r !! KBSHORTCUT) as [v |] eqn:Hv; cycle 1.
    { unfold GetKBShortcut in Hb. rewrite Hv in Hb. discriminate. }
    destruct (p_kbs _ _ _ _ Hp v Hv) as [Hl _].
    rewrite (GetKBShortcut_stored r v Hv Hl).
    unfold putInt32, getInt32. rewrite le_bytes_le_signed by exact Hl.
    split; [apply Hsmall; unfold small_int_fields; rewrite !elem_of_cons; auto |].
    exists v. split; [exact Hv |]. split; [now destruct v |].
    intros r'. accept_known.
    unfold SetKBShortcut, putInt32, getInt32.
    now rewrite le_bytes_le_signed by exact Hl.
  - apply Forall_chunk_if. intros Hb.
    destruct (m_fields r !! DCA) as [v |] eqn:Hv; cycle 1.
    { rewrite (GetDCA_unset r false Hv) in Hb.
      apply andb_true_iff in Hb as [Hb _]. apply Z.leb_le in Hb. lia. }
    destruct (p_dca _ _ _ _ Hp DCA v (or_introl eq_refl) Hv) as [Hl _].
    rewrite (GetDCA_stored r false v Hv Hl).
    unfold putInt16, getInt16. rewrite le_bytes_le_signed by exact Hl.
    split; [apply Hsmall; unfold small_int_fields; rewrite !elem_of_cons; auto |].
    exists v. split; [exact Hv |]. split; [now destruct v |].
    intros r'. accept_known. unfold pull16.
    rewrite bool_decide_eq_true_2 by exact Hl. cbn [mbind option_bind].
    unfold SetDCA, putInt16, getInt16.
    now rewrite le_bytes_le_signed by exact Hl.
  - apply Forall_chunk_if. intros Hb.
    destruct (m_fields r !! SHIFTDCA) as [v |] eqn:Hv; cycle 1.
    { rewrite (GetDCA_unset r true Hv) in Hb.
      apply andb_true_iff in Hb as [Hb _]. apply Z.leb_le in Hb. lia. }
    destruct (p_dca _ _ _ _ Hp SHIFTDCA v (or_intror eq_refl) Hv) as [Hl _].
    rewrite (GetDCA_stored r true v Hv Hl).
    unfold putInt16, getInt16. rewrite le_bytes_le_signed by exact Hl.
    split; [apply Hsmall; unfold small_int_fields; rewrite !elem_of_cons; auto |].
    exists v. split; [exact Hv |]. split; [now destruct v |].
    intros r'. accept_known. unfold pull16.
    rewrite bool_decide_eq_true_2 by exact Hl. cbn [mbind option_bind].
    unfold SetDCA, putInt16, getInt16.
    now rewrite le_bytes_le_signed by exact Hl.
  - apply Forall_omap. intros ft c Hft Hc.
    apply list_elem_of_singleton in Hft as ->.
    unfold raw_chunk in Hc.
    destruct (m_fields r !! PROTECTED) as [v |] eqn:Hv; [| discriminate].
    injection Hc as <-. pose proof (p_prot _ _ _ _ Hp v Hv) as ->.
    split; [apply Hsmall; unfold small_int_fields; rewrite !elem_of_cons; auto 10 |].
    exists [chr 1]. split; [exact Hv |]. split; [discriminate |].
    intros r'. reflexivity.
Qed.

(** Every chunk of the common part is read back into the value it was
    written from. *)
Lemma known_chunks_read_back tfl r :
  persistable tfl r -> 0 <= minDCA ->
  Forall (reads_back r) (known_chunks TIME_LEN minDCA maxDCA tfl r).
Proof.
  intros Hp Hmin. unfold known_chunks.
  apply Forall_app. split; [now apply (text_chunks_read_back tfl) |].
  apply Forall_app. split; [now apply time_chunks_read_back |].
  rewrite !app_assoc. apply Forall_app.
  split; [| now apply (binary_chunks_read_back tfl)].
  rewrite <- !app_assoc. now apply (small_chunks_read_back tfl).
Qed.

(** Every stored known field has a chunk in the common part. *)
Lemma known_chunks_cover tfl r ft :
  persistable tfl r -> tfl = 4%nat \/ tfl = TIME_LEN ->
  ft ∈ known_keys -> is_Some (m_fields r !! ft) ->
  ft ∈ (known_chunks TIME_LEN minDCA maxDCA tfl r).*1.
Proof.
  intros Hp Htfl Hft [v Hv]. unfold known_chunks.
  unfold known_keys in Hft. rewrite !elem_of_app in Hft.
  rewrite !fmap_app, !elem_of_app.
  destruct Hft as [Hft | [Hft | [Hft | Hft]]].
  - left. apply (tag_in_omap _ _ ft (ft, discard_terminating_NUL v));
      [exact Hft | | reflexivity].
    unfold text_chunk. now rewrite Hv.
  - right. left.
    destruct (p_time _ _ _ _ Hp ft v Hft Hv) as (t & -> & Ht & Ht63).
    apply (tag_in_omap _ _ ft (ft, le_bytes tfl t));
      [exact Hft | | reflexivity].
    unfold time_chunk. rewrite (GetTime_stored r ft t Hv) by lia.
    rewrite (bool_decide_eq_false_2 (t = 0)) by lia.
    destruct Htfl as [-> | ->].
    + reflexivity.
    + case_bool_decide as H4; [now rewrite H4 |].
      now rewrite bool_decide_eq_true_2.
  - right. right. unfold small_int_fields in Hft.
    rewrite !elem_of_cons, elem_of_nil in Hft.
    destruct Hft as [-> | [-> | [-> | [-> | [-> | []]]]]].
    + left. destruct (p_xint _ _ _ _ Hp v Hv) as [Hl Hr].
      rewrite (GetXTimeInt_stored r v Hv Hl).
      replace ((0 <? getInt32 v) && (getInt32 v <=? 3650)) with true
        by (symmetry; apply andb_true_iff; split;
            [apply Z.ltb_lt | apply Z.leb_le]; lia).
      cbn. apply list_elem_of_here.
    + right. left. destruct (p_kbs _ _ _ _ Hp v Hv) as [Hl Hr].
      rewrite (GetKBShortcut_stored r v Hv Hl).
      replace (negb (getInt32 v =? 0)) with true
        by (symmetry; apply negb_true_iff, Z.eqb_neq; exact Hr).
      cbn. apply list_elem_of_here.
    + right. right. left.
      destruct (p_dca _ _ _ _ Hp DCA v (or_introl eq_refl) Hv) as [Hl Hr].
      rewrite (GetDCA_stored r false v Hv Hl).
      replace ((minDCA <=? getInt16 v) && (getInt16 v <=? maxDCA)) with true
        by (symmetry; apply andb_true_iff; split; apply Z.leb_le; lia).
      cbn. apply list_elem_of_here.
    + right. right. right. left.
      destruct (p_dca _ _ _ _ Hp SHIFTDCA v (or_intror eq_refl) Hv) as [Hl Hr].
      rewrite (GetDCA_stored r true v Hv Hl).
      replace ((minDCA <=? getInt16 v) && (getInt16 v <=? maxDCA)) with true
        by (symmetry; apply andb_true_iff; split; apply Z.leb_le; lia).
      cbn. apply list_elem_of_here.
    + right. right. right. right. left.
      apply (tag_in_omap _ _ PROTECTED (PROTECTED, v));
        [apply list_elem_of_here | | reflexivity].
      unfold raw_chunk. now rewrite Hv.
  - right. right. right. right. right. right. right.
    apply (tag_in_omap _ _ ft (ft, v)); [exact Hft | | reflexivity].
    unfold raw_chunk. now rewrite Hv.
Qed.

Lemma length_omap_le {A B} (f : A -> option B) (l : list A) :
  (length (omap f l) <= length l)%nat.
Proof.
  induction l as [| a l IH]; [reflexivity |].
  cbn [omap list_omap length]. destruct (f a); cbn [length]; lia.
Qed.

Lemma length_chunk_if b c : (length (chunk_if b c) <= 1)%nat.
Proof. destruct b; simpl; lia. Qed.

Lemma length_known_chunks tfl r :
  (length (known_chunks TIME_LEN minDCA maxDCA tfl r) <= 39)%nat.
Proof.
  unfold known_chunks. rewrite !length_app.
  pose proof (length_omap_le (text_chunk r) TextFields).
  pose proof (length_omap_le (time_chunk TIME_LEN tfl r) TimeFields).
  pose proof (length_omap_le (raw_chunk r) [PROTECTED]).
  pose proof (length_omap_le (raw_chunk r) BinaryFields).
  repeat match goal with
         | |- context [length (chunk_if ?b ?c)] =>
             pose proof (length_chunk_if b c);
             generalize dependent (length (chunk_if b c)); intros
         end.
  cbn [length TextFields TimeFields BinaryFields] in *. lia.
Qed.

End KnownFields.
(** *** The id slots and the kind *)

Lemma known_not_id k : k ∈ known_keys -> k ∉ id_keys.
Proof.
  assert (H : Forall (fun k => k ∉ id_keys) known_keys).
  { apply (bool_decide_eq_true_1 _). vm_compute. reflexivity. }
  rewrite Forall_forall in H. apply H.
Qed.

Lemma id_slot_not_END r : id_slot r <> END.
Proof.
  unfold id_slot, IsDependent, IsAlias, IsShortcut.
  destruct (m_entrytype r); discriminate.
Qed.

Lemma GetUUID_stored r ft id :
  ft <> END -> m_fields r !! ft = Some id -> GetUUID r ft = id.
Proof.
  intros Hne Hid. unfold GetUUID. rewrite uuid_slot_explicit by exact Hne.
  now rewrite Hid.
Qed.

Lemma placeholder_text_shape (alias : bool) b :
  length b = 16%nat ->
  let pw := placeholder_text alias b in
  length pw = 36%nat
  /\ substr pw 0 2 = (if alias then _T "[[" else _T "[~")
  /\ substr pw 2 32 = CUUID_to_StringX b
  /\ substr_from pw 34 = (if alias then _T "]]" else _T "~]").
Proof.
  intros Hb. unfold placeholder_text.
  assert (Hmid : length (CUUID_to_StringX b) = 32%nat)
    by (rewrite length_CUUID_to_StringX; lia).
  destruct alias; apply (bracketed_shape _ _ _ _ _ Hmid).
Qed.

Lemma placeholder_text_last (alias : bool) b :
  placeholder_text alias b <> []
  /\ last (placeholder_text alias b) <> Some zero_byte.
Proof.
  unfold placeholder_text. split.
  - destruct alias; discriminate.
  - rewrite app_assoc.
    destruct alias;
      [change (_T "]]") with (["]"%char] ++ ["]"%char])
      | change (_T "~]") with (["~"%char] ++ ["]"%char])];
      rewrite app_assoc, last_snoc; discriminate.
Qed.

(** Decoding a placeholder text: the link is installed. *)
Lemma ParseSpecialPasswords_placeholder x (alias : bool) b :
  length b = 16%nat ->
  GetPassword x = placeholder_text alias b ->
  ParseSpecialPasswords x
  = SetUUID (GetUUID x END) (if alias then ALIASUUID else SHORTCUTUUID)
      (ClearField UUID (SetUUID b BASEUUID x)).
Proof.
  intros Hb Hpw.
  destruct (placeholder_text_shape alias b Hb) as (Hlen & Hopen & Hmid & Hclose).
  destruct (ParseSpecialPasswords_cases x) as
    [(slot & b' & Hsh & _ & Hb' & -> & _) | [Hno _]].
  - rewrite Hpw in Hsh, Hb'. rewrite Hmid in Hb'.
    rewrite ToLower_lower_hex in Hb' by apply CUUID_to_StringX_lower.
    apply (f_equal CUUID_of_StringX) in Hb'.
    rewrite !CUUID_of_to_StringX in Hb'. subst b'.
    destruct Hsh as (_ & _ & [[[Ho _] ->] | [[Ho _] ->]]);
      rewrite Hopen in Ho; destruct alias; try reflexivity; discriminate.
  - exfalso. apply (Hno (if alias then ALIASUUID else SHORTCUTUUID)).
    rewrite Hpw. split; [exact Hlen | split].
    + rewrite Hmid. eapply Forall_impl; [apply CUUID_to_StringX_lower |].
      apply lower_hex_is_hex.
    + unfold enclosed. rewrite Hopen, Hclose.
      destruct alias; [left | right]; auto.
Qed.

Section RoundTrip.

Variable TIME_LEN : nat.
Variables minDCA maxDCA : Z.

Local Abbreviation persistable := (persistable minDCA maxDCA).
Local Abbreviation known_chunks := (known_chunks TIME_LEN minDCA maxDCA).

Lemma restores_id ft id :
  ft ∈ id_keys -> length id = 16%nat -> restores TIME_LEN (ft, id) id.
Proof.
  intros Hft Hl. split; [now destruct id |]. intros r.
  assert (Htake : take 16 id = id) by (apply firstn_all2; lia).
  unfold id_keys in Hft. rewrite !elem_of_cons, elem_of_nil in Hft.
  unfold accept. cbn [fst snd].
  destruct Hft as [-> | [-> | [-> | [-> | [-> | []]]]]];
    rewrite bool_decide_eq_false_2 by discriminate;
    cbn [IsItemDataField SetField];
    rewrite bool_decide_eq_false_2 by lia; now rewrite Htake.
Qed.

(** The chunks of a written record, a few id chunks and then the common
    part, load into the map [M] they were written from. [M] agrees with the
    record on the known fields. *)
Lemma load_written (M : gmap FieldType (list ascii)) tfl r heads any :
  persistable tfl r -> tfl = 4%nat \/ tfl = TIME_LEN -> 0 <= minDCA ->
  (forall k, k ∈ known_keys -> M !! k = m_fields r !! k) ->
  (forall k, is_Some (M !! k) -> k ∈ heads.*1 \/ k ∈ known_keys) ->
  Forall (fun c => exists v, M !! c.1 = Some v /\ restores TIME_LEN c v)
         heads ->
  load TIME_LEN (heads ++ known_chunks tfl r) (CItemData_Clear any)
  = Some (mkItem M [] ET_NORMAL ES_CLEAN).
Proof.
  intros Hp Htfl Hmin Hagree Hdom Hheads.
  apply (load_restores_all TIME_LEN M _ (CItemData_Clear any)).
  - apply Forall_app. split; [exact Hheads |].
    eapply Forall_impl; [apply (known_chunks_read_back TIME_LEN minDCA maxDCA
                                  tfl r Hp Hmin) |].
    intros c (Hk & v & Hv & Hr). exists v. split; [| exact Hr].
    now rewrite Hagree.
  - reflexivity.
  - intros k Hk. rewrite fmap_app, elem_of_app.
    destruct (Hdom k Hk) as [Hh | Hkn]; [now left | right].
    apply known_chunks_cover; try assumption.
    now rewrite <- Hagree.
Qed.

(** The end of [Read] when the password is no placeholder: the record is
    kept and the kind is the one of the populated id slot. *)
Lemma finish_Read_direct r numread :
  0 < numread -> linked r -> no_placeholder r -> m_URFL r = [] ->
  finish_Read SUCCESS numread (mkItem (m_fields r) [] ET_NORMAL ES_CLEAN)
  = (Status SUCCESS, reset_status r).
Proof.
  intros Hn Hl Hnp Hu. unfold finish_Read.
  apply Z.ltb_lt in Hn. rewrite Hn.
  set (r1 := mkItem (m_fields r) [] ET_NORMAL ES_CLEAN).
  assert (Hparse : ParseSpecialPasswords r1 = r1).
  { destruct (ParseSpecialPasswords_cases r1) as [(slot & b & Hsh & _) | [_ H]];
      [| exact H].
    exfalso. exact (Hnp slot Hsh). }
  rewrite Hparse. f_equal. unfold reset_status. rewrite Hu.
  unfold linked in Hl. unfold IsFieldSet, r1. cbn [m_fields].
  unfold unset, holds_id in Hl.
  destruct (m_entrytype r).
  - destruct Hl as ((id & -> & _) & _).
    now rewrite bool_decide_eq_true_2 by eauto.
  - destruct Hl.
  - destruct Hl as ((id & Hid & _) & _ & -> & _).
    rewrite bool_decide_eq_false_2 by (intros [? ?]; discriminate).
    rewrite Hid. now rewrite bool_decide_eq_true_2 by eauto.
  - destruct Hl.
  - destruct Hl as ((id & Hid & _) & _ & -> & ->).
    rewrite !bool_decide_eq_false_2 by (intros [? ?]; discriminate).
    rewrite Hid. now rewrite bool_decide_eq_true_2 by eauto.
Qed.

Lemma linked_id_slot r :
  linked r -> holds_id r (id_slot r).
Proof.
  unfold linked, id_slot, IsDependent, IsAlias, IsShortcut.
  destruct (m_entrytype r); cbn; tauto.
Qed.

(** The newer format: the record is read back as it was written. *)
Lemma Write_V4_Read r any :
  0 <= minDCA -> linked r -> persistable TIME_LEN r ->
  (forall a, m_fields r !! ATTREF = Some a -> length a = 16%nat) ->
  no_placeholder r ->
  Read TIME_LEN (Write_V4 TIME_LEN minDCA maxDCA r (mkFile TIME_LEN [])).2 any
  = (Status SUCCESS, reset_status r, mkFile TIME_LEN []).
Proof.
  intros Hmin Hl Hp Hatt Hnp.
  rewrite Write_V4_unfold. cbn [snd emit fields timeFieldLen app].
  rewrite (p_urfl _ _ _ _ Hp). cbn [app].
  set (heads := (id_slot r, GetUUID r (id_slot r)) :: link_chunks r).
  replace ((id_slot r, GetUUID r (id_slot r))
           :: link_chunks r ++ known_chunks TIME_LEN r ++ [(END, [])])
    with ((heads ++ known_chunks TIME_LEN r) ++ [(END, [])])
    by (subst heads; now rewrite <- app_assoc).
  destruct (linked_id_slot r Hl) as (id & Hid & Hid16).
  pose proof (GetUUID_stored r _ id (id_slot_not_END r) Hid) as Hgid.
  assert (Hslot : id_slot r ∈ id_keys).
  { unfold id_slot, IsDependent, IsAlias, IsShortcut, id_keys.
    destruct (m_entrytype r); cbn; rewrite !elem_of_cons; auto. }
  assert (Hlink : Forall (fun c => exists v, m_fields r !! c.1 = Some v
                                     /\ restores TIME_LEN c v) (link_chunks r)).
  { unfold link_chunks. apply Forall_app. split; apply Forall_chunk_if.
    - intros Hdep. unfold linked in Hl.
      unfold IsDependent, IsAlias, IsShortcut in Hdep.
      assert (holds_id r BASEUUID) as (b & Hb & Hb16)
        by (destruct (m_entrytype r); try discriminate; tauto).
      rewrite (GetUUID_stored r BASEUUID b) by (discriminate || exact Hb).
      exists b. split; [exact Hb |]. apply restores_id; [| exact Hb16].
      unfold id_keys. rewrite !elem_of_cons. auto.
    - intros Hset. unfold IsFieldSet in Hset.
      apply bool_decide_eq_true in Hset as [a Ha].
      rewrite (GetUUID_stored r ATTREF a) by (discriminate || exact Ha).
      exists a. split; [exact Ha |]. apply restores_id; [| now apply Hatt].
      unfold id_keys. rewrite !elem_of_cons. auto 10. }
  assert (Hload : load TIME_LEN (heads ++ known_chunks TIME_LEN r)
                    (CItemData_Clear any)
                  = Some (mkItem (m_fields r) [] ET_NORMAL ES_CLEAN)).
  { apply load_written; auto.
    - intros k Hk. pose proof (p_dom _ _ _ _ Hp k Hk) as Hd.
      apply elem_of_app in Hd as [Hid' | Hkn]; [left | now right].
      subst heads. rewrite fmap_cons. cbn [fst].
      unfold link_chunks. rewrite fmap_app, elem_of_cons, elem_of_app.
      unfold id_keys in Hid'. rewrite !elem_of_cons, elem_of_nil in Hid'.
      unfold linked, unset in Hl. destruct Hk as [w Hw].
      unfold id_slot, IsDependent, IsAlias, IsShortcut, IsFieldSet.
      destruct Hid' as [-> | [-> | [-> | [-> | [-> | []]]]]];
        destruct (m_entrytype r); cbn;
        try (left; reflexivity);
        try (right; left; apply list_elem_of_here);
        try (destruct Hl as (_ & H1 & H2 & H3); congruence);
        try (destruct Hl as (_ & _ & H2 & H3); congruence);
        try (destruct Hl);
        right; right; rewrite bool_decide_eq_true_2 by eauto;
        apply list_elem_of_here.
    - subst heads. constructor; [| exact Hlink].
      cbn [fst]. rewrite Hgid. exists id. split; [exact Hid |].
      now apply restores_id. }
  unfold emit. cbn [fields timeFieldLen]. rewrite app_nil_l.
  rewrite (Read_terminated TIME_LEN _ TIME_LEN any _ Hload); cycle 1.
  { subst heads. rewrite length_app. cbn [length].
    pose proof (length_known_chunks TIME_LEN minDCA maxDCA TIME_LEN r).
    assert (length (link_chunks r) <= 2)%nat.
    { unfold link_chunks. rewrite length_app.
      pose proof (length_chunk_if (IsDependent r) (BASEUUID, GetUUID r BASEUUID)).
      pose proof (length_chunk_if (IsFieldSet ATTREF r)
                    (ATTREF, GetUUID r ATTREF)). lia. }
    lia. }
  rewrite finish_Read_direct; auto.
  - pose proof (stream_size_nonneg (heads ++ known_chunks TIME_LEN r)). lia.
  - exact (p_urfl _ _ _ _ Hp).
Qed.

(** The legacy format, normal entry: read back as written. *)
Lemma Write_V3_Read_normal r any :
  0 <= minDCA -> m_entrytype r = ET_NORMAL -> linked r -> persistable 4 r ->
  unset r ATTREF -> no_placeholder r ->
  Read TIME_LEN (Write_V3 TIME_LEN minDCA maxDCA r (mkFile 4 [])).1.2 any
  = (Status SUCCESS, reset_status r, mkFile 4 []).
Proof.
  intros Hmin Hk Hl Hp Hatt Hnp.
  rewrite Write_V3_unfold. cbn [fst snd]. unfold emit.
  cbn [fields timeFieldLen]. rewrite app_nil_l.
  assert (Hself : SetSpecialPasswords r = r).
  { unfold SetSpecialPasswords, IsDependent, IsAlias, IsShortcut.
    now rewrite Hk. }
  rewrite Hself, (p_urfl _ _ _ _ Hp). cbn [app].
  pose proof Hl as Hl'. unfold linked in Hl'. rewrite Hk in Hl'.
  destruct Hl' as ((id & Hid & Hid16) & Ha & Hs & Hb).
  assert (Hslot : id_slot r = UUID).
  { unfold id_slot, IsDependent, IsAlias, IsShortcut. now rewrite Hk. }
  rewrite Hslot, (GetUUID_stored r UUID id) by (discriminate || exact Hid).
  change ((UUID, id) :: known_chunks 4 r ++ [(END, [])])
    with (([(UUID, id)] ++ known_chunks 4 r) ++ [(END, [])]).
  assert (Hload : load TIME_LEN ([(UUID, id)] ++ known_chunks 4 r)
                    (CItemData_Clear any)
                  = Some (mkItem (m_fields r) [] ET_NORMAL ES_CLEAN)).
  { apply load_written; auto.
    - intros k [w Hw]. pose proof (p_dom _ _ _ _ Hp k (ex_intro _ w Hw)) as Hd.
      apply elem_of_app in Hd as [Hid' | Hkn]; [left | now right].
      unfold id_keys in Hid'. rewrite !elem_of_cons, elem_of_nil in Hid'.
      unfold unset in *.
      destruct Hid' as [-> | [-> | [-> | [-> | [-> | []]]]]];
        try congruence. apply list_elem_of_here.
    - constructor; [| constructor]. exists id. split; [exact Hid |].
      apply restores_id; [| exact Hid16].
      unfold id_keys. apply list_elem_of_here. }
  rewrite (Read_terminated TIME_LEN _ 4 any _ Hload); cycle 1.
  { rewrite length_app. cbn [length].
    pose proof (length_known_chunks TIME_LEN minDCA maxDCA 4 r). lia. }
  rewrite finish_Read_direct; auto.
  - pose proof (stream_size_nonneg ([(UUID, id)] ++ known_chunks 4 r)). lia.
  - exact (p_urfl _ _ _ _ Hp).
Qed.

(** Overwriting the password with a placeholder keeps the record
    persistable. *)
Lemma persistable_placeholder tfl r (alias : bool) b :
  persistable tfl r ->
  persistable tfl (SetPassword (placeholder_text alias b) r).
Proof.
  intros Hp.
  destruct (placeholder_text_last alias b) as [Hne Hlast].
  assert (Hother : forall ft, ft <> PASSWORD ->
            m_fields (SetPassword (placeholder_text alias b) r) !! ft
            = m_fields r !! ft).
  { intros ft Hft. unfold SetPassword. now rewrite lookup_SetField_ne. }
  assert (Hpw : m_fields (SetPassword (placeholder_text alias b) r) !! PASSWORD
                = Some (placeholder_text alias b)).
  { unfold SetPassword, CItem_SetField. cbn [m_fields].
    destruct (placeholder_text alias b); [contradiction |].
    apply lookup_insert_eq. }
  constructor.
  - intros ft v Hft Hv. destruct (decide (ft = PASSWORD)) as [-> | Hne'].
    + rewrite Hpw in Hv. injection Hv as <-. auto.
    + rewrite Hother in Hv by exact Hne'. exact (p_text _ _ _ _ Hp ft v Hft Hv).
  - intros ft v Hft Hv. rewrite Hother in Hv.
    + exact (p_time _ _ _ _ Hp ft v Hft Hv).
    + intros ->. revert Hft. apply (bool_decide_eq_false_1 _). reflexivity.
  - intros v Hv. rewrite Hother in Hv by discriminate.
    exact (p_xint _ _ _ _ Hp v Hv).
  - intros v Hv. rewrite Hother in Hv by discriminate.
    exact (p_kbs _ _ _ _ Hp v Hv).
  - intros ft v Hft Hv. rewrite Hother in Hv
      by (destruct Hft as [-> | ->]; discriminate).
    exact (p_dca _ _ _ _ Hp ft v Hft Hv).
  - intros v Hv. rewrite Hother in Hv by discriminate.
    exact (p_prot _ _ _ _ Hp v Hv).
  - intros ft v Hft Hv. rewrite Hother in Hv.
    + exact (p_bin _ _ _ _ Hp ft v Hft Hv).
    + intros ->. revert Hft. apply (bool_decide_eq_false_1 _). reflexivity.
  - intros ft Hft. destruct (decide (ft = PASSWORD)) as [-> | Hne'].
    + apply (bool_decide_eq_true_1 _). reflexivity.
    + rewrite Hother in Hft by exact Hne'. exact (p_dom _ _ _ _ Hp ft Hft).
  - exact (p_urfl _ _ _ _ Hp).
Qed.

(** The legacy format, dependent entry: the base id travels inside the
    password, and the record read back is the record with the placeholder
    as its password. *)
Lemma Write_V3_Read_dependent r any :
  0 <= minDCA -> IsDependent r = true -> linked r -> persistable 4 r ->
  unset r ATTREF ->
  Read TIME_LEN (Write_V3 TIME_LEN minDCA maxDCA r (mkFile 4 [])).1.2 any
  = (Status SUCCESS, reset_status (SetSpecialPasswords r), mkFile 4 []).
Proof.
  intros Hmin Hdep Hl Hp Hatt.
  rewrite Write_V3_unfold. cbn [fst snd]. unfold emit.
  cbn [fields timeFieldLen]. rewrite app_nil_l.
  rewrite (p_urfl _ _ _ _ Hp). cbn [app].
  set (alias := IsAlias r).
  set (slot := if alias then ALIASUUID else SHORTCUTUUID).
  assert (Hfacts : id_slot r = slot
                   /\ m_entrytype r = (if alias then ET_ALIAS else ET_SHORTCUT)
                   /\ holds_id r slot /\ holds_id r BASEUUID
                   /\ unset r UUID
                   /\ (alias = false -> unset r ALIASUUID)).
  { subst slot alias. unfold linked in Hl.
    unfold id_slot, IsDependent, IsAlias, IsShortcut in *.
    destruct (m_entrytype r); try discriminate; cbn;
      intuition discriminate. }
  destruct Hfacts as (Hslot & Hkind & (id & Hid & Hid16) & (b & Hb & Hb16)
                      & Hu & Hna).
  assert (Hsd : slot <> UUID /\ slot <> BASEUUID /\ slot <> PASSWORD
                /\ slot <> END)
    by (subst slot; destruct alias; repeat split; discriminate).
  destruct Hsd as (Hs1 & Hs2 & Hs3 & Hs4).
  assert (Hself : SetSpecialPasswords r
                  = SetPassword (placeholder_text alias b) r).
  { unfold SetSpecialPasswords. rewrite Hdep.
    rewrite (GetUUID_stored r BASEUUID b) by (discriminate || exact Hb).
    unfold placeholder_text. subst alias. unfold IsShortcut, IsAlias in *.
    destruct (m_entrytype r); try discriminate; reflexivity. }
  rewrite Hself, Hslot, (GetUUID_stored r slot id) by assumption.
  set (self := SetPassword (placeholder_text alias b) r).
  pose proof (persistable_placeholder 4 r alias b Hp) as Hps. fold self in Hps.
  assert (Hother : forall ft, ft <> PASSWORD ->
            m_fields self !! ft = m_fields r !! ft).
  { intros ft Hft. unfold self, SetPassword. now rewrite lookup_SetField_ne. }
  set (M := <[UUID := id]> (delete slot (delete BASEUUID (m_fields self)))).
  assert (HM : forall k, k <> UUID -> k <> slot -> k <> BASEUUID ->
                         M !! k = m_fields self !! k).
  { intros k H1 H2 H3. subst M.
    now rewrite lookup_insert_ne, !lookup_delete_ne by auto. }
  change ((UUID, id) :: known_chunks 4 self ++ [(END, [])])
    with (([(UUID, id)] ++ known_chunks 4 self) ++ [(END, [])]).
  assert (Hload : load TIME_LEN ([(UUID, id)] ++ known_chunks 4 self)
                    (CItemData_Clear any)
                  = Some (mkItem M [] ET_NORMAL ES_CLEAN)).
  { apply load_written; auto.
    - intros k Hk. pose proof (known_not_id k Hk) as Hnid.
      unfold id_keys in Hnid. rewrite !elem_of_cons, elem_of_nil in Hnid.
      apply HM; [tauto | | tauto].
      subst slot. destruct alias; tauto.
    - intros k [w Hw].
      destruct (decide (k = UUID)) as [-> | Hk1];
        [left; apply list_elem_of_here | right].
      subst M. rewrite lookup_insert_ne in Hw by auto.
      destruct (decide (k = slot)) as [-> | Hk2];
        [now rewrite lookup_delete_eq in Hw |].
      rewrite lookup_delete_ne in Hw by auto.
      destruct (decide (k = BASEUUID)) as [-> | Hk3];
        [now rewrite lookup_delete_eq in Hw |].
      rewrite lookup_delete_ne in Hw by auto.
      pose proof (p_dom _ _ _ _ Hps k (ex_intro _ w Hw)) as Hd.
      apply elem_of_app in Hd as [Hid' | Hkn]; [| exact Hkn].
      exfalso. unfold id_keys in Hid'.
      rewrite !elem_of_cons, elem_of_nil in Hid'.
      rewrite Hother in Hw
        by (intros ->; destruct Hid' as [? | [? | [? | [? | [? | []]]]]];
            discriminate).
      unfold unset in *.
      destruct Hid' as [-> | [-> | [-> | [-> | [-> | []]]]]];
        try congruence.
      + subst slot. destruct alias; [congruence |].
        rewrite Hna in Hw by reflexivity. discriminate.
      + subst slot. destruct alias; [| congruence].
        unfold linked in Hl. rewrite Hkind in Hl.
        destruct Hl as (_ & _ & _ & Hsc). unfold unset in Hsc. congruence.
    - constructor; [| constructor]. exists id. split.
      + subst M. cbn [fst]. apply lookup_insert_eq.
      + apply restores_id; [| exact Hid16].
        unfold id_keys. apply list_elem_of_here. }
  rewrite (Read_terminated TIME_LEN _ 4 any _ Hload); cycle 1.
  { rewrite length_app. cbn [length].
    pose proof (length_known_chunks TIME_LEN minDCA maxDCA 4 self). lia. }
  f_equal. unfold finish_Read.
  replace (0 <? stream_size ([(UUID, id)] ++ known_chunks 4 self) + 5)
    with true; cycle 1.
  { symmetry. apply Z.ltb_lt.
    pose proof (stream_size_nonneg ([(UUID, id)] ++ known_chunks 4 self)). lia. }
  set (r1 := mkItem M [] ET_NORMAL ES_CLEAN).
  assert (Hpw1 : GetPassword r1 = placeholder_text alias b).
  { unfold GetPassword, CItem_GetField, r1. cbn [m_fields].
    rewrite HM by (discriminate || auto).
    unfold self, SetPassword. fold (CItem_GetField PASSWORD
      (CItem_SetField PASSWORD (placeholder_text alias b) r)).
    apply GetField_SetField. }
  rewrite (ParseSpecialPasswords_placeholder r1 alias b Hb16 Hpw1).
  fold slot.
  assert (Hg1 : GetUUID r1 END = id).
  { unfold GetUUID, r1. cbn [uuid_slot m_entrytype m_fields]. subst M.
    now rewrite lookup_insert_eq. }
  rewrite Hg1.
  assert (Hfields : m_fields (SetUUID id slot
                                (ClearField UUID (SetUUID b BASEUUID r1)))
                    = m_fields self).
  { unfold SetUUID, ClearField, CItem_SetField, r1. cbn [m_fields].
    destruct id as [| i0 id0]; [discriminate |].
    destruct b as [| b0 b1]; [discriminate |].
    apply map_eq. intros k.
    destruct (decide (k = slot)) as [-> | Hk2].
    { rewrite lookup_insert_eq, Hother by auto. now rewrite Hid. }
    rewrite lookup_insert_ne by auto.
    destruct (decide (k = UUID)) as [-> | Hk1].
    { rewrite lookup_delete_eq, Hother by discriminate. now rewrite Hu. }
    rewrite lookup_delete_ne by auto.
    destruct (decide (k = BASEUUID)) as [-> | Hk3].
    { rewrite lookup_insert_eq, Hother by discriminate. now rewrite Hb. }
    rewrite lookup_insert_ne by auto. now apply HM. }
  set (r2 := SetUUID id slot (ClearField UUID (SetUUID b BASEUUID r1))) in *.
  assert (Hr2 : r2 = mkItem (m_fields self) [] ET_NORMAL ES_CLEAN).
  { rewrite <- Hfields. subst r2 r1. unfold SetUUID, ClearField, CItem_SetField.
    reflexivity. }
  rewrite Hr2. unfold IsFieldSet. cbn [m_fields].
  rewrite (Hother UUID) by discriminate. rewrite Hu.
  rewrite (bool_decide_eq_false_2 (is_Some None))
    by (intros [? ?]; discriminate).
  unfold reset_status. rewrite (p_urfl _ _ _ _ Hps).
  change (m_entrytype self) with (m_entrytype r). rewrite Hkind.
  subst slot. destruct alias.
  - rewrite (Hother ALIASUUID) by discriminate. rewrite Hid.
    now rewrite bool_decide_eq_true_2 by eauto.
  - rewrite (Hother ALIASUUID) by discriminate.
    rewrite (Hna eq_refl).
    rewrite (bool_decide_eq_false_2 (is_Some None))
      by (intros [? ?]; discriminate).
    rewrite (Hother SHORTCUTUUID) by discriminate. rewrite Hid.
    now rewrite bool_decide_eq_true_2 by eauto.
Qed.

End RoundTrip.
(** *** Both format generations *)

Section FormatGenerations.

Variable TIME_LEN : nat.
Variables minDCA maxDCA : Z.

Local Abbreviation time_width := (time_width TIME_LEN).
Local Abbreviation Write := (Write TIME_LEN minDCA maxDCA).
Local Abbreviation round_trips := (round_trips TIME_LEN minDCA maxDCA).

(** The writers look at the kind only to tell a dependent entry from the
    others. *)
Lemma Write_as_persisted fmt r : Write fmt (as_persisted r) = Write fmt r.
Proof.
  unfold as_persisted, IsBase, IsAliasBase, IsShortcutBase.
  destruct r as [f u k s]. cbn [m_entrytype].
  destruct k; cbn [bool_decide decide_rel orb]; try reflexivity;
    destruct fmt; reflexivity.
Qed.

Lemma as_persisted_kind r :
  (m_entrytype r = ET_NORMAL \/ m_entrytype r = ET_ALIAS
   \/ m_entrytype r = ET_SHORTCUT -> as_persisted r = r)
  /\ (m_entrytype r = ET_ALIASBASE \/ m_entrytype r = ET_SHORTCUTBASE ->
      as_persisted r = set_entrytype ET_NORMAL r)
  /\ m_fields (as_persisted r) = m_fields r.
Proof.
  unfold as_persisted, IsBase, IsAliasBase, IsShortcutBase.
  destruct (m_entrytype r) eqn:Hk; simpl;
    repeat split; try reflexivity; intros H; intuition discriminate.
Qed.


End FormatGenerations.

(** *** Checking a concrete record *)

Lemma persistable_check minDCA maxDCA tfl r :
  map_Forall (field_ok minDCA maxDCA tfl) (m_fields r) -> m_URFL r = [] ->
  persistable minDCA maxDCA tfl r.
Proof.
  intros Hall Hu.
  assert (H : forall k v, m_fields r !! k = Some v ->
                          field_ok minDCA maxDCA tfl k v)
    by (intros k v Hv; exact (Hall k v Hv)).
  constructor; try exact Hu.
  - intros ft v Hft Hv. now apply (H ft v Hv).
  - intros ft v Hft Hv.
    destruct (H ft v Hv) as (_ & Ht & _). destruct (Ht Hft) as (Hl & Hr & H63).
    exists (le_unsigned v). split; [| split; assumption].
    rewrite <- Hl. symmetry. apply le_bytes_le_unsigned.
  - intros v Hv. now apply (H XTIME_INT v Hv).
  - intros v Hv. now apply (H KBSHORTCUT v Hv).
  - intros ft v Hft Hv. now apply (H ft v Hv).
  - intros v Hv. now apply (H PROTECTED v Hv).
  - intros ft v Hft Hv. now apply (H ft v Hv).
  - intros ft [v Hv]. now apply (H ft v Hv).
Qed.

Lemma round_trips_full_item : round_trips 5 0 9 V4 full_item.
Proof.
  split; [| split; [| split]].
  - cbn. repeat split; try reflexivity. eexists. split; reflexivity.
  - apply persistable_check; [| reflexivity].
    apply (bool_decide_eq_true_1 _). vm_compute. reflexivity.
  - intros a Ha. vm_compute in Ha. discriminate.
  - intros slot (Hlen & _). vm_compute in Hlen. discriminate.
Qed.

Lemma round_trips_alias_item : round_trips 5 0 9 V3 alias_item.
Proof.
  split; [| split; [| split]].
  - cbn. repeat split; try reflexivity; eexists; split; reflexivity.
  - apply persistable_check; [| reflexivity].
    apply (bool_decide_eq_true_1 _). vm_compute. reflexivity.
  - reflexivity.
  - intros Hk. discriminate Hk.
Qed.

Lemma round_trips_base_item :
  round_trips 5 0 9 V3 (as_persisted base_item).
Proof.
  split; [| split; [| split]].
  - cbn. repeat split; try reflexivity. eexists. split; reflexivity.
  - apply persistable_check; [| reflexivity].
    apply (bool_decide_eq_true_1 _). vm_compute. reflexivity.
  - reflexivity.
  - intros _ slot (Hlen & _). vm_compute in Hlen. discriminate.
Qed.



(** * Further properties of the record *)

(** A value that fits a 32-bit [int] is not changed by the reduction to
    32 bits. *)
Lemma wrap_signed_int (z : Z) :
  - 2 ^ 31 <= z < 2 ^ 31 -> wrap_signed 4 z = z.
Proof.
  intros Hz. unfold wrap_signed.
  change (2 ^ (8 * Z.of_nat 4)) with 4294967296. cbv zeta.
  change (4294967296 / 2) with 2147483648.
  change (2 ^ 31) with 2147483648 in Hz.
  destruct (Z_lt_le_dec z 0) as [Hneg | Hpos].
  - assert (Hm : z mod 4294967296 = z + 4294967296).
    { symmetry. apply (Z.mod_unique z 4294967296 (- 1)); lia. }
    rewrite Hm. destruct (Z.ltb_spec (z + 4294967296) 2147483648); lia.
  - rewrite Z.mod_small by lia.
    destruct (Z.ltb_spec z 2147483648); lia.
Qed.

(** ** Where the reader stops *)

Section ReaderStops.

Variable TIME_LEN : nat.

Lemma finish_Read_not_EOF status numread r :
  0 < numread -> status <> END_OF_FILE ->
  (finish_Read status numread r).1 <> Status END_OF_FILE.
Proof.
  intros Hpos Hs. unfold finish_Read.
  apply Z.ltb_lt in Hpos. rewrite Hpos. cbn [fst].
  intros [= H]. now apply Hs.
Qed.

Lemma Read_loop_not_EOF n : forall inp r numread,
  0 < numread ->
  (Read_loop TIME_LEN n inp r numread).1.1 <> Status END_OF_FILE.
Proof.
  induction n as [| n IH]; intros inp r numread Hpos.
  - cbn [Read_loop fst]. now apply finish_Read_not_EOF.
  - cbn [Read_loop]. unfold ReadField.
    destruct (fields inp) as [| [type data] rest].
    + cbn [fst]. now apply finish_Read_not_EOF.
    + pose proof (chunk_size_pos (type, data)) as Hc.
      destruct (IsItemDataField type).
      * destruct (SetField TIME_LEN type data r) as [r' |].
        -- destruct (bool_decide (type = END)).
           ++ cbn [fst]. apply finish_Read_not_EOF; [lia | discriminate].
           ++ apply IH. lia.
        -- cbn [fst]. apply finish_Read_not_EOF; [lia | discriminate].
      * destruct (IsItemAttField type); [cbn [fst]; discriminate |].
        destruct (bool_decide (type = END)).
        -- cbn [fst]. apply finish_Read_not_EOF; [lia | discriminate].
        -- apply IH. lia.
Qed.

(** X1. [Read] reports the end of the file exactly when the stream has no
    chunk left; the record is then the cleared record, whatever it held
    before, and the stream is as it was. *)
Theorem Read_end_of_file_iff (inp : PWSfile) (r : CItemData) :
  ((Read TIME_LEN inp r).1.1 = Status END_OF_FILE <-> fields inp = [])
  /\ (fields inp = [] ->
      Read TIME_LEN inp r = (Status END_OF_FILE, CItemData_Clear r, inp)).
Proof.
  assert (Hempty : fields inp = [] ->
            Read TIME_LEN inp r = (Status END_OF_FILE, CItemData_Clear r, inp)).
  { intros H. unfold Read.
    change 255%nat with (S 254). generalize 254%nat. intros n.
    cbn [Read_loop]. unfold ReadField. rewrite H. reflexivity. }
  split; [| exact Hempty]. split.
  - intros H. destruct (fields inp) as [| [type data] rest] eqn:Hf;
      [reflexivity | exfalso].
    revert H. unfold Read.
    change 255%nat with (S 254). generalize 254%nat. intros n.
    cbn [Read_loop]. unfold ReadField. rewrite Hf.
    pose proof (chunk_size_pos (type, data)) as Hc.
    destruct (IsItemDataField type).
    + destruct (SetField TIME_LEN type data _) as [r' |].
      * destruct (bool_decide (type = END)).
        -- cbn [fst]. apply finish_Read_not_EOF; [lia | discriminate].
        -- apply Read_loop_not_EOF. lia.
      * cbn [fst]. apply finish_Read_not_EOF; [lia | discriminate].
    + destruct (IsItemAttField type); [cbn [fst]; discriminate |].
      destruct (bool_decide (type = END)).
      * cbn [fst]. apply finish_Read_not_EOF; [lia | discriminate].
      * apply Read_loop_not_EOF. lia.
  - intros H. now rewrite (Hempty H).
Qed.

Lemma IsItemAttField_not_data type :
  IsItemAttField type = true -> IsItemDataField type = false /\ type <> END.
Proof. destruct type; intros H; try discriminate H; now split. Qed.

(** X2. A chunk with an attachment tag makes [Read] stop and ask for a
    rewind: the result is the negated count of the bytes consumed so far,
    the attachment chunk included, cast to a 32-bit [int]. The count is
    positive, and as long as it is at most 2^31 the value returned is the
    negated count itself. The fields loaded before the chunk are in the
    record, the kind is not determined, and the rest of the stream is not
    touched. *)
Theorem Read_attachment_tag_rewinds (inp : PWSfile) (r r1 : CItemData)
    (pre post : list chunk) (type : FieldType) (data : list ascii) :
  let consumed := stream_size pre + chunk_size (type, data) in
  fields inp = pre ++ (type, data) :: post ->
  (length pre < 255)%nat ->
  load TIME_LEN pre (CItemData_Clear r) = Some r1 ->
  IsItemAttField type = true ->
  Read TIME_LEN inp r
  = (Rewind (wrap_signed 4 (- consumed)), r1, mkFile (timeFieldLen inp) post)
  /\ 0 < consumed
  /\ (consumed <= 2 ^ 31 ->
      Read TIME_LEN inp r
      = (Rewind (- consumed), r1, mkFile (timeFieldLen inp) post)).
Proof.
  intros consumed Hf Hlen Hload Hatt.
  destruct (IsItemAttField_not_data _ Hatt) as [Hdata Hend].
  destruct inp as [tfl fs]. cbn [fields timeFieldLen] in *. subst fs.
  assert (H : Read TIME_LEN (mkFile tfl (pre ++ (type, data) :: post)) r
              = (Rewind (wrap_signed 4 (- consumed)), r1, mkFile tfl post)).
  { unfold Read.
    rewrite (Read_loop_prefix TIME_LEN pre 255 tfl _ _ r1 0 Hload) by lia.
    destruct (255 - length pre)%nat as [| n] eqn:Hn; [lia |].
    cbn [Read_loop ReadField fields timeFieldLen]. rewrite Hdata, Hatt.
    reflexivity. }
  assert (Hpos : 0 < consumed).
  { pose proof (stream_size_nonneg pre).
    pose proof (chunk_size_pos (type, data)). unfold consumed. lia. }
  split; [exact H |]. split; [exact Hpos |].
  intros Hfit. rewrite H, wrap_signed_int by lia. reflexivity.
Qed.

(** X3. A chunk of an item-data tag that [SetField] refuses makes [Read]
    stop with [FAILURE]: the fields loaded before it stay in the record,
    the chunk itself is consumed and the rest of the stream is left
    unread. *)
Theorem Read_fails_on_refused_field (inp : PWSfile) (r r1 : CItemData)
    (pre post : list chunk) (type : FieldType) (data : list ascii) :
  fields inp = pre ++ (type, data) :: post ->
  (length pre < 255)%nat ->
  load TIME_LEN pre (CItemData_Clear r) = Some r1 ->
  IsItemDataField type = true ->
  SetField TIME_LEN type data r1 = None ->
  Read TIME_LEN inp r
  = (finish_Read FAILURE (stream_size pre + chunk_size (type, data)) r1,
     mkFile (timeFieldLen inp) post)
  /\ (Read TIME_LEN inp r).1.1 = Status FAILURE.
Proof.
  intros Hf Hlen Hload Hdata Hset.
  destruct inp as [tfl fs]. cbn [fields timeFieldLen] in *. subst fs.
  assert (H : Read TIME_LEN (mkFile tfl (pre ++ (type, data) :: post)) r
              = (finish_Read FAILURE
                   (stream_size pre + chunk_size (type, data)) r1,
                 mkFile tfl post)).
  { unfold Read.
    rewrite (Read_loop_prefix TIME_LEN pre 255 tfl _ _ r1 0 Hload) by lia.
    destruct (255 - length pre)%nat as [| n] eqn:Hn; [lia |].
    cbn [Read_loop ReadField fields timeFieldLen]. rewrite Hdata, Hset.
    reflexivity. }
  split; [exact H |]. rewrite H. cbn [fst]. unfold finish_Read.
  pose proof (stream_size_nonneg pre). pose proof (chunk_size_pos (type, data)).
  assert (Hpos : (0 <? stream_size pre + chunk_size (type, data)) = true)
    by (apply Z.ltb_lt; lia).
  now rewrite Hpos.
Qed.

End ReaderStops.

Lemma Read_attachment_tag_rewinds_witness :
  Read 5 (mkFile 5 [(UUID, sample_uuid 7); (ATT_FIELD 96, _T "t");
                    (TITLE, _T "Bank")]) bank_item
  = (Rewind (- 27), SetUUID (sample_uuid 7) UUID empty_item,
     mkFile 5 [(TITLE, _T "Bank")]).
Proof.
  destruct (Read_attachment_tag_rewinds 5
           (mkFile 5 [(UUID, sample_uuid 7); (ATT_FIELD 96, _T "t");
                      (TITLE, _T "Bank")])
           bank_item (SetUUID (sample_uuid 7) UUID empty_item)
           [(UUID, sample_uuid 7)] [(TITLE, _T "Bank")] (ATT_FIELD 96)
           (_T "t")) as (_ & _ & H);
    [reflexivity | simpl; lia | vm_compute; reflexivity | reflexivity |].
  apply H. vm_compute. discriminate.
Defined.

Lemma Read_fails_on_refused_field_witness :
  (Read 5 (mkFile 5 [(UUID, sample_uuid 7); (XTIME_INT, _T "abc");
                     (TITLE, _T "Bank"); (END, [])]) bank_item).1.1
  = Status FAILURE.
Proof.
  apply (Read_fails_on_refused_field 5
           (mkFile 5 [(UUID, sample_uuid 7); (XTIME_INT, _T "abc");
                      (TITLE, _T "Bank"); (END, [])])
           bank_item (SetUUID (sample_uuid 7) UUID empty_item)
           [(UUID, sample_uuid 7)] [(TITLE, _T "Bank"); (END, [])] XTIME_INT
           (_T "abc"));
    [reflexivity | simpl; lia | vm_compute; reflexivity | reflexivity
    | reflexivity].
Defined.

Section FieldSetter.

Variable TIME_LEN : nat.


Lemma SetField_entrytype ft data r r' :
  SetField TIME_LEN ft data r = Some r' -> m_entrytype r' = m_entrytype r.
Proof.
  intros H.
  destruct ft; cbn [SetField] in H;
    unfold SetTextField, SetTimeField in H; try discriminate H;
    repeat (match type of H with
            | (if ?b then _ else _) = _ => destruct b
            | mbind _ ?o = _ => destruct o; cbn [mbind option_bind] in H
            end; try discriminate H);
    injection H as <-; try reflexivity.
  all: unfold SetProtected;
    match goal with
    | |- context [if ?b then _ else _] => destruct b
    end; reflexivity.
Qed.

Lemma ParseSpecialPasswords_entrytype r :
  m_entrytype (ParseSpecialPasswords r) = m_entrytype r.
Proof.
  destruct (ParseSpecialPasswords_cases r)
    as [(slot & b & _ & _ & _ & _ & _ & _ & _ & _ & _ & H & _) | [_ ->]];
    [exact H | reflexivity].
Qed.

(** The kind [finish_Read] leaves, and what [HasUUID] says of it. *)
Lemma finish_Read_kind status numread r :
  m_entrytype r = ET_NORMAL -> 0 < numread \/ m_fields r = ∅ ->
  let r' := (finish_Read status numread r).2 in
  m_entrytype r'
  = (if IsFieldSet UUID r' then ET_NORMAL
     else if IsFieldSet ALIASUUID r' then ET_ALIAS
     else if IsFieldSet SHORTCUTUUID r' then ET_SHORTCUT
     else ET_NORMAL).
Proof.
  intros Hk Hinv. unfold finish_Read.
  destruct (0 <? numread) eqn:Hnr; cbn [snd].
  - pose proof (ParseSpecialPasswords_entrytype r) as Hp. rewrite Hk in Hp.
    set (p := ParseSpecialPasswords r) in *.
    unfold IsFieldSet. cbn [m_fields set_entrytype].
    destruct (bool_decide (is_Some (m_fields p !! UUID))) eqn:H1.
    + cbn [m_fields set_entrytype m_entrytype]. now rewrite H1.
    + destruct (bool_decide (is_Some (m_fields p !! ALIASUUID))) eqn:H2.
      * cbn [m_fields set_entrytype m_entrytype]. now rewrite H1, H2.
      * destruct (bool_decide (is_Some (m_fields p !! SHORTCUTUUID))) eqn:H3.
        -- cbn [m_fields set_entrytype m_entrytype]. now rewrite H1, H2, H3.
        -- now rewrite H1, H2, H3.
  - apply Z.ltb_ge in Hnr. destruct Hinv as [Hpos | Hempty]; [lia |].
    unfold IsFieldSet. rewrite Hk, Hempty, !lookup_empty.
    now rewrite !(bool_decide_eq_false_2 (is_Some None))
      by (intros [? ?]; discriminate).
Qed.

Lemma Read_loop_exits n : forall inp r numread,
  m_entrytype r = ET_NORMAL -> 0 <= numread ->
  0 < numread \/ m_fields r = ∅ ->
  (exists z, (Read_loop TIME_LEN n inp r numread).1.1 = Rewind z
             /\ m_entrytype (Read_loop TIME_LEN n inp r numread).1.2
                = ET_NORMAL)
  \/ (exists status nr r0,
        m_entrytype r0 = ET_NORMAL /\ (0 < nr \/ m_fields r0 = ∅)
        /\ (Read_loop TIME_LEN n inp r numread).1
           = finish_Read status nr r0).
Proof.
  induction n as [| n IH]; intros inp r numread Hk Hnr Hinv.
  - right. now exists SUCCESS, numread, r.
  - cbn [Read_loop]. unfold ReadField.
    destruct (fields inp) as [| [type data] rest].
    + right. now exists SUCCESS, numread, r.
    + pose proof (chunk_size_pos (type, data)) as Hc.
      assert (Hpos : 0 < numread + chunk_size (type, data)) by lia.
      destruct (IsItemDataField type).
      * destruct (SetField TIME_LEN type data r) as [r' |] eqn:Hs.
        -- pose proof (SetField_entrytype _ _ _ _ Hs) as Hk'. rewrite Hk in Hk'.
           destruct (bool_decide (type = END)).
           ++ right. exists SUCCESS, (numread + chunk_size (type, data)), r'.
              auto.
           ++ apply IH; auto; lia.
        -- right. exists FAILURE, (numread + chunk_size (type, data)), r.
           auto.
      * destruct (IsItemAttField type).
        -- left. now eexists.
        -- destruct (bool_decide (type = END)).
           ++ right. exists SUCCESS, (numread + chunk_size (type, data)), r.
              auto.
           ++ apply IH; auto; lia.
Qed.

(** X5. Whatever the stream holds, the record [Read] hands back is
    never of a base kind. When [Read] returns a status, the kind is the
    one of the first id slot that is set, in the order [UUID],
    [ALIASUUID], [SHORTCUTUUID] (normal when none is), so that [HasUUID]
    holds exactly when one of the three slots is set. *)
Theorem Read_kind_from_id_slots (inp : PWSfile) (r : CItemData) :
  let res := Read TIME_LEN inp r in
  let r' := res.1.2 in
  m_entrytype r' <> ET_ALIASBASE /\ m_entrytype r' <> ET_SHORTCUTBASE
  /\ (forall status, res.1.1 = Status status ->
      m_entrytype r'
      = (if IsFieldSet UUID r' then ET_NORMAL
         else if IsFieldSet ALIASUUID r' then ET_ALIAS
         else if IsFieldSet SHORTCUTUUID r' then ET_SHORTCUT
         else ET_NORMAL)
      /\ HasUUID r'
         = IsFieldSet UUID r' || IsFieldSet ALIASUUID r'
           || IsFieldSet SHORTCUTUUID r').
Proof.
  intros res r'. subst r' res. unfold Read.
  pose proof (Read_loop_exits 255 inp (CItemData_Clear r) 0 eq_refl
                (Z.le_refl 0) (or_intror eq_refl)) as Hexit.
  revert Hexit.
  generalize (Read_loop TIME_LEN 255 inp (CItemData_Clear r) 0).
  intros [[res r'] rest] Hexit. cbn [fst snd] in *.
  assert (Hkind : (exists z, res = Rewind z) /\ m_entrytype r' = ET_NORMAL
            \/ m_entrytype r'
               = (if IsFieldSet UUID r' then ET_NORMAL
                  else if IsFieldSet ALIASUUID r' then ET_ALIAS
                  else if IsFieldSet SHORTCUTUUID r' then ET_SHORTCUT
                  else ET_NORMAL)).
  { destruct Hexit as [(z & Hz & Hk) | (status & nr & r0 & Hk & Hinv & Hres)].
    - left. split; [now exists z | exact Hk].
    - right. pose proof (finish_Read_kind status nr r0 Hk Hinv) as H.
      cbn zeta in H. now rewrite <- Hres in H. }
  split; [| split].
  - destruct Hkind as [[_ ->] | ->]; [discriminate |].
    now destruct (IsFieldSet UUID r'), (IsFieldSet ALIASUUID r'),
      (IsFieldSet SHORTCUTUUID r').
  - destruct Hkind as [[_ ->] | ->]; [discriminate |].
    now destruct (IsFieldSet UUID r'), (IsFieldSet ALIASUUID r'),
      (IsFieldSet SHORTCUTUUID r').
  - intros status Hst.
    destruct Hkind as [[[z Hz] _] | Hk]; [rewrite Hz in Hst; discriminate |].
    split; [exact Hk |]. unfold HasUUID. rewrite Hk.
    destruct (IsFieldSet UUID r'), (IsFieldSet ALIASUUID r'),
      (IsFieldSet SHORTCUTUUID r'); reflexivity.
Qed.

End FieldSetter.

(** ** Kind changes that keep the id *)

Lemma HasUUID_slot r :
  HasUUID r = IsFieldSet (uuid_slot r END) r.
Proof.
  unfold HasUUID, uuid_slot. destruct (m_entrytype r); cbn [andb orb];
    rewrite ?bool_decide_eq_true_2 by reflexivity;
    rewrite ?bool_decide_eq_false_2 by discriminate;
    cbn [andb orb]; rewrite ?orb_false_r; reflexivity.
Qed.

(** X6. On every change of kind that starts from a normal or base kind,
    that goes to [ET_NORMAL], or that keeps the kind, an entry that has its
    id keeps it: [HasUUID] still holds, [GetUUID] reads the same id from
    the slot of the new kind, and no field other than the three id slots is
    touched. *)
Theorem SetEntryType_keeps_id (et : EntryType) (r : CItemData) :
  wf_store r -> HasUUID r = true ->
  IsDependent r = false \/ et = ET_NORMAL \/ et = m_entrytype r ->
  let r' := SetEntryType et r in
  m_entrytype r' = et
  /\ HasUUID r' = true
  /\ GetUUID r' END = GetUUID r END
  /\ (forall ft, ft <> UUID -> ft <> ALIASUUID -> ft <> SHORTCUTUUID ->
        m_fields r' !! ft = m_fields r !! ft)
  /\ m_URFL r' = m_URFL r.
Proof.
  intros Hwf Hhas Htrans r'. subst r'.
  rewrite HasUUID_slot in Hhas. unfold IsFieldSet in Hhas.
  apply bool_decide_eq_true in Hhas. destruct Hhas as [id Hid].
  pose proof (wf_store_lookup _ _ _ Hwf Hid) as Hne.
  destruct id as [| c id]; [contradiction |].
  split; [reflexivity |].
  rewrite HasUUID_slot. unfold IsFieldSet, GetUUID.
  rewrite Hid.
  assert (Hcases :
    m_fields (SetEntryType et r) !! uuid_slot (SetEntryType et r) END
    = Some (c :: id)
    /\ (forall ft, ft <> UUID -> ft <> ALIASUUID -> ft <> SHORTCUTUUID ->
          m_fields (SetEntryType et r) !! ft = m_fields r !! ft)
    /\ m_URFL (SetEntryType et r) = m_URFL r).
  { unfold IsDependent, IsAlias, IsShortcut in Htrans.
    unfold SetEntryType, uuid_slot in *.
    destruct (m_entrytype r) eqn:Hk, et; simpl in Htrans |- *;
      try (exfalso; destruct Htrans as [H | [H | H]]; discriminate H);
      try (split; [exact Hid | split; [reflexivity | reflexivity]]).
    all: unfold GetUUID, uuid_slot; rewrite ?Hk; simpl; rewrite ?Hid; simpl;
      (split; [| split; [| reflexivity]]);
      [ rewrite ?lookup_delete_ne by discriminate; apply lookup_insert_eq
      | intros ft H1 H2 H3;
        rewrite lookup_delete_ne, lookup_insert_ne by congruence;
        reflexivity ]. }
  destruct Hcases as (Hslot & Hother & Hurfl).
  rewrite Hslot. split; [| split; [reflexivity | split; assumption]].
  apply bool_decide_eq_true_2. eauto.
Qed.

Lemma SetEntryType_keeps_id_witness :
  HasUUID (SetEntryType ET_ALIAS bank_item) = true
  /\ GetUUID (SetEntryType ET_ALIAS bank_item) END = sample_uuid 7
  /\ GetUUID (SetEntryType ET_NORMAL alias_item) END = sample_uuid 9.
Proof.
  assert (Hb : wf_store bank_item)
    by (apply (bool_decide_eq_true_1 _); vm_compute; reflexivity).
  assert (Ha : wf_store alias_item)
    by (apply (bool_decide_eq_true_1 _); vm_compute; reflexivity).
  destruct (SetEntryType_keeps_id ET_ALIAS bank_item Hb eq_refl
              (or_introl eq_refl)) as (_ & H1 & H2 & _).
  destruct (SetEntryType_keeps_id ET_NORMAL alias_item Ha eq_refl
              (or_intror (or_introl eq_refl))) as (_ & _ & H3 & _).
  split; [exact H1 | split; [exact H2 | exact H3]].
Defined.

(** X7. Making a normal entry an alias or a shortcut and then normal
    again gives back the record it was, provided the entry has its id and
    the slot of the dependent kind was free. *)
Theorem SetEntryType_to_dependent_and_back (et : EntryType) (r : CItemData) :
  wf_store r -> m_entrytype r = ET_NORMAL -> IsFieldSet UUID r = true ->
  et = ET_ALIAS \/ et = ET_SHORTCUT ->
  m_fields r !! (if bool_decide (et = ET_ALIAS) then ALIASUUID
                 else SHORTCUTUUID) = None ->
  SetEntryType ET_NORMAL (SetEntryType et r) = r.
Proof.
  intros Hwf Hk Hset Het Hfree.
  unfold IsFieldSet in Hset. apply bool_decide_eq_true in Hset.
  destruct Hset as [id Hid].
  pose proof (wf_store_lookup _ _ _ Hwf Hid) as Hne.
  destruct id as [| c id]; [contradiction |].
  destruct r as [M U k s]. cbn [m_entrytype m_fields] in *. subst k.
  destruct Het as [-> | ->]; simpl in Hfree;
    unfold SetEntryType, GetUUID, uuid_slot; simpl; rewrite Hid; simpl;
    rewrite lookup_delete_ne, lookup_insert_eq by discriminate; simpl;
    unfold set_entrytype, erase, ClearField, SetUUID, CItem_SetField;
    cbn [m_fields m_URFL m_entrytype m_entrystatus];
    f_equal; apply map_eq; intros ft.
  - destruct (decide (ft = ALIASUUID)) as [-> | H1];
      [now rewrite lookup_delete_eq |].
    rewrite lookup_delete_ne by congruence.
    destruct (decide (ft = UUID)) as [-> | H2];
      [now rewrite lookup_insert_eq |].
    now rewrite lookup_insert_ne, lookup_delete_ne, lookup_insert_ne
      by congruence.
  - destruct (decide (ft = SHORTCUTUUID)) as [-> | H1];
      [now rewrite lookup_delete_eq |].
    rewrite lookup_delete_ne by congruence.
    destruct (decide (ft = UUID)) as [-> | H2];
      [now rewrite lookup_insert_eq |].
    now rewrite lookup_insert_ne, lookup_delete_ne, lookup_insert_ne
      by congruence.
Qed.

Lemma SetEntryType_to_dependent_and_back_witness :
  SetEntryType ET_NORMAL (SetEntryType ET_SHORTCUT bank_item) = bank_item.
Proof.
  apply (SetEntryType_to_dependent_and_back ET_SHORTCUT bank_item);
    [ apply (bool_decide_eq_true_1 _); vm_compute; reflexivity
    | reflexivity | reflexivity | right; reflexivity | reflexivity ].
Defined.

(** ** Expiry *)

Section ExpiryProperties.

Variable mktime_plus_days : Z -> Z -> option Z.
Variable ConvertToDateTimeString : Z -> StringX.
Variable IDSC_UNKNOWN : StringX.

Local Abbreviation WillExpire := (WillExpire mktime_plus_days).
Local Abbreviation UpdatePasswordHistory :=
  (UpdatePasswordHistory ConvertToDateTimeString IDSC_UNKNOWN).
Local Abbreviation UpdatePassword :=
  (UpdatePassword ConvertToDateTimeString IDSC_UNKNOWN).

(** X8. An entry without an expiry time is neither expired nor about to
    expire; an expired entry is never reported as about to expire; and an
    entry is reported as about to expire only when its expiry time is
    after [now] and before the shifted time the calendar gave. When the
    calendar fails, nothing is about to expire. *)
Theorem WillExpire_excludes_IsExpired (now numdays : Z) (r : CItemData) :
  (GetXTime r = 0 ->
   IsExpired now r = false /\ WillExpire now numdays r = false)
  /\ (IsExpired now r = true -> WillExpire now numdays r = false)
  /\ (WillExpire now numdays r = true ->
      exists exptime, mktime_plus_days now numdays = Some exptime
                      /\ exptime <> -1 /\ now < GetXTime r < exptime)
  /\ (mktime_plus_days now numdays = None
      \/ mktime_plus_days now numdays = Some (-1) ->
      WillExpire now numdays r = false).
Proof.
  unfold IsExpired, WillExpire. cbv zeta.
  split; [| split; [| split]].
  - intros ->. now split.
  - intros H. apply andb_true_iff in H. destruct H as [H0 H1].
    apply negb_true_iff in H0. rewrite H0.
    apply Z.ltb_lt in H1.
    now rewrite (proj2 (Z.leb_le _ _)) by lia.
  - destruct (GetXTime r =? 0) eqn:H0; [discriminate |].
    destruct (GetXTime r <=? now) eqn:H1; [discriminate |].
    apply Z.leb_gt in H1.
    destruct (mktime_plus_days now numdays) as [e |];
      cbn [default from_option id].
    + destruct (e =? -1) eqn:He.
      * intros H. apply Z.ltb_lt in H. lia.
      * intros H. apply Z.ltb_lt in H. apply Z.eqb_neq in He.
        exists e. repeat split; [exact He | lia | lia].
    + cbn. intros H. apply Z.ltb_lt in H. lia.
  - intros Hfail.
    destruct (GetXTime r =? 0); [reflexivity |].
    destruct (GetXTime r <=? now) eqn:H1; [reflexivity |].
    apply Z.leb_gt in H1.
    destruct Hfail as [-> | ->]; cbn; apply Z.ltb_ge; lia.
Qed.

Lemma UpdatePasswordHistory_other_fields prefs r ft :
  ft <> PWHIST ->
  m_fields (UpdatePasswordHistory prefs r) !! ft = m_fields r !! ft.
Proof.
  intros Hft. rewrite UpdatePasswordHistory_cases. cbv zeta.
  destruct (isSaving _); [| reflexivity].
  unfold SetPWHistory. now rewrite lookup_SetField_ne.
Qed.

Lemma GetXTimeInt_lookup r r' :
  m_fields r' !! XTIME_INT = m_fields r !! XTIME_INT ->
  GetXTimeInt r' = GetXTimeInt r.
Proof. unfold GetXTimeInt. now intros ->. Qed.

(** X9. Updating the password restarts the expiry. With an expiry
    interval of [xint] days the expiry time becomes the time of the call
    plus the seconds of the interval, the product [xint * 86400] as the
    source computes it in a 32-bit [int] (the product itself for an
    interval of at most 24855 days either way), provided the sum fits the
    64-bit time; without an interval the expiry time becomes 0. The
    interval itself and every field other than the password, its history
    and the two times are left as they were. So with an interval of 1 to
    24855 days and a positive time of the call the entry is not expired at
    the time of the call, and is expired exactly from the second after the
    new expiry time on. *)
Theorem UpdatePassword_restarts_expiry (prefs : PWSprefs) (now : Z)
    (newpw : StringX) (r : CItemData) :
  let xint := GetXTimeInt r in
  let seconds := wrap_signed 4 (xint * 86400) in
  let r' := UpdatePassword prefs now newpw r in
  - 2 ^ 63 <= now + seconds < 2 ^ 63 ->
  GetXTime r' = (if xint =? 0 then 0 else now + seconds)
  /\ (- 24855 <= xint <= 24855 -> seconds = xint * 86400)
  /\ GetXTimeInt r' = xint
  /\ (forall ft, ft <> PASSWORD -> ft <> PWHIST -> ft <> PMTIME ->
        ft <> XTIME -> m_fields r' !! ft = m_fields r !! ft)
  /\ (0 < xint <= 24855 -> 0 < now ->
      IsExpired now r' = false
      /\ forall t, IsExpired t r' = true <-> now + xint * 86400 < t).
Proof.
  intros xint seconds r' Hrange.
  assert (Hother : forall ft, ft <> PASSWORD -> ft <> PWHIST -> ft <> PMTIME ->
            ft <> XTIME -> m_fields r' !! ft = m_fields r !! ft).
  { intros ft H1 H2 H3 H4. subst r'.
    rewrite UpdatePassword_other_fields by assumption.
    now apply UpdatePasswordHistory_other_fields. }
  assert (Hx : GetXTime r' = (if xint =? 0 then 0 else now + seconds)).
  { subst r'. unfold UpdatePassword. cbv zeta.
    assert (Hxi : GetXTimeInt
                    (SetPMTime now
                       (SetPassword newpw (UpdatePasswordHistory prefs r)))
                  = xint).
    { apply GetXTimeInt_lookup. unfold SetPMTime, SetPassword, CItem_SetTime.
      rewrite !lookup_SetField_ne by discriminate.
      now apply UpdatePasswordHistory_other_fields. }
    rewrite Hxi. unfold GetXTime, SetXTime.
    destruct (xint =? 0) eqn:H0; cbn [negb].
    - apply GetTime_SetTime. lia.
    - now apply GetTime_SetTime. }
  assert (Hsec : - 24855 <= xint <= 24855 -> seconds = xint * 86400).
  { intros Hsmall. apply wrap_signed_int.
    change (2 ^ 31) with 2147483648. lia. }
  split; [exact Hx |]. split; [exact Hsec |].
  split; [| split; [exact Hother |]].
  - apply GetXTimeInt_lookup. apply Hother; discriminate.
  - intros Hpos Hnow. unfold IsExpired. cbv zeta. rewrite Hx.
    rewrite Hsec by lia.
    rewrite (proj2 (Z.eqb_neq xint 0)) by lia.
    assert (Hne : (now + xint * 86400 =? 0) = false)
      by (apply Z.eqb_neq; lia).
    rewrite Hne. cbn [negb andb]. split.
    + apply Z.ltb_ge. lia.
    + intros t. apply Z.ltb_lt.
Qed.

End ExpiryProperties.

Lemma UpdatePassword_restarts_expiry_witness :
  GetXTime (UpdatePassword (fun _ => []) (_T "Unknown") scenario_prefs
              scenario_time (_T "p2") (SetXTimeInt 30 bank_item))
  = scenario_time + 30 * 86400
  /\ GetXTime (UpdatePassword (fun _ => []) (_T "Unknown") scenario_prefs
                 scenario_time (_T "p2") (SetXTimeInt 30000 bank_item))
     = - 2967296.
Proof.
  split.
  - apply (UpdatePassword_restarts_expiry (fun _ => []) (_T "Unknown")
             scenario_prefs scenario_time (_T "p2")
             (SetXTimeInt 30 bank_item)).
    vm_compute. split; [discriminate | reflexivity].
  - apply (UpdatePassword_restarts_expiry (fun _ => []) (_T "Unknown")
             scenario_prefs scenario_time (_T "p2")
             (SetXTimeInt 30000 bank_item)).
    vm_compute. split; [discriminate | reflexivity].
Defined.

(** ** Typed accessors *)

(** X10. The two markers of an empty history, ["0"] and ["00000"], are
    never stored and never returned: [SetPWHistory] stores the empty text
    for them (which removes the field), and [GetPWHistory] returns the
    empty text for a record that holds one of them. Any other text is
    stored and returned as it is. *)
Theorem PWHistory_empty_markers (h : StringX) (r : CItemData) :
  let empty_marker s := s = _T "0" \/ s = _T "00000" in
  (empty_marker h ->
   IsFieldSet PWHIST (SetPWHistory h r) = false
   /\ GetPWHistory (SetPWHistory h r) = [])
  /\ (~ empty_marker h -> GetPWHistory (SetPWHistory h r) = h)
  /\ ~ empty_marker (GetPWHistory r)
  /\ (forall ft, ft <> PWHIST ->
        m_fields (SetPWHistory h r) !! ft = m_fields r !! ft).
Proof.
  intros empty_marker. subst empty_marker. cbv beta.
  split; [| split; [| split]].
  - intros Hm. unfold SetPWHistory.
    assert (Hb : bool_decide (h = _T "0") || bool_decide (h = _T "00000")
                 = true).
    { destruct Hm as [-> | ->]; reflexivity. }
    rewrite Hb. unfold IsFieldSet, GetPWHistory, CItem_GetField, CItem_SetField.
    cbn [m_fields]. rewrite lookup_delete_eq. split; [| reflexivity].
    apply bool_decide_eq_false_2. intros [? ?]; discriminate.
  - intros Hm. unfold SetPWHistory.
    assert (Hb : bool_decide (h = _T "0") || bool_decide (h = _T "00000")
                 = false).
    { apply orb_false_iff. split; apply bool_decide_eq_false_2; tauto. }
    rewrite Hb. unfold GetPWHistory. rewrite GetField_SetField. now rewrite Hb.
  - unfold GetPWHistory.
    destruct (bool_decide (CItem_GetField PWHIST r = _T "0")) eqn:H1;
      [intros [H | H]; discriminate H |].
    destruct (bool_decide (CItem_GetField PWHIST r = _T "00000")) eqn:H2;
      [intros [H | H]; discriminate H |].
    apply bool_decide_eq_false in H1, H2. cbn [orb]. tauto.
  - intros ft Hft. unfold SetPWHistory. now apply lookup_SetField_ne.
Qed.

(** X11. The integer fields read back what was set: the expiry interval
    and the keyboard shortcut for every 32-bit value, the double-click
    actions for every 16-bit value. A record without the field reads 0 for
    the interval and the shortcut, and -1 for a double-click action. *)
Theorem integer_fields_read_back (r : CItemData) (i32 i16 : Z)
    (bShift : bool) :
  - 2 ^ 31 <= i32 < 2 ^ 31 -> - 2 ^ 15 <= i16 < 2 ^ 15 ->
  GetXTimeInt (SetXTimeInt i32 r) = i32
  /\ GetKBShortcut (SetKBShortcut i32 r) = i32
  /\ GetDCA (SetDCA i16 bShift r) bShift = i16
  /\ IsDCASet bShift (SetDCA i16 bShift r) = true
  /\ (m_fields r !! XTIME_INT = None -> GetXTimeInt r = 0)
  /\ (m_fields r !! KBSHORTCUT = None -> GetKBShortcut r = 0)
  /\ (IsDCASet bShift r = false -> GetDCA r bShift = -1).
Proof.
  intros H32 H16.
  assert (E32 : getInt32 (putInt32 i32) = i32)
    by (apply le_signed_le_bytes; [lia | exact H32]).
  assert (E16 : getInt16 (putInt16 i16) = i16)
    by (apply le_signed_le_bytes; [lia | exact H16]).
  repeat split.
  - unfold GetXTimeInt, SetXTimeInt, CItem_SetField.
    cbn [m_fields putInt32 le_bytes].
    rewrite lookup_insert_eq. exact E32.
  - unfold GetKBShortcut, SetKBShortcut, CItem_SetField.
    cbn [m_fields putInt32 le_bytes]. rewrite lookup_insert_eq. exact E32.
  - unfold GetDCA, SetDCA, CItem_SetField. cbn [m_fields putInt16 le_bytes].
    rewrite lookup_insert_eq. exact E16.
  - unfold IsDCASet, SetDCA, CItem_SetField. cbn [m_fields putInt16 le_bytes].
    rewrite lookup_insert_eq. apply bool_decide_eq_true_2. eauto.
  - unfold GetXTimeInt. now intros ->.
  - unfold GetKBShortcut. now intros ->.
  - unfold IsDCASet, GetDCA. intros H. apply bool_decide_eq_false in H.
    destruct (m_fields r !! _) as [v |]; [| reflexivity].
    exfalso. apply H. eauto.
Qed.

Lemma integer_fields_read_back_witness :
  GetXTimeInt (SetXTimeInt 90 bank_item) = 90
  /\ GetDCA (SetDCA (-1) true bank_item) true = -1.
Proof.
  destruct (integer_fields_read_back bank_item 90 (-1) true)
    as (H1 & _ & H2 & _); [lia | lia |].
  split; [exact H1 | exact H2].
Defined.

(** X12. The protected flag is stored as the single byte 1 or not at
    all: after [SetProtected b] the entry is protected exactly when [b]
    holds, switching the flag off removes the field, and no other field is
    touched. A flag chunk read from a file switches the flag on exactly
    when its byte is not 0. *)
Theorem protected_flag (TIME_LEN : nat) (b : bool) (c : ascii)
    (r : CItemData) :
  IsProtected (SetProtected b r) = b
  /\ IsFieldSet PROTECTED (SetProtected b r) = b
  /\ GetProtected_text (SetProtected b r) = (if b then _T "1" else [])
  /\ (forall ft, ft <> PROTECTED ->
        m_fields (SetProtected b r) !! ft = m_fields r !! ft)
  /\ SetField TIME_LEN PROTECTED [c] r
     = Some (SetProtected (negb (bool_decide (c = zero_byte))) r)
  /\ (m_fields r !! PROTECTED = None -> IsProtected r = false).
Proof.
  assert (H1 : IsProtected (SetProtected b r) = b).
  { unfold IsProtected, GetProtected, SetProtected, erase, ClearField,
      CItem_SetField.
    destruct b; cbn [m_fields].
    - now rewrite lookup_insert_eq.
    - now rewrite lookup_delete_eq. }
  split; [exact H1 |]. split; [| split; [| split; [| split]]].
  - unfold IsFieldSet, SetProtected, erase, ClearField, CItem_SetField.
    destruct b; cbn [m_fields].
    + rewrite lookup_insert_eq. apply bool_decide_eq_true_2. eauto.
    + rewrite lookup_delete_eq. apply bool_decide_eq_false_2.
      intros [? ?]; discriminate.
  - unfold GetProtected_text. rewrite H1. reflexivity.
  - intros ft Hft. unfold SetProtected, erase, ClearField, CItem_SetField.
    destruct b; cbn [m_fields].
    + now rewrite lookup_insert_ne by congruence.
    + now rewrite lookup_delete_ne by congruence.
  - reflexivity.
  - unfold IsProtected, GetProtected. now intros ->.
Qed.

(** ** Notes and titles on one line *)

Lemma CleanNotes_flat_map s d :
  d <> zero_byte ->
  CleanNotes s d
  = flat_map (fun c => if bool_decide (c = CR) then []
                       else if bool_decide (c = LF) then [d] else [c]) s.
Proof.
  intros Hd. unfold CleanNotes.
  rewrite bool_decide_eq_false_2 by exact Hd. cbn [negb].
  assert (H : forall acc,
            foldl (fun r2 c =>
                     if bool_decide (c = CR) then r2
                     else if bool_decide (c = LF) then r2 ++ [d]
                     else r2 ++ [c]) acc s
            = acc ++ flat_map (fun c => if bool_decide (c = CR) then []
                                        else if bool_decide (c = LF) then [d]
                                        else [c]) s).
  { induction s as [| c s IH]; intros acc; cbn [foldl flat_map].
    - now rewrite app_nil_r.
    - rewrite IH. destruct (bool_decide (c = CR)); [reflexivity |].
      destruct (bool_decide (c = LF)); now rewrite <- app_assoc. }
  apply (H []).
Qed.

(** X13. With a delimiter that is neither 0 nor a line-end character,
    the notes [GetNotes] returns are on one line: they hold no carriage
    return and no line feed, and as many delimiters as the stored notes
    hold delimiters and line feeds together. With the delimiter 0 the
    stored notes are returned as they are. *)
Theorem GetNotes_single_line (d : TCHAR) (r : CItemData) :
  (d <> zero_byte -> d <> CR -> d <> LF ->
   (CR ∉ GetNotes d r) /\ (LF ∉ GetNotes d r)
   /\ length (filter (fun c => c = d) (GetNotes d r))
      = length (filter (fun c => c = d \/ c = LF) (CItem_GetField NOTES r)))
  /\ GetNotes zero_byte r = CItem_GetField NOTES r.
Proof.
  split; [| reflexivity].
  intros H0 Hcr Hlf. unfold GetNotes. rewrite CleanNotes_flat_map by exact H0.
  generalize (CItem_GetField NOTES r). intros s.
  induction s as [| c s (IH1 & IH2 & IH3)]; cbn [flat_map].
  - rewrite !elem_of_nil. tauto.
  - destruct (decide (c = CR)) as [-> | Hc].
    + rewrite bool_decide_eq_true_2 by reflexivity. cbn [app].
      split; [exact IH1 | split; [exact IH2 |]].
      rewrite filter_cons_False; [exact IH3 |].
      intros [H | H]; [now apply Hcr | discriminate H].
    + rewrite (bool_decide_eq_false_2 (c = CR)) by exact Hc.
      destruct (decide (c = LF)) as [-> | Hl].
      * rewrite bool_decide_eq_true_2 by reflexivity. cbn [app].
        rewrite !elem_of_cons.
        split; [| split].
        -- intros [H | H]; [now apply Hcr | now apply IH1].
        -- intros [H | H]; [now apply Hlf | now apply IH2].
        -- rewrite filter_cons_True by reflexivity.
           rewrite filter_cons_True by (now right).
           cbn [length]. now rewrite IH3.
      * rewrite (bool_decide_eq_false_2 (c = LF)) by exact Hl. cbn [app].
        rewrite !elem_of_cons.
        split; [| split].
        -- intros [H | H]; [now apply Hc | now apply IH1].
        -- intros [H | H]; [now apply Hl | now apply IH2].
        -- destruct (decide (c = d)) as [-> | Hd].
           ++ rewrite !filter_cons_True by auto. cbn [length].
              now rewrite IH3.
           ++ rewrite !filter_cons_False by tauto. exact IH3.
Qed.


Lemma find_None c s :
  StringX_find c s = None -> replaced c [] s = s /\ (c ∉ s).
Proof.
  induction s as [| x s IH]; cbn [StringX_find];
    [intros _; split; [reflexivity |] |].
  - apply not_elem_of_nil.
  - case_bool_decide as Hx; [discriminate |].
    destruct (StringX_find c s) as [n |]; [discriminate |]. intros _.
    destruct (IH eq_refl) as [IH1 IH2]. split.
    + unfold replaced in *. cbn [flat_map].
      rewrite bool_decide_eq_false_2 by exact Hx. cbn [app]. now rewrite IH1.
    + rewrite elem_of_cons. intros [H | H]; [now apply Hx | now apply IH2].
Qed.

Lemma replaced_no_occurrence c sep s : c ∉ s -> replaced c sep s = s.
Proof.
  induction s as [| x s IH]; [reflexivity |].
  rewrite elem_of_cons. intros H. unfold replaced in *. cbn [flat_map].
  rewrite bool_decide_eq_false_2 by (intros ->; tauto).
  cbn [app]. rewrite IH by tauto. reflexivity.
Qed.

Lemma find_Some c s pos :
  StringX_find c s = Some pos ->
  (c ∉ substr s 0 pos) /\ s = substr s 0 pos ++ c :: substr_from s (pos + 1)
  /\ (length (substr_from s (pos + 1)) < length s)%nat.
Proof.
  unfold substr, substr_from.
  revert pos. induction s as [| x s IH]; intros pos; cbn [StringX_find];
    [discriminate |].
  case_bool_decide as Hx.
  - intros [= <-]. subst x. rewrite !drop_0. cbn [take Nat.add drop app].
    rewrite drop_0. cbn [length].
    split; [apply not_elem_of_nil | split; [reflexivity | lia]].
  - destruct (StringX_find c s) as [n |] eqn:Hf; [| discriminate].
    intros [= <-]. destruct (IH n eq_refl) as (IH1 & IH2 & IH3).
    rewrite !drop_0 in *. cbn [take Nat.add drop app length].
    split; [| split].
    + rewrite elem_of_cons. intros [H | H]; [now apply Hx | now apply IH1].
    + now rewrite <- IH2.
    + lia.
Qed.

(** The loop replaces every delimiter, given enough fuel. *)
Lemma replace_delimiters_replaced fuel d sep : forall built s,
  (length s < fuel)%nat ->
  let '(b, rest) := replace_delimiters fuel d sep built s in
  b ++ rest = built ++ replaced d sep s /\ (d ∉ rest).
Proof.
  induction fuel as [| fuel IH]; intros built s Hlen; [lia |].
  cbn [replace_delimiters].
  destruct (StringX_find d s) as [pos |] eqn:Hf.
  - destruct (find_Some _ _ _ Hf) as (Hpre & Hs & Hshort).
    specialize (IH (built ++ substr s 0 pos ++ sep)
                   (substr_from s (pos + 1)) ltac:(lia)).
    destruct (replace_delimiters fuel d sep _ _) as [b rest].
    destruct IH as [IH1 IH2]. split; [| exact IH2].
    rewrite IH1. rewrite Hs at 3. unfold replaced.
    rewrite flat_map_app. cbn [flat_map].
    rewrite bool_decide_eq_true_2 by reflexivity.
    fold (replaced d sep (substr s 0 pos)).
    rewrite (replaced_no_occurrence _ _ _ Hpre).
    now rewrite <- !app_assoc.
  - destruct (find_None _ _ Hf) as [_ Hno]. split; [| exact Hno].
    now rewrite (replaced_no_occurrence _ _ _ Hno).
Qed.

Lemma SetNotes_replaced notes d r :
  d <> zero_byte ->
  SetNotes notes d r = CItem_SetField NOTES (replaced d CRLF notes) r.
Proof.
  intros Hd. unfold SetNotes. rewrite bool_decide_eq_false_2 by exact Hd.
  pose proof (replace_delimiters_replaced (S (length notes)) d CRLF [] notes
                ltac:(lia)) as H.
  destruct (replace_delimiters _ _ _ _ _) as [b rest].
  destruct H as [H _]. cbn [app] in H. rewrite <- H.
  destruct rest; [now rewrite app_nil_r | reflexivity].
Qed.

(** X14. [SetNotes] with a delimiter stores the notes with every
    delimiter replaced by CR LF, and touches no other field; the loop of
    the source ends for every text. With the delimiter 0 the notes are
    stored as given. *)
Theorem SetNotes_replaces_delimiters (notes : StringX) (d : TCHAR)
    (r : CItemData) :
  (d <> zero_byte ->
   CItem_GetField NOTES (SetNotes notes d r) = replaced d CRLF notes)
  /\ CItem_GetField NOTES (SetNotes notes zero_byte r) = notes
  /\ (forall ft, ft <> NOTES ->
        m_fields (SetNotes notes d r) !! ft = m_fields r !! ft).
Proof.
  split; [| split].
  - intros Hd. rewrite SetNotes_replaced by exact Hd. apply GetField_SetField.
  - unfold SetNotes. rewrite bool_decide_eq_true_2 by reflexivity.
    apply GetField_SetField.
  - intros ft Hft. destruct (decide (d = zero_byte)) as [-> | Hd].
    + unfold SetNotes. rewrite bool_decide_eq_true_2 by reflexivity.
      now apply lookup_SetField_ne.
    + rewrite SetNotes_replaced by exact Hd. now apply lookup_SetField_ne.
Qed.


(** X15. Import and export of the notes with a delimiter are inverse to
    each other. Notes without line-end characters that were set with a
    delimiter are returned unchanged by [GetNotes] with the same
    delimiter; and notes whose line ends are all CR LF pairs and that hold
    no delimiter are restored by [SetNotes] from what [GetNotes]
    returned. *)
Theorem notes_delimiter_round_trip (d : TCHAR) (notes : StringX)
    (r : CItemData) :
  d <> zero_byte -> d <> CR -> d <> LF ->
  (CR ∉ notes -> LF ∉ notes -> GetNotes d (SetNotes notes d r) = notes)
  /\ (crlf_text d (CItem_GetField NOTES r) ->
      CItem_GetField NOTES (SetNotes (GetNotes d r) d r)
      = CItem_GetField NOTES r).
Proof.
  intros H0 Hcr Hlf.
  set (g := fun c : ascii => if bool_decide (c = CR) then []
                             else if bool_decide (c = LF) then [d] else [c]).
  assert (Hbreak : flat_map g CRLF = [d]).
  { unfold CRLF, g. cbn [flat_map app].
    rewrite bool_decide_eq_true_2 by reflexivity.
    rewrite (bool_decide_eq_false_2 (LF = CR)) by discriminate.
    now rewrite bool_decide_eq_true_2 by reflexivity. }
  split.
  - intros Hn1 Hn2. unfold GetNotes. rewrite SetNotes_replaced by exact H0.
    rewrite GetField_SetField, CleanNotes_flat_map by exact H0. fold g.
    induction notes as [| c s IH]; [reflexivity |].
    rewrite elem_of_cons in Hn1, Hn2.
    unfold replaced in *. cbn [flat_map]. rewrite flat_map_app, IH by tauto.
    destruct (decide (c = d)) as [-> | Hc].
    + rewrite bool_decide_eq_true_2 by reflexivity. now rewrite Hbreak.
    + rewrite (bool_decide_eq_false_2 (c = d)) by exact Hc.
      unfold g. cbn [flat_map].
      rewrite (bool_decide_eq_false_2 (c = CR)) by (intros ->; tauto).
      rewrite (bool_decide_eq_false_2 (c = LF)) by (intros ->; tauto).
      reflexivity.
  - intros Htext. rewrite SetNotes_replaced by exact H0.
    rewrite GetField_SetField. unfold GetNotes.
    rewrite CleanNotes_flat_map by exact H0. fold g.
    induction Htext as [| c s Hc1 Hc2 Hc3 _ IH | s _ IH]; [reflexivity | |].
    + cbn [flat_map]. unfold replaced in *. rewrite flat_map_app, IH.
      unfold g. rewrite (bool_decide_eq_false_2 (c = CR)) by exact Hc2.
      rewrite (bool_decide_eq_false_2 (c = LF)) by exact Hc3.
      cbn [flat_map]. rewrite (bool_decide_eq_false_2 (c = d)) by exact Hc1.
      reflexivity.
    + change (CR :: LF :: s) with (CRLF ++ s).
      unfold replaced in *. rewrite !flat_map_app, Hbreak, IH.
      cbn [flat_map]. rewrite bool_decide_eq_true_2 by reflexivity.
      now rewrite app_nil_r.
Qed.

Lemma notes_delimiter_round_trip_witness :
  GetNotes "|"%char (SetNotes (_T "a|b") "|"%char bank_item) = _T "a|b".
Proof.
  destruct (notes_delimiter_round_trip "|"%char (_T "a|b") bank_item)
    as [H _]; [discriminate | discriminate | discriminate |].
  apply H; apply (bool_decide_eq_true_1 _); vm_compute; reflexivity.
Defined.

(** X16. [SetTitle] with a delimiter stores the title with every
    delimiter replaced by a dot: the stored title has the length of the
    given one and holds no delimiter (unless the delimiter is the dot
    itself). With the delimiter 0 it is the plain [SetTitle]. *)
Theorem SetTitle_delimiter_becomes_dot (title : StringX) (d : TCHAR)
    (r : CItemData) :
  (d <> zero_byte ->
   GetTitle (SetTitle_delimited title d r)
   = map (fun c => if bool_decide (c = d) then "."%char else c) title
   /\ length (GetTitle (SetTitle_delimited title d r)) = length title
   /\ (d <> "."%char -> d ∉ GetTitle (SetTitle_delimited title d r)))
  /\ SetTitle_delimited title zero_byte r = SetTitle title r.
Proof.
  split; [| reflexivity].
  intros Hd.
  assert (H : GetTitle (SetTitle_delimited title d r)
              = map (fun c => if bool_decide (c = d) then "."%char else c)
                    title).
  { unfold SetTitle_delimited, GetTitle.
    rewrite bool_decide_eq_false_2 by exact Hd.
    pose proof (replace_delimiters_replaced (S (length title)) d (_T ".") []
                  title ltac:(lia)) as H.
    destruct (replace_delimiters _ _ _ _ _) as [b rest].
    destruct H as [H _]. cbn [app] in H.
    assert (Hs : match rest with [] => b | _ :: _ => b ++ rest end
                 = replaced d (_T ".") title).
    { rewrite <- H. destruct rest; [now rewrite app_nil_r | reflexivity]. }
    rewrite Hs, GetField_SetField. unfold replaced. clear H Hs.
    induction title as [| c s IH]; [reflexivity |].
    cbn [flat_map map]. rewrite <- IH.
    now destruct (bool_decide (c = d)). }
  rewrite H. split; [reflexivity | split].
  - apply length_map.
  - intros Hdot. rewrite list_elem_of_fmap. intros (c & Hc & _).
    case_bool_decide as Hcd; [now apply Hdot |]. now apply Hcd.
Qed.

(** ** Integer fields given as text *)

Lemma only_decimal_iff s :
  only_chars_of decimal_digits s = true <-> all_decimal s.
Proof. apply only_chars_of_Forall. Qed.

Lemma index_of_nonneg c l : 0 <= index_of c l.
Proof.
  induction l as [| x l IH]; cbn [index_of]; [lia |].
  case_bool_decide; lia.
Qed.

Lemma decimal_number_from_nonneg s : forall a, 0 <= a ->
  0 <= foldl (fun acc c => 10 * acc + index_of c decimal_digits) a s.
Proof.
  induction s as [| c s IH]; intros a Ha; cbn [foldl]; [exact Ha |].
  apply IH. pose proof (index_of_nonneg c decimal_digits). lia.
Qed.

Lemma decimal_number_nonneg s : 0 <= decimal_number s.
Proof. now apply decimal_number_from_nonneg. Qed.

Lemma decimal_digit_value d :
  0 <= d < 10 ->
  index_of (nth (Z.to_nat d) decimal_digits zero_byte) decimal_digits = d
  /\ nth (Z.to_nat d) decimal_digits zero_byte ∈ decimal_digits.
Proof.
  intros Hd.
  assert (H : d = 0 \/ d = 1 \/ d = 2 \/ d = 3 \/ d = 4 \/ d = 5 \/ d = 6
              \/ d = 7 \/ d = 8 \/ d = 9) by lia.
  repeat (destruct H as [-> | H]); try subst d;
    (split; [reflexivity | apply (bool_decide_unpack _); exact I]).
Qed.

Lemma decimal_digits_of_number fuel : forall n acc,
  0 <= n < 10 ^ Z.of_nat fuel -> (0 < fuel)%nat ->
  foldl (fun a c => 10 * a + index_of c decimal_digits) 0
        (decimal_digits_of fuel n acc)
  = foldl (fun a c => 10 * a + index_of c decimal_digits) n acc
  /\ (all_decimal acc -> all_decimal (decimal_digits_of fuel n acc))
  /\ decimal_digits_of fuel n acc <> [].
Proof.
  unfold all_decimal.
  induction fuel as [| fuel IH]; intros n acc Hn Hf; [lia |].
  cbn [decimal_digits_of].
  assert (Hm : 0 <= n mod 10 < 10) by (apply Z.mod_pos_bound; lia).
  destruct (decimal_digit_value _ Hm) as [Hv Hin].
  destruct (n / 10 =? 0) eqn:Hq.
  - apply Z.eqb_eq in Hq.
    assert (Hsmall : n mod 10 = n).
    { pose proof (Z.div_mod n 10 ltac:(lia)). lia. }
    cbn [foldl]. rewrite Hv. split; [f_equal; lia |].
    split; [intros Ha; now constructor | discriminate].
  - apply Z.eqb_neq in Hq.
    assert (Hf' : (0 < fuel)%nat).
    { destruct fuel; [| lia]. cbn in Hn.
      assert (n / 10 = 0) by (apply Z.div_small; lia). contradiction. }
    assert (Hn' : 0 <= n / 10 < 10 ^ Z.of_nat fuel).
    { rewrite Nat2Z.inj_succ, Z.pow_succ_r in Hn by lia.
      split; [apply Z.div_pos; lia |].
      apply Z.div_lt_upper_bound; lia. }
    destruct (IH (n / 10) (nth (Z.to_nat (n mod 10)) decimal_digits zero_byte
                            :: acc) Hn' Hf') as (IH1 & IH2 & IH3).
    rewrite IH1. cbn [foldl]. rewrite Hv.
    split; [f_equal; pose proof (Z.div_mod n 10 ltac:(lia)); lia |].
    split; [intros Ha; apply IH2; now constructor | exact IH3].
Qed.

Lemma decimal_text_number n :
  0 <= n < 10 ^ 20 ->
  decimal_number (decimal_text n) = n /\ all_decimal (decimal_text n)
  /\ decimal_text n <> [].
Proof.
  intros Hn. unfold decimal_text, decimal_number.
  rewrite (proj2 (Z.ltb_ge n 0)) by lia.
  destruct (decimal_digits_of_number 20 n [] Hn ltac:(lia)) as (H1 & H2 & H3).
  split; [exact H1 | split; [apply H2; constructor | exact H3]].
Qed.

Lemma SetXTimeInt_text_cases (xint_str : StringX) (r : CItemData) :
  let accepted := (SetXTimeInt_text xint_str r).1 in
  let r' := (SetXTimeInt_text xint_str r).2 in
  (accepted = true
   <-> xint_str = []
       \/ (all_decimal xint_str /\ decimal_number xint_str <= 3650))
  /\ (accepted = true ->
      GetXTimeInt r' = decimal_number xint_str
      /\ forall ft, ft <> XTIME_INT -> m_fields r' !! ft = m_fields r !! ft)
  /\ (accepted = false -> r' = r).
Proof.
  cbv zeta. unfold SetXTimeInt_text.
  assert (Hset : forall i, - 2 ^ 31 <= i < 2 ^ 31 ->
            GetXTimeInt (SetXTimeInt i r) = i).
  { intros i Hi. unfold GetXTimeInt, SetXTimeInt, CItem_SetField.
    cbn [m_fields putInt32 le_bytes]. rewrite lookup_insert_eq.
    apply (le_signed_le_bytes 4 i); [lia | exact Hi]. }
  destruct xint_str as [| c s]; cbn [fst snd].
  - split; [split; auto |]. split; [| discriminate].
    intros _. split; [apply (Hset 0); lia |].
    intros ft Hft. unfold SetXTimeInt. now apply lookup_SetField_ne.
  - destruct (only_chars_of decimal_digits (c :: s)) eqn:Hd.
    + apply only_decimal_iff in Hd.
      pose proof (decimal_number_nonneg (c :: s)) as Hnn.
      unfold extract_signed. cbv zeta.
      destruct (decimal_number (c :: s) <? 2 ^ (8 * Z.of_nat 4 - 1)) eqn:Hfit.
      * apply Z.ltb_lt in Hfit.
        rewrite (proj2 (Z.leb_le 0 _)) by exact Hnn. cbn [andb].
        destruct (decimal_number (c :: s) <=? 3650) eqn:Hr; cbn [fst snd].
        -- apply Z.leb_le in Hr.
           split; [split; [intros _; right; now split | reflexivity] |].
           split; [| discriminate]. intros _. split.
           ++ apply Hset. lia.
           ++ intros ft Hft. unfold SetXTimeInt. now apply lookup_SetField_ne.
        -- apply Z.leb_gt in Hr.
           split; [split; [discriminate | intros [H | [_ H]];
                                            [discriminate | lia]] |].
           split; [discriminate | reflexivity].
      * apply Z.ltb_ge in Hfit.
        change (2 ^ (8 * Z.of_nat 4 - 1)) with (2 ^ 31) in Hfit.
        cbn [fst snd].
        split; [split; [discriminate | intros [H | [_ H]];
                                         [discriminate | lia]] |].
        split; [discriminate | reflexivity].
    + cbn [fst snd].
      split; [split; [discriminate | intros [H | [H _]]; [discriminate |]] |].
      * apply only_decimal_iff in H. congruence.
      * split; [discriminate | reflexivity].
Qed.

(** X17. [SetXTimeInt] from a text accepts the empty text, which stands
    for 0, and a text of decimal digits that denotes a number up to 3650
    (leading zeros allowed); it refuses every other text. When it accepts,
    the interval read back is that number and no other field is touched;
    when it refuses, the record is left as it was. *)
Theorem SetXTimeInt_text_accepts_iff (xint_str : StringX) (r : CItemData) :
  let accepted := (SetXTimeInt_text xint_str r).1 in
  let r' := (SetXTimeInt_text xint_str r).2 in
  (accepted = true
   <-> xint_str = []
       \/ (all_decimal xint_str /\ decimal_number xint_str <= 3650))
  /\ (accepted = true ->
      GetXTimeInt r' = decimal_number xint_str
      /\ forall ft, ft <> XTIME_INT -> m_fields r' !! ft = m_fields r !! ft)
  /\ (accepted = false -> r' = r).
Proof. apply SetXTimeInt_text_cases. Qed.

Section TextSetterProperties.

Variable TIME_LEN : nat.
Variables minDCA maxDCA : Z.

Local Abbreviation SetDCA_text := (SetDCA_text minDCA maxDCA).
Local Abbreviation SetFieldAsByte := (SetFieldAsByte TIME_LEN).

Lemma SetDCA_text_cases (cs_DCA : StringX) (bShift : bool)
    (r : CItemData) :
  let accepted := (SetDCA_text cs_DCA bShift r).1 in
  let r' := (SetDCA_text cs_DCA bShift r).2 in
  (accepted = true
   <-> cs_DCA = []
       \/ (all_decimal cs_DCA /\ decimal_number cs_DCA < 2 ^ 15
           /\ minDCA <= decimal_number cs_DCA <= maxDCA))
  /\ (accepted = true ->
      IsDCASet bShift r' = true
      /\ GetDCA r' bShift
         = (if bool_decide (cs_DCA = []) then -1 else decimal_number cs_DCA))
  /\ (accepted = false -> r' = r).
Proof.
  cbv zeta. unfold SetDCA_text.
  assert (Hset : forall i, - 2 ^ 15 <= i < 2 ^ 15 ->
            IsDCASet bShift (SetDCA i bShift r) = true
            /\ GetDCA (SetDCA i bShift r) bShift = i).
  { intros i Hi. unfold IsDCASet, GetDCA, SetDCA, CItem_SetField.
    cbn [m_fields putInt16 le_bytes]. rewrite lookup_insert_eq. split.
    - apply bool_decide_eq_true_2. eauto.
    - apply (le_signed_le_bytes 2 i); [lia | exact Hi]. }
  destruct cs_DCA as [| c s]; cbn [fst snd].
  - split; [split; auto |]. split; [| discriminate].
    intros _. rewrite bool_decide_eq_true_2 by reflexivity.
    apply (Hset (-1)). lia.
  - rewrite (bool_decide_eq_false_2 (c :: s = [])) by discriminate.
    destruct (only_chars_of decimal_digits (c :: s)) eqn:Hd.
    + apply only_decimal_iff in Hd.
      pose proof (decimal_number_nonneg (c :: s)) as Hnn.
      unfold extract_signed. cbv zeta.
      destruct (decimal_number (c :: s) <? 2 ^ (8 * Z.of_nat 2 - 1)) eqn:Hfit.
      * apply Z.ltb_lt in Hfit.
        change (2 ^ (8 * Z.of_nat 2 - 1)) with (2 ^ 15) in Hfit.
        rewrite (proj2 (Z.eqb_neq _ (-1))) by lia. cbn [orb].
        destruct ((minDCA <=? decimal_number (c :: s))
                  && (decimal_number (c :: s) <=? maxDCA)) eqn:Hr;
          cbn [fst snd].
        -- apply andb_true_iff in Hr. destruct Hr as [Hr1 Hr2].
           apply Z.leb_le in Hr1, Hr2.
           split; [split; [intros _; right; repeat split; auto
                          | reflexivity] |].
           split; [| discriminate]. intros _. apply Hset. lia.
        -- apply andb_false_iff in Hr.
           split; [split; [discriminate |] |].
           ++ intros [H | (_ & _ & H1 & H2)]; [discriminate |].
              destruct Hr as [Hr | Hr]; apply Z.leb_gt in Hr; lia.
           ++ split; [discriminate | reflexivity].
      * apply Z.ltb_ge in Hfit.
        change (2 ^ (8 * Z.of_nat 2 - 1)) with (2 ^ 15) in Hfit.
        cbn [fst snd].
        split; [split; [discriminate | intros [H | (_ & H & _)];
                                         [discriminate | lia]] |].
        split; [discriminate | reflexivity].
    + cbn [fst snd].
      split; [split; [discriminate | intros [H | [H _]]; [discriminate |]] |].
      * apply only_decimal_iff in H. congruence.
      * split; [discriminate | reflexivity].
Qed.

(** X18. [SetDCA] from a text accepts the empty text and a text of
    decimal digits that denotes a 16-bit number within the range of the
    double-click actions; it refuses every other text and then leaves the
    record as it was. For the empty text it stores -1: the field is then
    set, and reads as the value of an entry without the field. Otherwise
    the action read back is the number the text denotes. *)
Theorem SetDCA_text_accepts_iff (cs_DCA : StringX) (bShift : bool)
    (r : CItemData) :
  let accepted := (SetDCA_text cs_DCA bShift r).1 in
  let r' := (SetDCA_text cs_DCA bShift r).2 in
  (accepted = true
   <-> cs_DCA = []
       \/ (all_decimal cs_DCA /\ decimal_number cs_DCA < 2 ^ 15
           /\ minDCA <= decimal_number cs_DCA <= maxDCA))
  /\ (accepted = true ->
      IsDCASet bShift r' = true
      /\ GetDCA r' bShift
         = (if bool_decide (cs_DCA = []) then -1 else decimal_number cs_DCA))
  /\ (accepted = false -> r' = r).
Proof. apply SetDCA_text_cases. Qed.

(** X19. [SetFieldAsByte] on one of the single-byte TOTP fields accepts
    the empty text, for which it stores the byte 0, and a text of decimal
    digits that denotes a number fitting an [int] and, when [strict], not
    above 255. It stores the number modulo 256 as one byte; a refused text
    leaves the record as it was. *)
Theorem SetFieldAsByte_stores_one_byte (type : FieldType)
    (byte_str : StringX) (strict : bool) (r : CItemData) :
  type = TOTPCONFIG \/ type = TOTPLENGTH \/ type = TOTPTIMESTEP ->
  let accepted := (SetFieldAsByte type byte_str strict r).1 in
  let r' := (SetFieldAsByte type byte_str strict r).2 in
  (accepted = true
   <-> byte_str = []
       \/ (all_decimal byte_str /\ decimal_number byte_str < 2 ^ 31
           /\ (strict = true -> decimal_number byte_str <= 255)))
  /\ (accepted = true ->
      m_fields r' !! type
      = Some [chr (Z.to_N (decimal_number byte_str mod 256))])
  /\ (accepted = false -> r' = r).
Proof.
  intros Htype. cbv zeta. unfold SetFieldAsByte.
  assert (Hstore : forall b,
            m_fields (default r (SetField TIME_LEN type [b] r)) !! type
            = Some [b]).
  { intros b. destruct Htype as [-> | [-> | ->]]; cbn [SetField default];
      unfold CItem_SetField; cbn [m_fields]; apply lookup_insert_eq. }
  destruct byte_str as [| c s]; cbn [fst snd].
  - split; [split; auto |]. split; [| discriminate].
    intros _. apply (Hstore zero_byte).
  - destruct (only_chars_of decimal_digits (c :: s)) eqn:Hd; cbn [negb].
    + apply only_decimal_iff in Hd.
      pose proof (decimal_number_nonneg (c :: s)) as Hnn.
      unfold extract_signed. cbv zeta.
      destruct (decimal_number (c :: s) <? 2 ^ (8 * Z.of_nat 4 - 1)) eqn:Hfit.
      * apply Z.ltb_lt in Hfit.
        change (2 ^ (8 * Z.of_nat 4 - 1)) with (2 ^ 31) in Hfit.
        rewrite (proj2 (Z.ltb_ge _ 0)) by exact Hnn. cbn [orb].
        destruct strict; cbn [andb].
        -- destruct (255 <? decimal_number (c :: s)) eqn:Hr; cbn [fst snd].
           ++ apply Z.ltb_lt in Hr.
              split; [split; [discriminate |] |].
              ** intros [H | (_ & _ & H)]; [discriminate |].
                 specialize (H eq_refl). lia.
              ** split; [discriminate | reflexivity].
           ++ apply Z.ltb_ge in Hr.
              split; [split; [intros _; right; repeat split; auto
                             | reflexivity] |].
              split; [| discriminate]. intros _. apply Hstore.
        -- cbn [fst snd].
           split; [split; [intros _; right; repeat split; auto; discriminate
                          | reflexivity] |].
           split; [| discriminate]. intros _. apply Hstore.
      * apply Z.ltb_ge in Hfit.
        change (2 ^ (8 * Z.of_nat 4 - 1)) with (2 ^ 31) in Hfit.
        cbn [fst snd].
        split; [split; [discriminate | intros [H | (_ & H & _)];
                                         [discriminate | lia]] |].
        split; [discriminate | reflexivity].
    + cbn [fst snd].
      split; [split; [discriminate | intros [H | [H _]]; [discriminate |]] |].
      * apply only_decimal_iff in H. congruence.
      * split; [discriminate | reflexivity].
Qed.

(** X20. The text forms of the expiry interval and of the double-click
    action can be read in again when the value is one the setters accept:
    an interval within 0..3650 is set again from what [GetXTimeInt] gives
    as text, and an action that is not negative and within the range is
    set again from what [GetDCA] gives. For an entry without the action
    [GetDCA] gives the text of -1, which [SetDCA] refuses. *)
Theorem integer_text_round_trip (r r0 : CItemData) (bShift : bool) :
  (0 <= GetXTimeInt r <= 3650 ->
   (SetXTimeInt_text (GetXTimeInt_text r) r0).1 = true
   /\ GetXTimeInt (SetXTimeInt_text (GetXTimeInt_text r) r0).2
      = GetXTimeInt r)
  /\ (0 <= GetDCA r bShift -> minDCA <= GetDCA r bShift <= maxDCA ->
      (SetDCA_text (GetDCA_text bShift r) bShift r0).1 = true
      /\ GetDCA (SetDCA_text (GetDCA_text bShift r) bShift r0).2 bShift
         = GetDCA r bShift)
  /\ (IsDCASet bShift r = false ->
      GetDCA_text bShift r = _T "-1"
      /\ SetDCA_text (GetDCA_text bShift r) bShift r0 = (false, r0)).
Proof.
  split; [| split].
  - intros Hx.
    destruct (SetXTimeInt_text_cases (GetXTimeInt_text r) r0)
      as (Hacc & Hval & _). cbv zeta in Hacc, Hval.
    unfold GetXTimeInt_text in *. cbv zeta in *.
    destruct (GetXTimeInt r =? 0) eqn:H0.
    + apply Z.eqb_eq in H0. destruct (Hval eq_refl) as [Hv _].
      split; [reflexivity | now rewrite Hv, H0].
    + destruct (decimal_text_number (GetXTimeInt r) ltac:(lia))
        as (Hn & Hd & _).
      assert (Ha : (SetXTimeInt_text (decimal_text (GetXTimeInt r)) r0).1
                   = true).
      { apply Hacc. right. split; [exact Hd | lia]. }
      split; [exact Ha |]. destruct (Hval Ha) as [Hv _]. now rewrite Hv.
  - intros Hnn Hr.
    destruct (SetDCA_text_cases (GetDCA_text bShift r) bShift r0)
      as (Hacc & Hval & _). cbv zeta in Hacc, Hval.
    unfold GetDCA_text in *.
    assert (H16 : GetDCA r bShift < 2 ^ 15).
    { unfold GetDCA. destruct (m_fields r !! _) as [[| c v] |]; try lia.
      unfold getInt16, le_signed.
      pose proof (le_unsigned_range (take 2 (c :: v))) as Hu.
      assert (Hl : (length (take 2 (c :: v)) <= 2)%nat)
        by (rewrite length_take; lia).
      assert (Hp : 2 ^ (8 * Z.of_nat (length (take 2 (c :: v))))
                   <= 2 ^ (8 * Z.of_nat 2))
        by (apply Z.pow_le_mono_r; lia).
      change (2 ^ (8 * Z.of_nat 2)) with 65536 in *.
      change (2 ^ (8 * Z.of_nat 2 - 1)) with 32768.
      destruct (le_unsigned (take 2 (c :: v)) <? 32768) eqn:Hlt.
      - apply Z.ltb_lt in Hlt. lia.
      - lia. }
    destruct (decimal_text_number (GetDCA r bShift) ltac:(lia))
      as (Hn & Hd & Hne).
    assert (Ha : (SetDCA_text (decimal_text (GetDCA r bShift)) bShift r0).1
                 = true).
    { apply Hacc. right. rewrite Hn. repeat split; auto; lia. }
    split; [exact Ha |]. destruct (Hval Ha) as [_ Hv]. rewrite Hv.
    rewrite bool_decide_eq_false_2 by exact Hne. exact Hn.
  - intros Hunset.
    assert (Hm1 : GetDCA r bShift = -1).
    { unfold IsDCASet in Hunset. apply bool_decide_eq_false in Hunset.
      unfold GetDCA. destruct (m_fields r !! _) as [v |]; [| reflexivity].
      exfalso. apply Hunset. eauto. }
    unfold GetDCA_text. rewrite Hm1. split; reflexivity.
Qed.

End TextSetterProperties.


Lemma SetFieldAsByte_stores_one_byte_witness :
  m_fields (SetFieldAsByte 5 TOTPLENGTH (_T "262") false bank_item).2
    !! TOTPLENGTH = Some [chr 6].
Proof.
  destruct (SetFieldAsByte_stores_one_byte 5 TOTPLENGTH (_T "262") false
              bank_item (or_intror (or_introl eq_refl))) as (_ & H & _).
  exact (H eq_refl).
Defined.

(** ** Attachment and passkey fields *)

Lemma IsFieldSet_ClearField ft ft' r :
  IsFieldSet ft (ClearField ft' r)
  = if bool_decide (ft = ft') then false else IsFieldSet ft r.
Proof.
  unfold IsFieldSet, ClearField. cbn [m_fields].
  destruct (decide (ft = ft')) as [-> | H].
  - rewrite (bool_decide_eq_true_2 (ft' = ft')) by reflexivity.
    rewrite lookup_delete_eq. apply bool_decide_eq_false_2.
    intros [? ?]; discriminate.
  - rewrite (bool_decide_eq_false_2 (ft = ft')) by exact H.
    now rewrite lookup_delete_ne by congruence.
Qed.

(** X21. A passkey is incomplete exactly when some, but not all, of its
    six fields are set. [ClearPasskey] removes the six fields and nothing
    else, so that afterwards the entry has no incomplete passkey. *)
Theorem ClearPasskey_leaves_no_incomplete_passkey (r : CItemData) :
  (HasIncompletePasskey r = true
   <-> (exists ft, ft ∈ passkey_fields /\ IsFieldSet ft r = true)
       /\ (exists ft, ft ∈ passkey_fields /\ IsFieldSet ft r = false))
  /\ HasIncompletePasskey (ClearPasskey r) = false
  /\ (forall ft, ft ∈ passkey_fields ->
        IsFieldSet ft (ClearPasskey r) = false)
  /\ (forall ft, ft ∉ passkey_fields ->
        m_fields (ClearPasskey r) !! ft = m_fields r !! ft)
  /\ m_URFL (ClearPasskey r) = m_URFL r.
Proof.
  assert (Hcleared : forall ft, ft ∈ passkey_fields ->
            IsFieldSet ft (ClearPasskey r) = false).
  { intros ft Hft. unfold passkey_fields in Hft.
    rewrite !elem_of_cons, elem_of_nil in Hft. unfold ClearPasskey.
    cbv zeta. rewrite !IsFieldSet_ClearField.
    destruct Hft as [-> | [-> | [-> | [-> | [-> | [-> | []]]]]]];
      reflexivity. }
  split; [| split; [| split; [exact Hcleared | split; [| reflexivity]]]].
  - unfold HasIncompletePasskey, passkey_fields. cbn [foldl length].
    split.
    + intros H. split.
      * destruct (IsFieldSet PASSKEY_CRED_ID r) eqn:H1;
          [exists PASSKEY_CRED_ID; split;
             [apply list_elem_of_here | exact H1] |].
        destruct (IsFieldSet PASSKEY_RP_ID r) eqn:H2;
          [exists PASSKEY_RP_ID; split;
             [apply (bool_decide_unpack _); exact I | exact H2] |].
        destruct (IsFieldSet PASSKEY_USER_HANDLE r) eqn:H3;
          [exists PASSKEY_USER_HANDLE; split;
             [apply (bool_decide_unpack _); exact I | exact H3] |].
        destruct (IsFieldSet PASSKEY_ALGO_ID r) eqn:H4;
          [exists PASSKEY_ALGO_ID; split;
             [apply (bool_decide_unpack _); exact I | exact H4] |].
        destruct (IsFieldSet PASSKEY_PRIVATE_KEY r) eqn:H5;
          [exists PASSKEY_PRIVATE_KEY; split;
             [apply (bool_decide_unpack _); exact I | exact H5] |].
        destruct (IsFieldSet PASSKEY_SIGN_COUNT r) eqn:H6;
          [exists PASSKEY_SIGN_COUNT; split;
             [apply (bool_decide_unpack _); exact I | exact H6] |].
        discriminate H.
      * destruct (IsFieldSet PASSKEY_CRED_ID r) eqn:H1;
          [| exists PASSKEY_CRED_ID; split;
               [apply list_elem_of_here | exact H1]].
        destruct (IsFieldSet PASSKEY_RP_ID r) eqn:H2;
          [| exists PASSKEY_RP_ID; split;
               [apply (bool_decide_unpack _); exact I | exact H2]].
        destruct (IsFieldSet PASSKEY_USER_HANDLE r) eqn:H3;
          [| exists PASSKEY_USER_HANDLE; split;
               [apply (bool_decide_unpack _); exact I | exact H3]].
        destruct (IsFieldSet PASSKEY_ALGO_ID r) eqn:H4;
          [| exists PASSKEY_ALGO_ID; split;
               [apply (bool_decide_unpack _); exact I | exact H4]].
        destruct (IsFieldSet PASSKEY_PRIVATE_KEY r) eqn:H5;
          [| exists PASSKEY_PRIVATE_KEY; split;
               [apply (bool_decide_unpack _); exact I | exact H5]].
        destruct (IsFieldSet PASSKEY_SIGN_COUNT r) eqn:H6;
          [| exists PASSKEY_SIGN_COUNT; split;
               [apply (bool_decide_unpack _); exact I | exact H6]].
        discriminate H.
    + intros [(f1 & Hf1 & Hs1) (f2 & Hf2 & Hs2)].
      rewrite !elem_of_cons, elem_of_nil in Hf1, Hf2.
      destruct Hf1 as [-> | [-> | [-> | [-> | [-> | [-> | []]]]]]];
        destruct Hf2 as [-> | [-> | [-> | [-> | [-> | [-> | []]]]]]];
        try congruence; rewrite Hs1, Hs2;
        repeat match goal with
               | |- context [IsFieldSet ?f r] => destruct (IsFieldSet f r)
               end; reflexivity.
  - unfold HasIncompletePasskey. cbn [foldl passkey_fields].
    rewrite !Hcleared by (apply (bool_decide_unpack _); exact I).
    reflexivity.
  - intros ft Hft. unfold passkey_fields in Hft.
    rewrite !not_elem_of_cons in Hft.
    destruct Hft as (H1 & H2 & H3 & H4 & H5 & H6 & _).
    unfold ClearPasskey. cbv zeta. unfold ClearField. cbn [m_fields].
    now rewrite !lookup_delete_ne by congruence.
Qed.

(** X22. The two integers of a passkey read back what was set: the
    algorithm id for every signed 32-bit value, the signature counter for
    every unsigned 32-bit value. Both read 0 when the field is not set or
    does not hold exactly four bytes. *)
Theorem passkey_integers_read_back (algo_id sign_count : Z)
    (r : CItemData) :
  - 2 ^ 31 <= algo_id < 2 ^ 31 -> 0 <= sign_count < 2 ^ 32 ->
  GetPasskeyAlgorithmID (SetPasskeyAlgorithmID algo_id r) = algo_id
  /\ GetPasskeySignCount (SetPasskeySignCount sign_count r) = sign_count
  /\ (length (CItem_GetField PASSKEY_ALGO_ID r) <> 4%nat ->
      GetPasskeyAlgorithmID r = 0)
  /\ (length (CItem_GetField PASSKEY_SIGN_COUNT r) <> 4%nat ->
      GetPasskeySignCount r = 0).
Proof.
  intros Ha Hs. split; [| split; [| split]].
  - unfold GetPasskeyAlgorithmID, SetPasskeyAlgorithmID.
    rewrite GetField_SetField. cbv zeta.
    rewrite bool_decide_eq_true_2 by apply length_le_bytes.
    apply (le_signed_le_bytes 4 algo_id); [lia | exact Ha].
  - unfold GetPasskeySignCount, SetPasskeySignCount.
    rewrite GetField_SetField. cbv zeta.
    rewrite bool_decide_eq_true_2 by apply length_le_bytes.
    unfold getInt32, putInt32, le_signed.
    rewrite take_ge by (rewrite length_le_bytes; lia).
    rewrite le_unsigned_le_bytes.
    change (2 ^ (8 * Z.of_nat 4)) with (2 ^ 32).
    change (2 ^ (8 * Z.of_nat 4 - 1)) with (2 ^ 31).
    rewrite (Z.mod_small sign_count) by lia.
    destruct (sign_count <? 2 ^ 31).
    + apply Z.mod_small. lia.
    + replace (sign_count - 2 ^ 32) with (sign_count + (-1) * 2 ^ 32) by lia.
      rewrite Z.mod_add by lia. apply Z.mod_small. lia.
  - intros H. unfold GetPasskeyAlgorithmID. cbv zeta.
    now rewrite bool_decide_eq_false_2.
  - intros H. unfold GetPasskeySignCount. cbv zeta.
    now rewrite bool_decide_eq_false_2.
Qed.

Lemma passkey_integers_read_back_witness :
  GetPasskeyAlgorithmID (SetPasskeyAlgorithmID (-7) bank_item) = -7
  /\ GetPasskeySignCount (SetPasskeySignCount 4294967295 bank_item)
     = 4294967295.
Proof.
  destruct (passkey_integers_read_back (-7) 4294967295 bank_item)
    as (H1 & H2 & _); [lia | lia |].
  split; [exact H1 | exact H2].
Defined.

(** X23. [ClearAttachment] removes the five attachment fields and
    nothing else: the reference to an attachment record, the other fields
    and the unknown fields stay, and the content length reads 0
    afterwards. The content length of an entry with content is the number
    of bytes stored. *)
Theorem ClearAttachment_removes_attachment_only (r : CItemData) :
  GetAttContentLength (ClearAttachment r) = 0%nat
  /\ (forall ft, ft ∈ attachment_fields ->
        IsFieldSet ft (ClearAttachment r) = false)
  /\ (forall ft, ft ∉ attachment_fields ->
        m_fields (ClearAttachment r) !! ft = m_fields r !! ft)
  /\ m_URFL (ClearAttachment r) = m_URFL r
  /\ (forall content, content <> [] ->
        GetAttContentLength (CItem_SetField DATA_ATT_CONTENT content r)
        = length content).
Proof.
  split; [| split; [| split; [| split; [reflexivity |]]]].
  - unfold GetAttContentLength, ClearAttachment. cbv zeta.
    unfold ClearField. cbn [m_fields].
    now rewrite lookup_delete_eq.
  - intros ft Hft. unfold attachment_fields in Hft.
    rewrite !elem_of_cons, elem_of_nil in Hft. unfold ClearAttachment.
    cbv zeta. rewrite !IsFieldSet_ClearField.
    destruct Hft as [-> | [-> | [-> | [-> | [-> | []]]]]]; reflexivity.
  - intros ft Hft. unfold attachment_fields in Hft.
    rewrite !not_elem_of_cons in Hft.
    destruct Hft as (H1 & H2 & H3 & H4 & H5 & _).
    unfold ClearAttachment. cbv zeta. unfold ClearField. cbn [m_fields].
    now rewrite !lookup_delete_ne by congruence.
  - intros content Hne. unfold GetAttContentLength, CItem_SetField.
    destruct content as [| c content]; [contradiction |].
    cbn [m_fields]. now rewrite lookup_insert_eq.
Qed.

(** ** The plain image of a record *)

Section PlainTextProperties.

Variable TIME_LEN : nat.
Variable FieldType_of_byte : ascii -> FieldType.

Local Abbreviation DeSerializePlainText_loop :=
  (DeSerializePlainText_loop TIME_LEN FieldType_of_byte).
Local Abbreviation DeSerializePlainText :=
  (DeSerializePlainText TIME_LEN FieldType_of_byte).
Local Abbreviation set_fields := (set_fields TIME_LEN FieldType_of_byte).
Local Abbreviation plain_field_ok := (plain_field_ok FieldType_of_byte).

Lemma length_plain_field c : length (plain_field c) = (5 + length c.2)%nat.
Proof.
  unfold plain_field. cbn [length]. rewrite length_app, length_le_bytes. lia.
Qed.

Lemma distance_check_passes (n : nat) :
  (0 < n)%nat -> Z.of_nat n < 2 ^ 32 - 3 ->
  ((- Z.of_nat n) mod 2 ^ 32 <? 4) = false.
Proof.
  intros H0 Hn. apply Z.ltb_ge.
  replace (- Z.of_nat n) with (2 ^ 32 - Z.of_nat n + (-1) * 2 ^ 32) by lia.
  rewrite Z.mod_add by lia. rewrite Z.mod_small; lia.
Qed.

(** One field at the head of the vector, with room left in the counter. *)
Lemma DeSerializePlainText_loop_field n c tail r r1 :
  plain_field_ok c ->
  Z.of_nat (length (plain_field c ++ tail)) < 2 ^ 32 - 2 ->
  SetField TIME_LEN (FieldType_of_byte c.1) c.2 r = Some r1 ->
  DeSerializePlainText_loop (S (S n)) (plain_field c ++ tail) r
  = DeSerializePlainText_loop (S n) tail r1.
Proof.
  destruct c as [type data]. intros [Hend Hkb] Hlen Hset.
  cbn [fst snd] in *. rewrite length_app, length_plain_field in Hlen.
  cbn [fst snd] in Hlen.
  unfold plain_field. cbn [fst snd app DeSerializePlainText_loop].
  rewrite distance_check_passes
    by (rewrite !length_app, length_le_bytes; lia).
  rewrite bool_decide_eq_false_2 by exact Hend.
  rewrite bool_decide_eq_false_2
    by (rewrite !length_app, length_le_bytes; lia).
  cbv zeta.
  rewrite <- app_assoc.
  rewrite (take_app_length' (le_bytes 4 (Z.of_nat (length data)))
             (data ++ tail) 4)
    by (now rewrite length_le_bytes).
  rewrite (drop_app_length' (le_bytes 4 (Z.of_nat (length data)))
             (data ++ tail) 4)
    by (now rewrite length_le_bytes).
  rewrite le_unsigned_le_bytes.
  change (2 ^ (8 * Z.of_nat 4)) with (2 ^ 32).
  rewrite Z.mod_small by lia. rewrite Nat2Z.id.
  assert (Hpad : take (length data)
                    ((data ++ tail) ++ repeat zero_byte (length data))
                 = data).
  { rewrite <- app_assoc. now rewrite take_app_length. }
  rewrite Hpad, Hset.
  assert (Hroom : bool_decide (length (data ++ tail) < length data)%nat
                  || (bool_decide (FieldType_of_byte type = KBSHORTCUT)
                      && bool_decide (length (data ++ tail) < 4)%nat)
                  = false).
  { apply orb_false_iff. split.
    - apply bool_decide_eq_false_2. rewrite length_app. lia.
    - destruct (decide (FieldType_of_byte type = KBSHORTCUT)) as [Hk | Hk].
      + rewrite (bool_decide_eq_true_2 _ Hk). cbn [andb].
        apply bool_decide_eq_false_2. rewrite length_app.
        specialize (Hkb Hk). lia.
      + now rewrite (bool_decide_eq_false_2 _ Hk). }
  rewrite Hroom.
  assert (Hdata : SetField TIME_LEN (FieldType_of_byte type)
                    (if bool_decide (FieldType_of_byte type = KBSHORTCUT)
                     then take 4 (data ++ tail)
                     else take (length data) (data ++ tail)) r
                  = Some r1).
  { destruct (decide (FieldType_of_byte type = KBSHORTCUT)) as [Hk | Hk].
    - rewrite (bool_decide_eq_true_2 _ Hk).
      specialize (Hkb Hk). rewrite Hk in Hset |- *. cbn [SetField] in *.
      rewrite <- Hset. do 2 f_equal. unfold getInt32, le_signed.
      rewrite take_take, Nat.min_id.
      rewrite take_app_le by lia. reflexivity.
    - rewrite (bool_decide_eq_false_2 _ Hk). now rewrite take_app_length. }
  rewrite Hdata. now rewrite drop_app_length.
Qed.

Lemma DeSerializePlainText_loop_fields cs : forall n tail r r1,
  Forall plain_field_ok cs ->
  Z.of_nat (length (flat_map plain_field cs ++ tail)) < 2 ^ 32 - 2 ->
  set_fields cs r = Some r1 ->
  (length cs < S n)%nat ->
  DeSerializePlainText_loop (S n) (flat_map plain_field cs ++ tail) r
  = DeSerializePlainText_loop (S n - length cs) tail r1.
Proof.
  induction cs as [| c cs IH]; intros n tail r r1 Hok Hlen Hset Hn.
  - cbn [set_fields] in Hset. injection Hset as <-. reflexivity.
  - cbn [set_fields] in Hset.
    destruct (SetField TIME_LEN (FieldType_of_byte c.1) c.2 r)
      as [r2 |] eqn:H2; [| discriminate].
    cbn [mbind option_bind] in Hset.
    apply Forall_cons in Hok. destruct Hok as [Hc Hok].
    cbn [length] in Hn. destruct n as [| n]; [lia |].
    cbn [flat_map] in *. rewrite <- app_assoc in *.
    rewrite (DeSerializePlainText_loop_field n c _ r r2 Hc Hlen H2).
    rewrite length_app, length_plain_field in Hlen.
    rewrite (IH n tail r2 r1 Hok ltac:(lia) Hset ltac:(lia)).
    reflexivity.
Qed.

(** One field at the head of the vector, whatever the counter and whatever
    [SetField] says. *)
Lemma DeSerializePlainText_loop_step n c tail r :
  plain_field_ok c ->
  Z.of_nat (length (plain_field c ++ tail)) < 2 ^ 32 - 2 ->
  DeSerializePlainText_loop n (plain_field c ++ tail) r
  = match n with
    | S (S m) =>
        match SetField TIME_LEN (FieldType_of_byte c.1) c.2 r with
        | Some r1 => DeSerializePlainText_loop (S m) tail r1
        | None => Some (false, r)
        end
    | _ => Some (false, r)
    end.
Proof.
  intros Hc Hlen.
  destruct n as [| [| m]].
  3: { destruct (SetField TIME_LEN (FieldType_of_byte c.1) c.2 r)
         as [r1 |] eqn:Hset.
       - now apply DeSerializePlainText_loop_field.
       - destruct c as [type data]. destruct Hc as [Hend Hkb].
         cbn [fst snd] in *. rewrite length_app, length_plain_field in Hlen.
         cbn [fst snd] in Hlen.
         unfold plain_field. cbn [fst snd app DeSerializePlainText_loop].
         rewrite distance_check_passes
           by (rewrite !length_app, length_le_bytes; lia).
         rewrite bool_decide_eq_false_2 by exact Hend.
         rewrite bool_decide_eq_false_2
           by (rewrite !length_app, length_le_bytes; lia).
         cbv zeta.
         rewrite <- app_assoc.
         rewrite (take_app_length' (le_bytes 4 (Z.of_nat (length data)))
                    (data ++ tail) 4)
           by (now rewrite length_le_bytes).
         rewrite (drop_app_length' (le_bytes 4 (Z.of_nat (length data)))
                    (data ++ tail) 4)
           by (now rewrite length_le_bytes).
         rewrite le_unsigned_le_bytes.
         change (2 ^ (8 * Z.of_nat 4)) with (2 ^ 32).
         rewrite Z.mod_small by lia. rewrite Nat2Z.id.
         assert (Hpad : take (length data)
                           ((data ++ tail) ++ repeat zero_byte (length data))
                        = data).
         { rewrite <- app_assoc. now rewrite take_app_length. }
         now rewrite Hpad, Hset. }
  all: destruct c as [type data]; destruct Hc as [Hend Hkb];
    cbn [fst snd] in *; rewrite length_app, length_plain_field in Hlen;
    cbn [fst snd] in Hlen;
    unfold plain_field; cbn [fst snd app DeSerializePlainText_loop];
    rewrite distance_check_passes
      by (rewrite !length_app, length_le_bytes; lia);
    rewrite bool_decide_eq_false_2 by exact Hend;
    rewrite bool_decide_eq_false_2
      by (rewrite !length_app, length_le_bytes; lia);
    reflexivity.
Qed.

(** What is left after the last field: nothing, or one stray byte. *)
Lemma DeSerializePlainText_loop_stray n tail r :
  (length tail <= 1)%nat ->
  DeSerializePlainText_loop n tail r = Some (false, r).
Proof.
  intros Ht. destruct tail as [| b [| b' tail]]; cbn [length] in Ht;
    [| | lia]; destruct n; reflexivity.
Qed.

Lemma DeSerializePlainText_loop_unterminated cs : forall n tail r,
  Forall plain_field_ok cs ->
  (length tail <= 1)%nat ->
  Z.of_nat (length (flat_map plain_field cs ++ tail)) < 2 ^ 32 - 2 ->
  exists r',
    DeSerializePlainText_loop n (flat_map plain_field cs ++ tail) r
    = Some (false, r').
Proof.
  induction cs as [| c cs IH]; intros n tail r Hok Ht Hlen.
  - exists r. now apply DeSerializePlainText_loop_stray.
  - apply Forall_cons in Hok. destruct Hok as [Hc Hok].
    cbn [flat_map] in *. rewrite <- app_assoc in *.
    rewrite (DeSerializePlainText_loop_step n c _ r Hc Hlen).
    rewrite length_app, length_plain_field in Hlen.
    destruct n as [| [| m]]; [now exists r | now exists r |].
    destruct (SetField TIME_LEN (FieldType_of_byte c.1) c.2 r) as [r1 |];
      [| now exists r].
    apply IH; [exact Hok | exact Ht | lia].
Qed.

(** X24. An image whose terminator is missing is refused. For a vector
    made of fields (none of them tagged as the terminator, a keyboard
    shortcut with at least its four bytes, the whole below 2^32 - 2
    bytes), followed by nothing or by one stray byte,
    [DeSerializePlainText] returns [false] and reads no byte outside the
    vector, however many fields there are and whether [SetField] accepts
    them or not; the empty vector is the case of no field. When the fields
    are fewer than 255 and [SetField] accepts them all, the record that
    comes back holds them. *)
Theorem DeSerializePlainText_needs_terminator
    (cs : list (ascii * list ascii)) (tail : list ascii) (r : CItemData) :
  Forall plain_field_ok cs ->
  (length tail <= 1)%nat ->
  Z.of_nat (length (flat_map plain_field cs ++ tail)) < 2 ^ 32 - 2 ->
  (exists r',
     DeSerializePlainText (flat_map plain_field cs ++ tail) r
     = Some (false, r'))
  /\ (forall r1, (length cs < 255)%nat -> set_fields cs r = Some r1 ->
        DeSerializePlainText (flat_map plain_field cs ++ tail) r
        = Some (false, r1))
  /\ DeSerializePlainText [] r = Some (false, r).
Proof.
  intros Hok Ht Hlen. unfold DeSerializePlainText.
  split; [now apply DeSerializePlainText_loop_unterminated |].
  split; [| reflexivity].
  intros r1 Hn Hset.
  rewrite (DeSerializePlainText_loop_fields cs 254 _ r r1 Hok Hlen Hset
             ltac:(lia)).
  now apply DeSerializePlainText_loop_stray.
Qed.

(** X25. Decoding a plain image: for an image of at most 254 fields, none
    of them tagged as the terminator, whose fields [SetField] accepts one
    after the other, [DeSerializePlainText] returns [true]; the record is
    the one it was given with these fields set on top (it is not cleared
    first), and its kind is the one the id slots stand for. No byte outside
    the vector is read. *)
Theorem DeSerializePlainText_plain_image
    (cs : list (ascii * list ascii)) (end_byte : ascii) (r r1 : CItemData) :
  FieldType_of_byte end_byte = END ->
  Forall plain_field_ok cs ->
  (length cs < 255)%nat ->
  Z.of_nat (length (plain_image cs end_byte)) < 2 ^ 32 - 2 ->
  set_fields cs r = Some r1 ->
  DeSerializePlainText (plain_image cs end_byte) r
  = Some (true, kind_of_id_slots r1).
Proof.
  intros Hend Hok Hn Hlen Hset. unfold DeSerializePlainText.
  unfold plain_image in *.
  rewrite (DeSerializePlainText_loop_fields cs 254 _ r r1 Hok Hlen Hset
             ltac:(lia)).
  destruct (255 - length cs)%nat as [| m] eqn:Hm; [lia |].
  cbn [DeSerializePlainText_loop le_bytes length].
  rewrite distance_check_passes by (cbn; lia).
  now rewrite bool_decide_eq_true_2 by exact Hend.
Qed.

(** X26. The counter of [DeSerializePlainText] lets 254 fields through:
    an image with 255 fields or more before the terminator is refused,
    even when every field is one [SetField] accepts. *)
Theorem DeSerializePlainText_refuses_255_fields
    (cs more : list (ascii * list ascii)) (end_byte : ascii)
    (r r1 : CItemData) :
  Forall plain_field_ok (cs ++ more) ->
  length cs = 254%nat -> more <> [] ->
  Z.of_nat (length (plain_image (cs ++ more) end_byte)) < 2 ^ 32 - 2 ->
  set_fields cs r = Some r1 ->
  DeSerializePlainText (plain_image (cs ++ more) end_byte) r
  = Some (false, r1).
Proof.
  intros Hok Hn Hmore Hlen Hset. unfold DeSerializePlainText.
  apply Forall_app in Hok. destruct Hok as [Hok1 Hok2].
  destruct more as [| [type data] more]; [contradiction |].
  apply Forall_cons in Hok2. destruct Hok2 as [[Hend _] _].
  cbn [fst] in Hend.
  assert (Himg : plain_image (cs ++ (type, data) :: more) end_byte
                 = flat_map plain_field cs
                   ++ plain_field (type, data)
                   ++ plain_image more end_byte).
  { unfold plain_image. rewrite flat_map_app. cbn [flat_map].
    now rewrite <- !app_assoc. }
  rewrite Himg in *.
  rewrite (DeSerializePlainText_loop_fields cs 254%nat _ r r1 Hok1 Hlen
             Hset ltac:(lia)).
  rewrite Hn. change (255 - 254)%nat with 1%nat.
  rewrite length_app in Hlen.
  unfold plain_field at 1. cbn [fst snd app DeSerializePlainText_loop].
  rewrite length_app, length_plain_field in Hlen. cbn [fst snd] in Hlen.
  rewrite distance_check_passes
    by (rewrite !length_app, length_le_bytes; lia).
  rewrite bool_decide_eq_false_2 by exact Hend.
  rewrite bool_decide_eq_false_2
    by (rewrite !length_app, length_le_bytes; lia).
  reflexivity.
Qed.

End PlainTextProperties.

Lemma DeSerializePlainText_needs_terminator_witness :
  exists r',
    DeSerializePlainText 5
      (fun b => if bool_decide (b = chr 255) then END else TITLE)
      (flat_map plain_field [(chr 3, _T "Bank")] ++ [chr 3]) empty_item
    = Some (false, r').
Proof.
  apply (DeSerializePlainText_needs_terminator 5
           (fun b => if bool_decide (b = chr 255) then END else TITLE)
           [(chr 3, _T "Bank")] [chr 3] empty_item).
  - repeat constructor; cbn; discriminate.
  - simpl. lia.
  - vm_compute. reflexivity.
Defined.

Lemma DeSerializePlainText_plain_image_witness :
  DeSerializePlainText 5
    (fun b => if bool_decide (b = chr 255) then END else TITLE)
    (plain_image [(chr 3, _T "Bank")] (chr 255)) empty_item
  = Some (true, kind_of_id_slots (SetTitle (_T "Bank") empty_item)).
Proof.
  apply (DeSerializePlainText_plain_image 5
           (fun b => if bool_decide (b = chr 255) then END else TITLE)
           [(chr 3, _T "Bank")] (chr 255) empty_item
           (SetTitle (_T "Bank") empty_item)).
  - reflexivity.
  - constructor; [| constructor]. split; [discriminate | discriminate].
  - simpl. lia.
  - vm_compute. reflexivity.
  - reflexivity.
Defined.

Lemma DeSerializePlainText_refuses_255_fields_witness :
  DeSerializePlainText 5
    (fun b => if bool_decide (b = chr 255) then END else TITLE)
    (plain_image (repeat (chr 3, _T "x") 254 ++ [(chr 3, _T "y")])
       (chr 255)) empty_item
  = Some (false, SetTitle (_T "x") empty_item).
Proof.
  apply (DeSerializePlainText_refuses_255_fields 5
           (fun b => if bool_decide (b = chr 255) then END else TITLE)
           (repeat (chr 3, _T "x") 254) [(chr 3, _T "y")] (chr 255)
           empty_item (SetTitle (_T "x") empty_item)).
  - apply Forall_forall. intros c Hc. apply elem_of_app in Hc.
    destruct Hc as [Hc | Hc].
    + apply list_elem_of_In, repeat_spec in Hc. subst c.
      split; discriminate.
    + apply list_elem_of_singleton in Hc. subst c. split; discriminate.
  - apply repeat_length.
  - discriminate.
  - vm_compute. reflexivity.
  - vm_compute. reflexivity.
Defined.

(** ** Matching on the double-click action *)

Section DCAMatcherProperties.

Variables MR_IS MR_ISNOT MR_PRESENT MR_NOTPRESENT : Z.
Variables DoubleClickAction ShiftDoubleClickAction : Z.

Local Abbreviation Matches_dca :=
  (Matches_dca MR_IS MR_ISNOT MR_PRESENT MR_NOTPRESENT DoubleClickAction
     ShiftDoubleClickAction).

(** X27. Matching on the double-click action compares the action of the
    entry, or the preference (as a 16-bit value) when the entry has none
    or holds a negative one. [MR_ISNOT] is the negation of [MR_IS], and
    [MR_NOTPRESENT] the negation of [MR_PRESENT], which holds exactly when
    the field is set, a stored -1 included. Every other rule gives
    [false]. *)
Theorem Matches_dca_falls_back_to_preference (dca iFunction : Z)
    (bShift : bool) (r : CItemData) :
  MR_IS <> MR_ISNOT -> MR_PRESENT <> MR_IS -> MR_PRESENT <> MR_ISNOT ->
  MR_NOTPRESENT <> MR_IS -> MR_NOTPRESENT <> MR_ISNOT ->
  MR_NOTPRESENT <> MR_PRESENT ->
  let preference :=
    wrap_signed 2 (if bShift then ShiftDoubleClickAction
                   else DoubleClickAction) in
  (GetDCA r bShift < 0 -> Matches_dca dca MR_IS bShift r = (preference =? dca))
  /\ (IsDCASet bShift r = false ->
      Matches_dca dca MR_IS bShift r = (preference =? dca))
  /\ (0 <= GetDCA r bShift ->
      Matches_dca dca MR_IS bShift r = (GetDCA r bShift =? dca))
  /\ Matches_dca dca MR_ISNOT bShift r = negb (Matches_dca dca MR_IS bShift r)
  /\ Matches_dca dca MR_PRESENT bShift r = IsDCASet bShift r
  /\ Matches_dca dca MR_NOTPRESENT bShift r = negb (IsDCASet bShift r)
  /\ (iFunction <> MR_IS -> iFunction <> MR_ISNOT ->
      iFunction <> MR_PRESENT -> iFunction <> MR_NOTPRESENT ->
      Matches_dca dca iFunction bShift r = false).
Proof.
  intros H1 H2 H3 H4 H5 H6 preference. subst preference.
  unfold Matches_dca. cbv zeta.
  rewrite !Z.eqb_refl.
  rewrite (proj2 (Z.eqb_neq MR_ISNOT MR_IS)) by congruence.
  rewrite (proj2 (Z.eqb_neq MR_PRESENT MR_IS)) by congruence.
  rewrite (proj2 (Z.eqb_neq MR_PRESENT MR_ISNOT)) by congruence.
  rewrite (proj2 (Z.eqb_neq MR_NOTPRESENT MR_IS)) by congruence.
  rewrite (proj2 (Z.eqb_neq MR_NOTPRESENT MR_ISNOT)) by congruence.
  rewrite (proj2 (Z.eqb_neq MR_NOTPRESENT MR_PRESENT)) by congruence.
  repeat split; try reflexivity.
  - intros Hneg. now rewrite (proj2 (Z.ltb_lt _ _) Hneg).
  - intros Hunset.
    assert (Hm1 : GetDCA r bShift = -1).
    { unfold IsDCASet in Hunset. apply bool_decide_eq_false in Hunset.
      unfold GetDCA. destruct (m_fields r !! _) as [v |]; [| reflexivity].
      exfalso. apply Hunset. eauto. }
    now rewrite Hm1.
  - intros Hpos. now rewrite (proj2 (Z.ltb_ge _ _) Hpos).
  - intros F1 F2 F3 F4.
    rewrite (proj2 (Z.eqb_neq iFunction MR_IS)) by congruence.
    rewrite (proj2 (Z.eqb_neq iFunction MR_ISNOT)) by congruence.
    rewrite (proj2 (Z.eqb_neq iFunction MR_PRESENT)) by congruence.
    now rewrite (proj2 (Z.eqb_neq iFunction MR_NOTPRESENT)) by congruence.
Qed.

End DCAMatcherProperties.

Lemma Matches_dca_falls_back_to_preference_witness :
  Matches_dca 1 2 3 4 5 6 5 1 false bank_item = true.
Proof.
  destruct (Matches_dca_falls_back_to_preference 1 2 3 4 5 6 5 0 false
              bank_item) as (_ & H & _); try discriminate.
  rewrite H by reflexivity. reflexivity.
Defined.

(** ** The times of a duplicate *)

Lemma GetTime_SetTime_ne ft ft' t r :
  ft <> ft' -> CItem_GetTime ft (CItem_SetTime ft' t r) = CItem_GetTime ft r.
Proof.
  intros H. unfold CItem_GetTime, CItem_SetTime.
  now rewrite lookup_SetField_ne by congruence.
Qed.

(** X28. The times of a duplicate: the creation time is the time of the
    call; the record-modification time is that of the source, or the
    creation time of the source when the source was never modified; the
    password-modification time likewise, except that the duplicate of a
    shortcut keeps the one it had. The access and expiry times and every
    other field are left as they were. *)
Theorem SetDuplicateTimes_times (now : Z) (src r : CItemData) :
  - 2 ^ 63 <= now < 2 ^ 63 ->
  let r' := SetDuplicateTimes now src r in
  GetCTime r' = now
  /\ GetRMTime r'
     = (if GetRMTime src =? 0 then GetCTime src else GetRMTime src)
  /\ GetPMTime r'
     = (if IsShortcut src then GetPMTime r
        else if GetPMTime src =? 0 then GetCTime src else GetPMTime src)
  /\ (forall ft, ft <> CTIME -> ft <> RMTIME -> ft <> PMTIME ->
        m_fields r' !! ft = m_fields r !! ft).
Proof.
  intros Hnow r'. subst r'.
  assert (Hrange : forall ft x, - 2 ^ 63 <= CItem_GetTime ft x < 2 ^ 63).
  { intros ft x. unfold CItem_GetTime.
    destruct (m_fields x !! ft) as [[| c v] |]; try lia.
    unfold le_signed.
    pose proof (le_unsigned_range (take 8 (c :: v))) as Hu.
    assert (Hl : (length (take 8 (c :: v)) <= 8)%nat)
      by (rewrite length_take; lia).
    assert (Hp : 2 ^ (8 * Z.of_nat (length (take 8 (c :: v))))
                 <= 2 ^ (8 * Z.of_nat 8))
      by (apply Z.pow_le_mono_r; lia).
    change (2 ^ (8 * Z.of_nat 8)) with (2 ^ 64) in *.
    change (2 ^ (8 * Z.of_nat 8 - 1)) with (2 ^ 63).
    destruct (le_unsigned (take 8 (c :: v)) <? 2 ^ 63) eqn:Hlt.
    - apply Z.ltb_lt in Hlt. lia.
    - apply Z.ltb_ge in Hlt. lia. }
  assert (Hpick : forall a b : Z,
            - 2 ^ 63 <= a < 2 ^ 63 -> - 2 ^ 63 <= b < 2 ^ 63 ->
            - 2 ^ 63 <= (if a =? 0 then b else a) < 2 ^ 63).
  { intros a b Ha Hb. destruct (a =? 0); assumption. }
  unfold SetDuplicateTimes. cbv zeta.
  unfold GetCTime, GetRMTime, GetPMTime, SetCTime, SetRMTime, SetPMTime.
  destruct (IsShortcut src); cbn [negb].
  - repeat split.
    + rewrite GetTime_SetTime_ne by discriminate. now apply GetTime_SetTime.
    + apply GetTime_SetTime. apply Hpick; apply Hrange.
    + now rewrite !GetTime_SetTime_ne by discriminate.
    + intros ft H1 H2 H3. unfold CItem_SetTime.
      now rewrite !lookup_SetField_ne by congruence.
  - repeat split.
    + rewrite !GetTime_SetTime_ne by discriminate. now apply GetTime_SetTime.
    + apply GetTime_SetTime. apply Hpick; apply Hrange.
    + rewrite GetTime_SetTime_ne by discriminate.
      apply GetTime_SetTime. apply Hpick; apply Hrange.
    + intros ft H1 H2 H3. unfold CItem_SetTime.
      now rewrite !lookup_SetField_ne by congruence.
Qed.

Lemma SetDuplicateTimes_times_witness :
  GetCTime (SetDuplicateTimes scenario_time bank_item alias_item)
  = scenario_time.
Proof.
  apply (SetDuplicateTimes_times scenario_time bank_item alias_item).
  vm_compute. split; [discriminate | reflexivity].
Defined.

(** ** The keyboard shortcut as text *)

Lemma wrap_signed_congruent w k j :
  (0 < w)%nat ->
  - 2 ^ (8 * Z.of_nat w - 1) <= k < 2 ^ (8 * Z.of_nat w - 1) ->
  wrap_signed w (k + j * 2 ^ (8 * Z.of_nat w)) = k.
Proof.
  intros Hw Hk. unfold wrap_signed. cbv zeta.
  assert (Hp : 2 ^ (8 * Z.of_nat w) = 2 ^ (8 * Z.of_nat w - 1) * 2).
  { replace (8 * Z.of_nat w) with (Z.succ (8 * Z.of_nat w - 1)) at 1 by lia.
    rewrite Z.pow_succ_r by lia. lia. }
  assert (Hpos : 0 < 2 ^ (8 * Z.of_nat w - 1))
    by (apply Z.pow_pos_nonneg; lia).
  rewrite Hp. generalize dependent (2 ^ (8 * Z.of_nat w - 1)).
  intros P Hk _ HP.
  rewrite Z.mod_add by lia. rewrite Z.div_mul by lia.
  destruct (Z_lt_le_dec k 0) as [Hneg | Hnn].
  - assert (Hm : k mod (P * 2) = k + P * 2).
    { symmetry. apply (Z.mod_unique k (P * 2) (-1)); lia. }
    rewrite Hm. rewrite (proj2 (Z.ltb_ge _ _)) by lia. lia.
  - rewrite Z.mod_small by lia.
    now rewrite (proj2 (Z.ltb_lt _ _)) by lia.
Qed.

Lemma GetKBShortcut_range r : - 2 ^ 31 <= GetKBShortcut r < 2 ^ 31.
Proof.
  unfold GetKBShortcut. destruct (m_fields r !! _) as [[| c v] |]; try lia.
  unfold getInt32, le_signed.
  pose proof (le_unsigned_range (take 4 (c :: v))) as Hu.
  assert (Hl : (length (take 4 (c :: v)) <= 4)%nat)
    by (rewrite length_take; lia).
  assert (Hp : 2 ^ (8 * Z.of_nat (length (take 4 (c :: v))))
               <= 2 ^ (8 * Z.of_nat 4))
    by (apply Z.pow_le_mono_r; lia).
  change (2 ^ (8 * Z.of_nat 4)) with (2 ^ 32) in *.
  change (2 ^ (8 * Z.of_nat 4 - 1)) with (2 ^ 31).
  destruct (le_unsigned (take 4 (c :: v)) <? 2 ^ 31) eqn:Hlt.
  - apply Z.ltb_lt in Hlt. lia.
  - apply Z.ltb_ge in Hlt. lia.
Qed.

(** A shortcut whose bits 8 to 15 are clear is its modifiers shifted by 16
    plus its key code, up to a multiple of 2^32. *)
Lemma shortcut_parts k :
  Z.land k 65280 = 0 ->
  exists j, Z.shiftl (Z.shiftr k 16 mod 2 ^ 16) 16 + Z.land k 255
            = k + j * 2 ^ 32.
Proof.
  intros Hclear.
  rewrite Z.shiftl_mul_pow2, Z.shiftr_div_pow2 by lia.
  assert (Hlow : Z.land k 255 = k mod 2 ^ 16).
  { rewrite <- (Z.land_ones k 16) by lia.
    change (Z.ones 16) with (Z.lor 255 65280).
    now rewrite Z.land_lor_distr_r, Hclear, Z.lor_0_r. }
  rewrite Hlow.
  exists (- (k / 2 ^ 16 / 2 ^ 16)).
  pose proof (Z.div_mod k (2 ^ 16) ltac:(lia)).
  pose proof (Z.div_mod (k / 2 ^ 16) (2 ^ 16) ltac:(lia)).
  change (2 ^ 32) with (2 ^ 16 * 2 ^ 16). lia.
Qed.

Section HotKeyProperties.

Variables PWS_HOTKEYF_ALT PWS_HOTKEYF_CONTROL PWS_HOTKEYF_SHIFT
  PWS_HOTKEYF_EXT PWS_HOTKEYF_META PWS_HOTKEYF_WIN PWS_HOTKEYF_CMD : Z.
Variable extract_hex_word : StringX -> Z.

Local Abbreviation GetKBShortcut_text :=
  (GetKBShortcut_text PWS_HOTKEYF_ALT PWS_HOTKEYF_CONTROL PWS_HOTKEYF_SHIFT
     PWS_HOTKEYF_EXT PWS_HOTKEYF_META PWS_HOTKEYF_WIN PWS_HOTKEYF_CMD).
Local Abbreviation scan_shortcut :=
  (scan_shortcut PWS_HOTKEYF_ALT PWS_HOTKEYF_CONTROL PWS_HOTKEYF_SHIFT
     PWS_HOTKEYF_EXT PWS_HOTKEYF_META PWS_HOTKEYF_WIN PWS_HOTKEYF_CMD
     extract_hex_word).
Local Abbreviation SetKBShortcut_text :=
  (SetKBShortcut_text PWS_HOTKEYF_ALT PWS_HOTKEYF_CONTROL PWS_HOTKEYF_SHIFT
     PWS_HOTKEYF_EXT PWS_HOTKEYF_META PWS_HOTKEYF_WIN PWS_HOTKEYF_CMD
     extract_hex_word).
Local Abbreviation named_modifiers :=
  (named_modifiers PWS_HOTKEYF_ALT PWS_HOTKEYF_CONTROL PWS_HOTKEYF_SHIFT
     PWS_HOTKEYF_EXT PWS_HOTKEYF_META PWS_HOTKEYF_WIN PWS_HOTKEYF_CMD).

Lemma scan_A s w : scan_shortcut ("A"%char :: s) w
                   = scan_shortcut s (or_word w PWS_HOTKEYF_ALT).
Proof. reflexivity. Qed.
Lemma scan_C s w : scan_shortcut ("C"%char :: s) w
                   = scan_shortcut s (or_word w PWS_HOTKEYF_CONTROL).
Proof. reflexivity. Qed.
Lemma scan_S s w : scan_shortcut ("S"%char :: s) w
                   = scan_shortcut s (or_word w PWS_HOTKEYF_SHIFT).
Proof. reflexivity. Qed.
Lemma scan_E s w : scan_shortcut ("E"%char :: s) w
                   = scan_shortcut s (or_word w PWS_HOTKEYF_EXT).
Proof. reflexivity. Qed.
Lemma scan_M s w : scan_shortcut ("M"%char :: s) w
                   = scan_shortcut s (or_word w PWS_HOTKEYF_META).
Proof. reflexivity. Qed.
Lemma scan_W s w : scan_shortcut ("W"%char :: s) w
                   = scan_shortcut s (or_word w PWS_HOTKEYF_WIN).
Proof. reflexivity. Qed.
Lemma scan_D s w : scan_shortcut ("D"%char :: s) w
                   = scan_shortcut s (or_word w PWS_HOTKEYF_CMD).
Proof. reflexivity. Qed.
Lemma scan_colon s w : scan_shortcut (":"%char :: s) w
                       = (w, extract_hex_word (substr s 0 4)).
Proof. reflexivity. Qed.

(** The scan of the text of a shortcut gathers the modifiers the text
    names. *)
Lemma scan_text w vk :
  scan_shortcut
    ((if negb (Z.land w PWS_HOTKEYF_ALT =? 0) then _T "A" else [])
     ++ (if negb (Z.land w PWS_HOTKEYF_CONTROL =? 0) then _T "C" else [])
     ++ (if negb (Z.land w PWS_HOTKEYF_SHIFT =? 0) then _T "S" else [])
     ++ (if negb (Z.land w PWS_HOTKEYF_EXT =? 0) then _T "E" else [])
     ++ (if negb (Z.land w PWS_HOTKEYF_META =? 0) then _T "M" else [])
     ++ (if negb (Z.land w PWS_HOTKEYF_WIN =? 0) then _T "W" else [])
     ++ (if negb (Z.land w PWS_HOTKEYF_CMD =? 0) then _T "D" else [])
     ++ _T ":" ++ hex_fixed 4 vk) 0
  = (named_modifiers w, extract_hex_word (hex_fixed 4 vk)).
Proof.
  unfold named_modifiers. cbv zeta.
  assert (Hsub : substr (hex_fixed 4 vk) 0 4 = hex_fixed 4 vk).
  { unfold substr. rewrite drop_0. apply take_ge.
    now rewrite length_hex_fixed. }
  destruct (negb (Z.land w PWS_HOTKEYF_ALT =? 0));
    destruct (negb (Z.land w PWS_HOTKEYF_CONTROL =? 0));
    destruct (negb (Z.land w PWS_HOTKEYF_SHIFT =? 0));
    destruct (negb (Z.land w PWS_HOTKEYF_EXT =? 0));
    destruct (negb (Z.land w PWS_HOTKEYF_META =? 0));
    destruct (negb (Z.land w PWS_HOTKEYF_WIN =? 0));
    destruct (negb (Z.land w PWS_HOTKEYF_CMD =? 0));
    cbn [app _T list_ascii_of_string];
    rewrite ?scan_A, ?scan_C, ?scan_S, ?scan_E, ?scan_M, ?scan_W, ?scan_D,
      scan_colon, Hsub; reflexivity.
Qed.

Lemma GetKBShortcut_text_parts r :
  GetKBShortcut r <> 0 ->
  let w := Z.shiftr (GetKBShortcut r) 16 mod 2 ^ 16 in
  GetKBShortcut_text r
  = (if negb (Z.land w PWS_HOTKEYF_ALT =? 0) then _T "A" else [])
    ++ (if negb (Z.land w PWS_HOTKEYF_CONTROL =? 0) then _T "C" else [])
    ++ (if negb (Z.land w PWS_HOTKEYF_SHIFT =? 0) then _T "S" else [])
    ++ (if negb (Z.land w PWS_HOTKEYF_EXT =? 0) then _T "E" else [])
    ++ (if negb (Z.land w PWS_HOTKEYF_META =? 0) then _T "M" else [])
    ++ (if negb (Z.land w PWS_HOTKEYF_WIN =? 0) then _T "W" else [])
    ++ (if negb (Z.land w PWS_HOTKEYF_CMD =? 0) then _T "D" else [])
    ++ _T ":" ++ hex_fixed 4 (Z.land (GetKBShortcut r) 255).
Proof.
  intros Hk w. unfold GetKBShortcut_text. cbv zeta. fold w.
  rewrite (proj2 (Z.eqb_neq _ 0) Hk). cbn [negb].
  destruct (negb (Z.land w PWS_HOTKEYF_ALT =? 0));
    destruct (negb (Z.land w PWS_HOTKEYF_CONTROL =? 0));
    destruct (negb (Z.land w PWS_HOTKEYF_SHIFT =? 0));
    destruct (negb (Z.land w PWS_HOTKEYF_EXT =? 0));
    destruct (negb (Z.land w PWS_HOTKEYF_META =? 0));
    destruct (negb (Z.land w PWS_HOTKEYF_WIN =? 0));
    destruct (negb (Z.land w PWS_HOTKEYF_CMD =? 0));
    reflexivity.
Qed.

(** X29. The text of a keyboard shortcut can be read in again: for a
    shortcut with a key code, clear bits 8 to 15 and modifiers that are a
    non-empty union of the known flags, [SetKBShortcut] from the text
    [GetKBShortcut] gives stores the same shortcut, provided the hex
    extraction of the library reads four hex digits back. An entry without
    a shortcut gives the empty text, from which the shortcut 0 is set. *)
Theorem KBShortcut_text_round_trip (r r0 : CItemData) :
  (forall n, 0 <= n < 256 -> extract_hex_word (hex_fixed 4 n) = n) ->
  let k := GetKBShortcut r in
  let w := Z.shiftr k 16 mod 2 ^ 16 in
  (Z.land k 255 <> 0 -> Z.land k 65280 = 0 -> w <> 0 ->
   named_modifiers w = w ->
   GetKBShortcut (SetKBShortcut_text (GetKBShortcut_text r) r0) = k)
  /\ (k = 0 ->
      GetKBShortcut_text r = []
      /\ GetKBShortcut (SetKBShortcut_text (GetKBShortcut_text r) r0) = 0).
Proof.
  intros Hhex k w.
  assert (Hset : forall i, - 2 ^ 31 <= i < 2 ^ 31 ->
            GetKBShortcut (SetKBShortcut i r0) = i).
  { intros i Hi. unfold GetKBShortcut, SetKBShortcut, CItem_SetField.
    cbn [m_fields putInt32 le_bytes]. rewrite lookup_insert_eq.
    apply (le_signed_le_bytes 4 i); [lia | exact Hi]. }
  split.
  - intros Hvk Hclear Hw Hnamed.
    assert (Hk0 : k <> 0) by (intros H0; apply Hvk; subst k; now rewrite H0).
    pose proof (GetKBShortcut_text_parts r Hk0) as Htext. cbv zeta in Htext.
    fold k in Htext. fold w in Htext.
    unfold SetKBShortcut_text. rewrite Htext, scan_text, Hnamed.
    assert (Hvkr : 0 <= Z.land k 255 < 256).
    { change 255 with (Z.ones 8). rewrite Z.land_ones by lia.
      apply Z.mod_pos_bound. lia. }
    rewrite (Hhex _ Hvkr).
    rewrite (proj2 (Z.eqb_neq w 0) Hw), (proj2 (Z.eqb_neq _ 0) Hvk).
    cbn [negb andb].
    destruct (shortcut_parts k Hclear) as [j Hj]. fold w in Hj. rewrite Hj.
    pose proof (GetKBShortcut_range r) as Hr. fold k in Hr.
    change (k + j * 2 ^ 32) with (k + j * 2 ^ (8 * Z.of_nat 4)).
    rewrite (wrap_signed_congruent 4 k j)
      by (try change (2 ^ (8 * Z.of_nat 4 - 1)) with (2 ^ 31); lia).
    now apply Hset.
  - intros H0. unfold GetKBShortcut_text. cbv zeta. fold k. rewrite H0.
    split; [reflexivity |]. cbn [Z.eqb negb]. unfold SetKBShortcut_text.
    cbn [scan_shortcut Z.eqb negb andb]. apply Hset. lia.
Qed.

End HotKeyProperties.

Lemma KBShortcut_text_round_trip_witness :
  GetKBShortcut
    (SetKBShortcut_text 1 2 4 8 16 32 64 hex_number
       (GetKBShortcut_text 1 2 4 8 16 32 64 (SetKBShortcut 327745 bank_item))
       alias_item)
  = 327745.
Proof.
  destruct (KBShortcut_text_round_trip 1 2 4 8 16 32 64 hex_number
              (SetKBShortcut 327745 bank_item) alias_item) as [H _].
  - intros n Hn. apply hex_number_fixed.
    change (16 ^ Z.of_nat 4) with 65536. lia.
  - apply H; vm_compute; congruence.
Defined.

(** ** The two readers *)

Section TwoReaders.

Variable TIME_LEN : nat.
Variable FieldType_of_byte : ascii -> FieldType.

Local Abbreviation DeSerializePlainText_loop :=
  (DeSerializePlainText_loop TIME_LEN FieldType_of_byte).
Local Abbreviation DeSerializePlainText :=
  (DeSerializePlainText TIME_LEN FieldType_of_byte).
Local Abbreviation set_fields := (set_fields TIME_LEN FieldType_of_byte).
Local Abbreviation plain_field_ok := (plain_field_ok FieldType_of_byte).

Lemma load_set_fields cs : forall r,
  Forall plain_field_ok cs ->
  Forall (fun c => IsItemAttField (FieldType_of_byte c.1) = false) cs ->
  load TIME_LEN (map (fun c => (FieldType_of_byte c.1, c.2)) cs) r
  = set_fields cs r.
Proof.
  induction cs as [| [type data] cs IH]; intros r Hok Hatt; [reflexivity |].
  apply Forall_cons in Hok. destruct Hok as [[Hend _] Hok].
  apply Forall_cons in Hatt. destruct Hatt as [Ha Hatt].
  cbn [fst snd] in Hend, Ha.
  cbn [map load set_fields fst snd]. unfold accept. cbn [fst snd].
  rewrite bool_decide_eq_false_2 by exact Hend. rewrite Ha.
  assert (Hsame : (if IsItemDataField (FieldType_of_byte type)
                   then SetField TIME_LEN (FieldType_of_byte type) data r
                   else Some (SetUnknownField (FieldType_of_byte type) data r))
                  = SetField TIME_LEN (FieldType_of_byte type) data r).
  { destruct (IsItemDataField (FieldType_of_byte type)) eqn:Hd;
      [reflexivity |].
    symmetry. apply SetField_unrecognised.
    destruct (FieldType_of_byte type); try discriminate Hd; try reflexivity.
    now contradiction Hend. }
  rewrite Hsame.
  destruct (SetField TIME_LEN (FieldType_of_byte type) data r) as [r' |];
    cbn [mbind option_bind]; [| reflexivity].
  now apply IH.
Qed.

(** X30. The two readers load the same fields. For at most 254 fields
    that [SetField] accepts, none of them tagged as the terminator or as
    an attachment field, [Read] from the stream of the fields and
    [DeSerializePlainText] from their plain image both succeed, starting
    from the cleared record; the record of [Read] is the record of
    [DeSerializePlainText] with the legacy placeholder password decoded
    before the kind is determined. So the two records are the same
    whenever the password read is not a placeholder. *)
Theorem Read_and_DeSerializePlainText_agree
    (cs : list (ascii * list ascii)) (end_byte : ascii) (tfl : nat)
    (r r1 : CItemData) :
  FieldType_of_byte end_byte = END ->
  Forall plain_field_ok cs ->
  Forall (fun c => IsItemAttField (FieldType_of_byte c.1) = false) cs ->
  (length cs < 255)%nat ->
  Z.of_nat (length (plain_image cs end_byte)) < 2 ^ 32 - 2 ->
  set_fields cs (CItemData_Clear r) = Some r1 ->
  let stream :=
    map (fun c => (FieldType_of_byte c.1, c.2)) cs ++ [(END, [])] in
  (Read TIME_LEN (mkFile tfl stream) r).1
  = (Status SUCCESS, kind_of_id_slots (ParseSpecialPasswords r1))
  /\ DeSerializePlainText (plain_image cs end_byte) (CItemData_Clear r)
     = Some (true, kind_of_id_slots r1)
  /\ (ParseSpecialPasswords r1 = r1 ->
      DeSerializePlainText (plain_image cs end_byte) (CItemData_Clear r)
      = Some (true, (Read TIME_LEN (mkFile tfl stream) r).1.2)).
Proof.
  intros Hend Hok Hatt Hn Hlen Hset stream.
  assert (Hread : (Read TIME_LEN (mkFile tfl stream) r).1
                  = (Status SUCCESS,
                     kind_of_id_slots (ParseSpecialPasswords r1))).
  { subst stream.
    rewrite (Read_terminated TIME_LEN _ tfl r r1).
    - cbn [fst]. unfold finish_Read.
      pose proof (stream_size_nonneg
                    (map (fun c => (FieldType_of_byte c.1, c.2)) cs)) as Hs.
      rewrite (proj2 (Z.ltb_lt 0 _)) by lia. reflexivity.
    - rewrite load_set_fields by assumption. exact Hset.
    - now rewrite length_map. }
  assert (Hplain : DeSerializePlainText (plain_image cs end_byte)
                     (CItemData_Clear r)
                   = Some (true, kind_of_id_slots r1)).
  { unfold DeSerializePlainText, plain_image in *.
    rewrite (DeSerializePlainText_loop_fields TIME_LEN FieldType_of_byte cs
               254 _ _ r1 Hok Hlen Hset ltac:(lia)).
    destruct (255 - length cs)%nat as [| m] eqn:Hm; [lia |].
    cbn [DeSerializePlainText_loop le_bytes length].
    rewrite distance_check_passes by (cbn; lia).
    now rewrite bool_decide_eq_true_2 by exact Hend. }
  split; [exact Hread | split; [exact Hplain |]].
  intros Hnoplaceholder. rewrite Hplain, Hread. cbn [snd].
  now rewrite Hnoplaceholder.
Qed.

End TwoReaders.

Lemma Read_and_DeSerializePlainText_agree_witness :
  DeSerializePlainText 5
    (fun b => if bool_decide (b = chr 255) then END
              else if bool_decide (b = chr 1) then UUID else TITLE)
    (plain_image [(chr 1, sample_uuid 7); (chr 3, _T "Bank")] (chr 255))
    (CItemData_Clear bank_item)
  = Some (true,
          (Read 5 (mkFile 5 [(UUID, sample_uuid 7); (TITLE, _T "Bank");
                             (END, [])]) bank_item).1.2).
Proof.
  destruct (Read_and_DeSerializePlainText_agree 5
              (fun b => if bool_decide (b = chr 255) then END
                        else if bool_decide (b = chr 1) then UUID else TITLE)
              [(chr 1, sample_uuid 7); (chr 3, _T "Bank")] (chr 255) 5
              bank_item
              (SetTitle (_T "Bank") (SetUUID (sample_uuid 7) UUID empty_item)))
    as (_ & _ & H).
  - reflexivity.
  - repeat constructor; discriminate.
  - repeat constructor.
  - simpl. lia.
  - vm_compute. reflexivity.
  - vm_compute. reflexivity.
  - apply H. vm_compute. reflexivity.
Defined.
